(** * SimPEG viscous remanent magnetization (VRM) problem classes

    A shallow embedding of [SimPEG/VRM/ProblemVRM.py]: the rectangular-prism
    geometry kernel, the refinement of the sensitivity columns near a source,
    the cached operators [A] and [T] of [LinearVRM], the forward and
    (transpose-)Jacobian products, and the log-uniform forward evaluation.

    Numbers are real numbers (exact arithmetic): [np.arctan], [np.log],
    [np.sqrt] and [np.pi] are [atan], [ln], [sqrt] and [PI] of the standard
    library.  The module [Binary64] has the prism kernel once more over the
    binary64 numbers that numpy computes with, for the properties that
    rounding decides.  A numpy 2-D array, a [np.matrix] and a scipy sparse matrix are
    all a [matrix]: a shape and the list of its rows.  A Python exception is
    a [Raise] result; a method of a problem instance is a function from the
    instance's state to a result and the state it leaves. *)

From Stdlib Require Import Floats QArith Qround ZArith String Bool Reals Lra Lia List.
Import ListNotations.
Open Scope R_scope.
Set Warnings "-inexact-float".

(* ================================================================= *)
(** ** Python values, exceptions and results *)

Inductive exn : Type :=
| AssertionError (msg : string)
| ValueError (msg : string)
| IndexError (msg : string)
| TypeError (msg : string).

Inductive result (A : Type) : Type :=
| Ok (a : A)
| Raise (e : exn).
Arguments Ok {A} a.
Arguments Raise {A} e.

Definition bind {A B : Type} (r : result A) (k : A -> result B) : result B :=
  match r with
  | Ok a => k a
  | Raise e => Raise e
  end.

Notation "x <- c1 ;; c2" := (bind c1 (fun x => c2))
  (at level 61, c1 at next level, right associativity).

(** The scalar Python values that reach the validated keyword arguments. *)
Inductive pyval : Type :=
| VBool (b : bool)
| VInt (z : Z)
| VFloat (q : Q)
| VNone
| VStr (s : string).

(** [isinstance(x, int)]: [bool] is a subclass of [int]. *)
Definition isinstance_int (x : pyval) : bool :=
  match x with
  | VBool _ | VInt _ => true
  | _ => false
  end.

(** The integer a [bool] or [int] stands for in arithmetic and comparisons. *)
Definition int_value (x : pyval) : Z :=
  match x with
  | VBool b => if b then 1%Z else 0%Z
  | VInt z => z
  | _ => 0%Z
  end.

(** [x == True] and [x == False], as [list.count] compares. *)
Definition py_eq_True (x : pyval) : bool :=
  match x with
  | VBool b => b
  | VInt z => Z.eqb z 1
  | VFloat q => Qeq_bool q 1
  | _ => false
  end.

Definition py_eq_False (x : pyval) : bool :=
  match x with
  | VBool b => negb b
  | VInt z => Z.eqb z 0
  | VFloat q => Qeq_bool q 0
  | _ => false
  end.

(** [list(l).count(True)] and [list(l).count(False)]. *)
Definition count_True (l : list pyval) : nat := length (filter py_eq_True l).
Definition count_False (l : list pyval) : nat := length (filter py_eq_False l).

(* ================================================================= *)
(** ** numpy and scipy.sparse on lists of rows *)

(** A 1-D array. *)
Abbreviation vec := (list R).

Record matrix : Type := Mat { nrow : nat; ncol : nat; rows : list vec }.

(** The shape describes the rows. *)
Definition wf (M : matrix) : Prop :=
  length (rows M) = nrow M /\ Forall (fun r => length r = ncol M) (rows M).

Fixpoint zip_with {A B C : Type} (f : A -> B -> C) (l1 : list A) (l2 : list B)
  : list C :=
  match l1, l2 with
  | a :: l1', b :: l2' => f a b :: zip_with f l1' l2'
  | _, _ => []
  end.

Definition vsum (l : vec) : R := fold_right Rplus 0 l.

Definition dot (u v : vec) : R := vsum (zip_with Rmult u v).

(** [M[:, j]] *)
Definition col (j : nat) (M : matrix) : vec := map (fun r => nth j r 0) (rows M).

Definition np_zeros (r c : nat) : matrix := Mat r c (repeat (repeat 0 c) r).
Definition np_ones (r c : nat) : matrix := Mat r c (repeat (repeat 1 c) r).

(** [M.T] *)
Definition transpose (M : matrix) : matrix :=
  Mat (ncol M) (nrow M) (map (fun j => col j M) (seq 0 (ncol M))).

(** The matrix product [A*B] of [np.matrix] and of sparse [dot]. *)
Definition matmul (A B : matrix) : result matrix :=
  if Nat.eqb (ncol A) (nrow B)
  then Ok (Mat (nrow A) (ncol B)
             (map (fun r => map (fun j => dot r (col j B)) (seq 0 (ncol B))) (rows A)))
  else Raise (ValueError "shapes not aligned").

(** [np.matrix(v).T] of a 1-D array: a column. *)
Definition column (v : vec) : matrix := Mat (length v) 1 (map (fun x => [x]) v).

(** [np.matrix(v)] of a 1-D array: a row. *)
Definition row_matrix (v : vec) : matrix := Mat 1 (length v) [v].

(** [mkvc(M)]: the entries in column-major (Fortran) order. *)
Definition mkvc (M : matrix) : vec := concat (rows (transpose M)).

(** [sp.diags(d)] *)
Definition diags (d : vec) : matrix :=
  let n := length d in
  Mat n n (map (fun i => map (fun j => if Nat.eqb i j then nth i d 0 else 0) (seq 0 n))
             (seq 0 n)).

(** [np.kron(A, B)] and [sp.kron(A, B)] *)
Definition kron (A B : matrix) : matrix :=
  Mat (nrow A * nrow B) (ncol A * ncol B)
      (flat_map (fun ra => map (fun rb => flat_map (fun a => map (Rmult a) rb) ra) (rows B))
                (rows A)).

(** [np.vstack(Ms)] and [sp.vstack(Ms)]: no array, or arrays of different
    widths, raise. *)
Definition vstack (Ms : list matrix) : result matrix :=
  match Ms with
  | [] => Raise (ValueError "need at least one array to concatenate")
  | M :: Ms' =>
      if forallb (fun M' => Nat.eqb (ncol M') (ncol M)) Ms'
      then Ok (Mat (list_sum (map nrow Ms)) (ncol M) (flat_map rows Ms))
      else Raise (ValueError "all the input array dimensions except for the concatenation axis must match exactly")
  end.

(** The rows of [sp.block_diag(Ms)]: [before] columns of zeros to the left of
    the first block. *)
Fixpoint block_diag_rows (before : nat) (total : nat) (Ms : list matrix) : list vec :=
  match Ms with
  | [] => []
  | M :: Ms' =>
      map (fun r => repeat 0 before ++ r ++ repeat 0 (total - before - ncol M)) (rows M)
      ++ block_diag_rows (before + ncol M) total Ms'
  end.

(** [sp.block_diag(Ms)]: an empty list of blocks raises. *)
Definition block_diag (Ms : list matrix) : result matrix :=
  match Ms with
  | [] => Raise (ValueError "blocks must be 2-D")
  | _ =>
      let total := list_sum (map ncol Ms) in
      Ok (Mat (list_sum (map nrow Ms)) total (block_diag_rows 0 total Ms))
  end.

(** [np.min(v)]: a zero-size array has no minimum. *)
Definition np_min (v : vec) : result R :=
  match v with
  | [] => Raise (ValueError "zero-size array to reduction operation minimum which has no identity")
  | x :: v' => Ok (fold_left Rmin v' x)
  end.

(** The entries of [l] where the boolean [mask] holds. *)
Fixpoint select {A : Type} (mask : list bool) (l : list A) : list A :=
  match mask, l with
  | b :: mask', x :: l' => if b then x :: select mask' l' else select mask' l'
  | _, _ => []
  end.

Definition count_true (mask : list bool) : nat := length (filter (fun b => b) mask).

(** [M[mask, :]] with a boolean mask. *)
Definition mask_rows (mask : list bool) (M : matrix) : result matrix :=
  if Nat.eqb (length mask) (nrow M)
  then Ok (Mat (count_true mask) (ncol M) (select mask (rows M)))
  else Raise (IndexError "boolean index did not match indexed array").

(** One row of [M[:, mask] = new]: the entries under the mask take the
    entries of the new row in order. *)
Fixpoint assign_masked (mask : list bool) (r new : vec) : vec :=
  match mask, r with
  | b :: mask', x :: r' =>
      if b
      then match new with
           | y :: new' => y :: assign_masked mask' r' new'
           | [] => x :: assign_masked mask' r' []
           end
      else x :: assign_masked mask' r' new
  | _, _ => r
  end.

(** [M[:, mask] = New] for a [New] of the shape of the selected columns. *)
Definition set_columns (mask : list bool) (M New : matrix) : result matrix :=
  if negb (Nat.eqb (length mask) (ncol M))
  then Raise (IndexError "boolean index did not match indexed array")
  else if Nat.eqb (nrow New) (nrow M) && Nat.eqb (ncol New) (count_true mask)
  then Ok (Mat (nrow M) (ncol M) (zip_with (assign_masked mask) (rows M) (rows New)))
  else Raise (ValueError "shape mismatch: value array could not be broadcast to indexing result").

(** Entry-wise operations on arrays of one shape, and by a scalar. *)
Definition mat_zip (f : R -> R -> R) (A B : matrix) : matrix :=
  Mat (nrow A) (ncol A) (zip_with (zip_with f) (rows A) (rows B)).

Definition mat_map (f : R -> R) (A : matrix) : matrix :=
  Mat (nrow A) (ncol A) (map (map f) (rows A)).

(** [l[i] = x] on a list that has an index [i]. *)
Fixpoint update {A : Type} (l : list A) (i : nat) (x : A) : list A :=
  match l, i with
  | [], _ => []
  | _ :: l', O => x :: l'
  | y :: l', S i' => y :: update l' i' x
  end.

(** [M[self_mask, :]] for the active mask of a problem, whose entries are
    arbitrary Python values: booleans select by mask, integers (and booleans
    among integers) index rows with Python's wrap-around of negative numbers,
    any other value is refused by numpy. *)
Definition is_VBool (x : pyval) : bool :=
  match x with VBool _ => true | _ => false end.

Fixpoint take_rows (M : matrix) (idx : list pyval) : result (list vec) :=
  match idx with
  | [] => Ok []
  | i :: idx' =>
      let z := int_value i in
      let k := if (z <? 0)%Z then (z + Z.of_nat (nrow M))%Z else z in
      if ((0 <=? k)%Z && (k <? Z.of_nat (nrow M))%Z)%bool
      then rs <- take_rows M idx' ;; Ok (nth (Z.to_nat k) (rows M) [] :: rs)
      else Raise (IndexError "index out of bounds")
  end.

Definition index_rows (idx : list pyval) (M : matrix) : result matrix :=
  if forallb is_VBool idx
  then mask_rows (map py_eq_True idx) M
  else if forallb isinstance_int idx
  then rs <- take_rows M idx ;; Ok (Mat (length idx) (ncol M) rs)
  else Raise (IndexError "arrays used as indices must be of integer (or boolean) type").

(* ================================================================= *)
(** ** The collaborators of a problem: waveform, receiver, source, survey,
    mesh and parameter map

    Their classes are not part of [ProblemVRM.py]; a problem only calls the
    attributes and methods listed here, which are taken as given. *)

Record Waveform : Type := {
  getCharDecay : string -> vec -> vec;
  getLogUniformDecay : string -> vec -> vec -> vec -> vec -> vec -> matrix
}.

Record Rx : Type := {
  fieldComp : string;
  locs : matrix;          (* M x 3 *)
  times : vec;
  fieldType : string
}.

(** A value given as refinement radii: a 1-D numpy array, a 0-d numpy array
    (as [np.array(1.25)] is) or a Python list. *)
Inductive radii : Type :=
| NdArray (l : vec)
| NdArray0 (x : R)
| PyList (l : vec).

(** [len(a)]: a 0-d array has no length. *)
Definition py_len (a : radii) : result nat :=
  match a with
  | NdArray l | PyList l => Ok (length l)
  | NdArray0 _ => Raise (TypeError "len() of unsized object")
  end.

(** [isinstance(a, np.ndarray)] *)
Definition is_ndarray (a : radii) : bool :=
  match a with NdArray _ | NdArray0 _ => true | PyList _ => false end.

Record Src : Type := {
  getH0 : matrix -> matrix;                          (* N x 3 -> N x 3 *)
  rxList : list Rx;
  nRx : nat;
  waveform : Waveform;
  _getRefineFlags : matrix -> Z -> radii -> list Z
}.

Record SurveyVRM : Type := {
  srcList : list Src;
  tActive : list bool
}.

(** [survey.nSrc] *)
Definition nSrc (survey : SurveyVRM) : nat := length (srcList survey).

Record Mesh : Type := {
  mesh_h : list vec;      (* mesh.h: the cell widths along each axis *)
  mesh_nC : nat;
  gridCC : matrix;        (* nC x 3 *)
  gridH : matrix          (* nC x 3 *)
}.

(** A mapping object: [xiMap * m] and the matrix [xiMap.P]. *)
Record ParamMap : Type := {
  map_mul : vec -> vec;
  map_P : matrix
}.

(* ================================================================= *)
(** ** The prism kernel of [_getGeometryMatrix] *)

Definition eps : R := 1e-10.
Definition C : R := - (1 / (4 * PI)).

Section PrismKernel.
Variables u1 u2 v1 v2 w1 w2 : R.

Definition Gxx : R :=
  atan ((v1*w1)/(u1*sqrt(u1^2+v1^2+w1^2)+eps)) -
  atan ((v1*w1)/(u2*sqrt(u2^2+v1^2+w1^2)+eps)) +
  atan ((v2*w1)/(u2*sqrt(u2^2+v2^2+w1^2)+eps)) -
  atan ((v2*w1)/(u1*sqrt(u1^2+v2^2+w1^2)+eps)) +
  atan ((v2*w2)/(u1*sqrt(u1^2+v2^2+w2^2)+eps)) -
  atan ((v1*w2)/(u1*sqrt(u1^2+v1^2+w2^2)+eps)) +
  atan ((v1*w2)/(u2*sqrt(u2^2+v1^2+w2^2)+eps)) -
  atan ((v2*w2)/(u2*sqrt(u2^2+v2^2+w2^2)+eps)).

Definition Gyx : R :=
  ln (sqrt(u1^2+v1^2+w1^2)-w1) -
  ln (sqrt(u2^2+v1^2+w1^2)-w1) +
  ln (sqrt(u2^2+v2^2+w1^2)-w1) -
  ln (sqrt(u1^2+v2^2+w1^2)-w1) +
  ln (sqrt(u1^2+v2^2+w2^2)-w2) -
  ln (sqrt(u1^2+v1^2+w2^2)-w2) +
  ln (sqrt(u2^2+v1^2+w2^2)-w2) -
  ln (sqrt(u2^2+v2^2+w2^2)-w2).

Definition Gzx : R :=
  ln (sqrt(u1^2+v1^2+w1^2)-v1) -
  ln (sqrt(u2^2+v1^2+w1^2)-v1) +
  ln (sqrt(u2^2+v2^2+w1^2)-v2) -
  ln (sqrt(u1^2+v2^2+w1^2)-v2) +
  ln (sqrt(u1^2+v2^2+w2^2)-v2) -
  ln (sqrt(u1^2+v1^2+w2^2)-v1) +
  ln (sqrt(u2^2+v1^2+w2^2)-v1) -
  ln (sqrt(u2^2+v2^2+w2^2)-v2).

Definition Gxy : R :=
  ln (sqrt(u1^2+v1^2+w1^2)-w1) -
  ln (sqrt(u2^2+v1^2+w1^2)-w1) +
  ln (sqrt(u2^2+v2^2+w1^2)-w1) -
  ln (sqrt(u1^2+v2^2+w1^2)-w1) +
  ln (sqrt(u1^2+v2^2+w2^2)-w2) -
  ln (sqrt(u1^2+v1^2+w2^2)-w2) +
  ln (sqrt(u2^2+v1^2+w2^2)-w2) -
  ln (sqrt(u2^2+v2^2+w2^2)-w2).

Definition Gyy : R :=
  atan ((u1*w1)/(v1*sqrt(u1^2+v1^2+w1^2)+eps)) -
  atan ((u2*w1)/(v1*sqrt(u2^2+v1^2+w1^2)+eps)) +
  atan ((u2*w1)/(v2*sqrt(u2^2+v2^2+w1^2)+eps)) -
  atan ((u1*w1)/(v2*sqrt(u1^2+v2^2+w1^2)+eps)) +
  atan ((u1*w2)/(v2*sqrt(u1^2+v2^2+w2^2)+eps)) -
  atan ((u1*w2)/(v1*sqrt(u1^2+v1^2+w2^2)+eps)) +
  atan ((u2*w2)/(v1*sqrt(u2^2+v1^2+w2^2)+eps)) -
  atan ((u2*w2)/(v2*sqrt(u2^2+v2^2+w2^2)+eps)).

Definition Gzy : R :=
  ln (sqrt(u1^2+v1^2+w1^2)-u1) -
  ln (sqrt(u2^2+v1^2+w1^2)-u2) +
  ln (sqrt(u2^2+v2^2+w1^2)-u2) -
  ln (sqrt(u1^2+v2^2+w1^2)-u1) +
  ln (sqrt(u1^2+v2^2+w2^2)-u1) -
  ln (sqrt(u1^2+v1^2+w2^2)-u1) +
  ln (sqrt(u2^2+v1^2+w2^2)-u2) -
  ln (sqrt(u2^2+v2^2+w2^2)-u2).

Definition Gxz : R :=
  ln (sqrt(u1^2+v1^2+w1^2)-v1) -
  ln (sqrt(u2^2+v1^2+w1^2)-v1) +
  ln (sqrt(u2^2+v2^2+w1^2)-v2) -
  ln (sqrt(u1^2+v2^2+w1^2)-v2) +
  ln (sqrt(u1^2+v2^2+w2^2)-v2) -
  ln (sqrt(u1^2+v1^2+w2^2)-v1) +
  ln (sqrt(u2^2+v1^2+w2^2)-v1) -
  ln (sqrt(u2^2+v2^2+w2^2)-v2).

Definition Gyz : R :=
  ln (sqrt(u1^2+v1^2+w1^2)-u1) -
  ln (sqrt(u2^2+v1^2+w1^2)-u2) +
  ln (sqrt(u2^2+v2^2+w1^2)-u2) -
  ln (sqrt(u1^2+v2^2+w1^2)-u1) +
  ln (sqrt(u1^2+v2^2+w2^2)-u1) -
  ln (sqrt(u1^2+v1^2+w2^2)-u1) +
  ln (sqrt(u2^2+v1^2+w2^2)-u2) -
  ln (sqrt(u2^2+v2^2+w2^2)-u2).

(** The first assignment to [Gzz] ... *)
Definition Gzz_first : R :=
  - atan ((v1*w1)/(u1*sqrt(u1^2+v1^2+w1^2)+eps)) +
  atan ((v1*w1)/(u2*sqrt(u2^2+v1^2+w1^2)+eps)) -
  atan ((v2*w1)/(u2*sqrt(u2^2+v2^2+w1^2)+eps)) +
  atan ((v2*w1)/(u1*sqrt(u1^2+v2^2+w1^2)+eps)) -
  atan ((v2*w2)/(u1*sqrt(u1^2+v2^2+w2^2)+eps)) +
  atan ((v1*w2)/(u1*sqrt(u1^2+v1^2+w2^2)+eps)) -
  atan ((v1*w2)/(u2*sqrt(u2^2+v1^2+w2^2)+eps)) +
  atan ((v2*w2)/(u2*sqrt(u2^2+v2^2+w2^2)+eps)).

(** ... and the second, which extends it. *)
Definition Gzz : R :=
  Gzz_first -
  atan ((u1*w1)/(v1*sqrt(u1^2+v1^2+w1^2)+eps)) +
  atan ((u2*w1)/(v1*sqrt(u2^2+v1^2+w1^2)+eps)) -
  atan ((u2*w1)/(v2*sqrt(u2^2+v2^2+w1^2)+eps)) +
  atan ((u1*w1)/(v2*sqrt(u1^2+v2^2+w1^2)+eps)) -
  atan ((u1*w2)/(v2*sqrt(u1^2+v2^2+w2^2)+eps)) +
  atan ((u1*w2)/(v1*sqrt(u1^2+v1^2+w2^2)+eps)) -
  atan ((u2*w2)/(v1*sqrt(u2^2+v1^2+w2^2)+eps)) +
  atan ((u2*w2)/(v2*sqrt(u2^2+v2^2+w2^2)+eps)).
End PrismKernel.

(** [u[np.abs(u) < 1e-10] = val] *)
Definition set_where_small (val : R) (u : vec) : vec :=
  map (fun x => if Rlt_dec (Rabs x) 1e-10 then val else x) u.

(** The six arrays of corner differences of one receiver location. *)
Record corner_diffs : Type := {
  cd_u1 : vec; cd_u2 : vec; cd_v1 : vec; cd_v2 : vec; cd_w1 : vec; cd_w2 : vec
}.

(** An entry-wise kernel over the six arrays. *)
Fixpoint map6 (f : R -> R -> R -> R -> R -> R -> R) (a b c d e g : vec) : vec :=
  match a, b, c, d, e, g with
  | x1 :: a', x2 :: b', x3 :: c', x4 :: d', x5 :: e', x6 :: g' =>
      f x1 x2 x3 x4 x5 x6 :: map6 f a' b' c' d' e' g'
  | _, _, _, _, _, _ => []
  end.

Definition over_cells (f : R -> R -> R -> R -> R -> R -> R) (d : corner_diffs) : vec :=
  map6 f (cd_u1 d) (cd_u2 d) (cd_v1 d) (cd_v2 d) (cd_w1 d) (cd_w2 d).

(** The lower and upper faces of the prisms along one axis:
    [xyzc[:, k] - xyzh[:, k]/2] and [xyzc[:, k] + xyzh[:, k]/2]. *)
Definition lower_face (k : nat) (xyzc xyzh : matrix) : vec :=
  zip_with (fun c w => c - w / 2) (col k xyzc) (col k xyzh).
Definition upper_face (k : nat) (xyzc xyzh : matrix) : vec :=
  zip_with (fun c w => c + w / 2) (col k xyzc) (col k xyzh).

(** Lines 163-174 (and their copies for the y and z components): the
    corner differences of the location [loc], nudged off zero. *)
Definition nudged_diffs (xyzc xyzh : matrix) (loc : vec) : result corner_diffs :=
  let ax := lower_face 0 xyzc xyzh in
  let bx := upper_face 0 xyzc xyzh in
  let ay := lower_face 1 xyzc xyzh in
  let by_ := upper_face 1 xyzc xyzh in
  let az := lower_face 2 xyzc xyzh in
  let bz := upper_face 2 xyzc xyzh in
  m <- np_min (col 0 xyzh) ;;
  let u1 := set_where_small (m / 1000) (map (fun a => nth 0 loc 0 - a) ax) in
  m <- np_min (col 0 xyzh) ;;
  let u2 := set_where_small (- m / 1000) (map (fun b => nth 0 loc 0 - b) bx) in
  m <- np_min (col 1 xyzh) ;;
  let v1 := set_where_small (m / 1000) (map (fun a => nth 1 loc 0 - a) ay) in
  m <- np_min (col 1 xyzh) ;;
  let v2 := set_where_small (- m / 1000) (map (fun b => nth 1 loc 0 - b) by_) in
  m <- np_min (col 2 xyzh) ;;
  let w1 := set_where_small (m / 1000) (map (fun a => nth 2 loc 0 - a) az) in
  m <- np_min (col 2 xyzh) ;;
  let w2 := set_where_small (- m / 1000) (map (fun b => nth 2 loc 0 - b) bz) in
  Ok {| cd_u1 := u1; cd_u2 := u2; cd_v1 := v1; cd_v2 := v2; cd_w1 := w1; cd_w2 := w2 |}.

(** [C*np.c_[G1, G2, G3]] *)
Definition scaled_row (g1 g2 g3 : vec) : vec := map (Rmult C) (g1 ++ g2 ++ g3).

(** The row of [G] of one receiver location, by field component; a
    component other than x, y and z has no branch. *)
Definition kernel_row (dComp : string) (xyzc xyzh : matrix) (loc : vec)
  : option (result vec) :=
  if String.eqb dComp "x" then
    Some (d <- nudged_diffs xyzc xyzh loc ;;
          Ok (scaled_row (over_cells Gxx d) (over_cells Gyx d) (over_cells Gzx d)))
  else if String.eqb dComp "y" then
    Some (d <- nudged_diffs xyzc xyzh loc ;;
          Ok (scaled_row (over_cells Gxy d) (over_cells Gyy d) (over_cells Gzy d)))
  else if String.eqb dComp "z" then
    Some (d <- nudged_diffs xyzc xyzh loc ;;
          Ok (scaled_row (over_cells Gxz d) (over_cells Gyz d) (over_cells Gzz d)))
  else None.

(** [G[COUNT, :] = row] *)
Definition set_row (G : list vec) (COUNT : nat) (row : vec) : result (list vec) :=
  if Nat.ltb COUNT (length G)
  then Ok (update G COUNT row)
  else Raise (IndexError "index is out of bounds for axis 0").

(** The loop over the locations of one receiver; the state is [(G, COUNT)]. *)
Fixpoint rr_loop (dComp : string) (xyzc xyzh : matrix) (ls : list vec)
  (st : list vec * nat) : result (list vec * nat) :=
  match ls with
  | [] => Ok st
  | loc :: ls' =>
      match kernel_row dComp xyzc xyzh loc with
      | None => Ok st
      | Some r =>
          row <- r ;;
          G <- set_row (fst st) (snd st) row ;;
          rr_loop dComp xyzc xyzh ls' (G, S (snd st))
      end
  end.

(** The loop over the receivers of the source. *)
Fixpoint qq_loop (xyzc xyzh : matrix) (rxs : list Rx) (st : list vec * nat)
  : result (list vec * nat) :=
  match rxs with
  | [] => Ok st
  | rxObj :: rxs' =>
      st' <- rr_loop (fieldComp rxObj) xyzc xyzh (rows (locs rxObj)) st ;;
      qq_loop xyzc xyzh rxs' st'
  end.

Definition _getGeometryMatrix (srcObj : Src) (xyzc xyzh : matrix) : result matrix :=
  let N := nrow xyzc in
  let K := nRx srcObj in
  st <- qq_loop xyzc xyzh (rxList srcObj) (rows (np_zeros K (3 * N)), O) ;;
  Ok (Mat K (3 * N) (fst st)).

(** [_getH0matrix]: the three diagonal blocks of the inducing field. *)
Definition _getH0matrix (SrcObj : Src) (xyz : matrix) : result matrix :=
  let H0 := getH0 SrcObj xyz in
  let Hx0 := diags (col 0 H0) in
  let Hy0 := diags (col 1 H0) in
  let Hz0 := diags (col 2 H0) in
  vstack [Hx0; Hy0; Hz0].

(* ================================================================= *)
(** ** The state of a problem instance *)

(** The attributes of an instance; [AT] is the type of the cached geometry
    operator (one matrix for [LinearVRM], the list of the blocks for
    [LogUniformVRM]).  [stdout] is what the instance has printed. *)
Record ProblemVRM (AT : Type) : Type := mkProblem {
  mesh : Mesh;
  _refFact : Z;
  _refRadius : radii;
  _indActive : list pyval;
  _AisSet : bool;
  _A : option AT;
  _T : option matrix;
  _TisSet : bool;
  _xiMap : ParamMap;
  _survey : option SurveyVRM;
  stdout : list string
}.
Arguments mkProblem {AT}.
Arguments mesh {AT}.
Arguments _refFact {AT}.
Arguments _refRadius {AT}.
Arguments _indActive {AT}.
Arguments _AisSet {AT}.
Arguments _A {AT}.
Arguments _T {AT}.
Arguments _TisSet {AT}.
Arguments _xiMap {AT}.
Arguments _survey {AT}.
Arguments stdout {AT}.

Section Attributes.
Context {AT : Type}.
Implicit Type self : ProblemVRM AT.

Definition upd_refFact self (x : Z) : ProblemVRM AT :=
  mkProblem (mesh self) x (_refRadius self) (_indActive self) (_AisSet self)
    (_A self) (_T self) (_TisSet self) (_xiMap self) (_survey self) (stdout self).
Definition upd_refRadius self (x : radii) : ProblemVRM AT :=
  mkProblem (mesh self) (_refFact self) x (_indActive self) (_AisSet self)
    (_A self) (_T self) (_TisSet self) (_xiMap self) (_survey self) (stdout self).
Definition upd_indActive self (x : list pyval) : ProblemVRM AT :=
  mkProblem (mesh self) (_refFact self) (_refRadius self) x (_AisSet self)
    (_A self) (_T self) (_TisSet self) (_xiMap self) (_survey self) (stdout self).
Definition upd_AisSet self (x : bool) : ProblemVRM AT :=
  mkProblem (mesh self) (_refFact self) (_refRadius self) (_indActive self) x
    (_A self) (_T self) (_TisSet self) (_xiMap self) (_survey self) (stdout self).
Definition upd_A self (x : option AT) : ProblemVRM AT :=
  mkProblem (mesh self) (_refFact self) (_refRadius self) (_indActive self) (_AisSet self)
    x (_T self) (_TisSet self) (_xiMap self) (_survey self) (stdout self).
Definition upd_T self (x : option matrix) : ProblemVRM AT :=
  mkProblem (mesh self) (_refFact self) (_refRadius self) (_indActive self) (_AisSet self)
    (_A self) x (_TisSet self) (_xiMap self) (_survey self) (stdout self).
Definition upd_TisSet self (x : bool) : ProblemVRM AT :=
  mkProblem (mesh self) (_refFact self) (_refRadius self) (_indActive self) (_AisSet self)
    (_A self) (_T self) x (_xiMap self) (_survey self) (stdout self).
Definition upd_xiMap self (x : ParamMap) : ProblemVRM AT :=
  mkProblem (mesh self) (_refFact self) (_refRadius self) (_indActive self) (_AisSet self)
    (_A self) (_T self) (_TisSet self) x (_survey self) (stdout self).
Definition upd_survey self (x : option SurveyVRM) : ProblemVRM AT :=
  mkProblem (mesh self) (_refFact self) (_refRadius self) (_indActive self) (_AisSet self)
    (_A self) (_T self) (_TisSet self) (_xiMap self) x (stdout self).

(** [print(msg)] *)
Definition print (msg : string) self : ProblemVRM AT :=
  mkProblem (mesh self) (_refFact self) (_refRadius self) (_indActive self) (_AisSet self)
    (_A self) (_T self) (_TisSet self) (_xiMap self) (_survey self) (stdout self ++ [msg]).

(** Modelled from the spec: [Problem.BaseProblem], the base class of
    [BaseProblemVRM], is not under the sources.  [ispaired] tells whether a
    survey is bound (operations require an established pairing to a
    survey), and [pair] binds one. *)
Definition ispaired self : bool :=
  match _survey self with Some _ => true | None => false end.

Definition pair (d : SurveyVRM) self : ProblemVRM AT := upd_survey self (Some d).
End Attributes.

Definition msg_refFact_large : string :=
  "Refinement factor larger than 4 may result in computations which exceed memory limits".
Definition msg_refFact_mismatch : string :=
  "Refinement factor no longer matches length of refinement radii array. Please ensure refinement factor is equal or less to number of elements in refinement radii".
Definition msg_refRadius_mismatch : string :=
  "Refinement factor no longer matches length of refinement radii array. Please ensure that the number of elements in refinement radii is equal or greater than the refinement factor".

(* ================================================================= *)
(** ** [BaseProblemVRM]: the configuration accessors *)

Section BaseProblemVRM.
Context {AT : Type}.
Implicit Type self : ProblemVRM AT.

(** [refFact.setter] *)
Definition refFact_setter (Val : pyval) self : result unit * ProblemVRM AT :=
  if negb (isinstance_int Val && (-1 <? int_value Val)%Z)
  then (Raise (AssertionError "Refinement factor must be an integer value equal or larger than 0"), self)
  else
    match py_len (_refRadius self) with
    | Raise e => (Raise e, self)
    | Ok n =>
        let self :=
          if negb (int_value Val =? Z.of_nat n)%Z
          then print msg_refFact_mismatch self
          else self in
        let self := if (4 <? int_value Val)%Z then print msg_refFact_large self else self in
        (Ok tt, upd_refFact self (int_value Val))
    end.

(** [refRadius.setter] *)
Definition refRadius_setter (Array : radii) self : result unit * ProblemVRM AT :=
  if negb (is_ndarray Array)
  then (Raise (AssertionError "Array must be a numpy array"), self)
  else
    match py_len Array with
    | Raise e => (Raise e, self)
    | Ok n =>
        let self :=
          if negb (_refFact self =? Z.of_nat n)%Z
          then print msg_refRadius_mismatch self
          else self in
        (Ok tt, upd_refRadius self Array)
    end.

(** The check of the active mask used by the constructor and by the
    [indActive] setter. *)
Definition boolean_array (l : list pyval) : bool :=
  Nat.eqb (count_True l + count_False l) (length l).

(** [indActive.setter]: the assertion reads the stored mask. *)
Definition indActive_setter (Vec : list pyval) self : result unit * ProblemVRM AT :=
  if negb (boolean_array (_indActive self))
  then (Raise (AssertionError "indActive must be a boolean array"), self)
  else (Ok tt, upd_indActive (upd_AisSet self false) Vec).
End BaseProblemVRM.

(* ================================================================= *)
(** ** Refinement of the sensitivity columns *)

(** [np.linspace(1, n, n) - 0.5] *)
Definition offsets_1d (n : nat) : vec := map (fun i => 1 + INR i - 0.5) (seq 0 n).

(** [np.c_[mkvc(nx), mkvc(ny), mkvc(nz)]] of
    [np.meshgrid(o, o, o)] for [o = offsets_1d n]: in the column-major order
    of [mkvc] the y index runs fastest, then the x index, then the z index. *)
Definition nxyz_sub (n : nat) : matrix :=
  let o := offsets_1d n in
  Mat (n * n * n) 3
      (flat_map (fun z => flat_map (fun x => map (fun y => [x; y; z]) o) o) o).

(** [refFlag == qq] *)
Definition flag_mask (refFlag : list Z) (qq : nat) : list bool :=
  map (fun f => Z.eqb f (Z.of_nat qq)) refFlag.

(** The centres and widths of the sub-cells of the cells flagged [qq]. *)
Definition submesh (xyzc xyzh : matrix) (qq : nat) (refFlag : list Z)
  : result (matrix * matrix) :=
  let n := Nat.pow 2 qq in
  let nxyz := nxyz_sub n in
  xyzh_sub <- mask_rows (flag_mask refFlag qq) xyzh ;;
  c <- mask_rows (flag_mask refFlag qq) xyzc ;;
  w <- mask_rows (flag_mask refFlag qq) xyzh ;;
  let xyzc_sub := mat_zip Rminus c (mat_map (fun x => x / 2) w) in
  let m := nrow xyzc_sub in
  let xyzc_sub := kron xyzc_sub (np_ones (n ^ 3) 1) in
  let xyzh_sub := kron (mat_map (fun x => x / INR n) xyzh_sub) (np_ones (n ^ 3) 1) in
  let nxyz := kron (np_ones m 1) nxyz in
  let xyzc_sub := mat_zip Rplus xyzc_sub (mat_zip Rmult xyzh_sub nxyz) in
  Ok (xyzc_sub, xyzh_sub).

(** [sp.kron(sp.diags(np.ones(m)), np.ones((n**3, 1)))] *)
Definition collapse (m n : nat) : matrix :=
  kron (diags (repeat 1 m)) (np_ones (n ^ 3) 1).

Definition _getSubsetAcolumns (srcObj : Src) (xyzc xyzh : matrix) (qq : nat)
  (refFlag : list Z) : result matrix :=
  let n := Nat.pow 2 qq in
  sub <- submesh xyzc xyzh qq refFlag ;;
  let xyzc_sub := fst sub in
  let xyzh_sub := snd sub in
  let m := count_true (flag_mask refFlag qq) in
  G <- _getGeometryMatrix srcObj xyzc_sub xyzh_sub ;;
  H0 <- _getH0matrix srcObj xyzc_sub ;;
  GH0 <- matmul G H0 ;;
  matmul GH0 (collapse m n).

(** The loop [for qq in range(1, refFact+1)] over the block of one source. *)
Fixpoint refine_loop (srcObj : Src) (xyzc xyzh : matrix) (refFlag : list Z)
  (qqs : list nat) (Ap : matrix) : result matrix :=
  match qqs with
  | [] => Ok Ap
  | qq :: qqs' =>
      Acols <- _getSubsetAcolumns srcObj xyzc xyzh qq refFlag ;;
      Ap' <- set_columns (flag_mask refFlag qq) Ap Acols ;;
      refine_loop srcObj xyzc xyzh refFlag qqs' Ap'
  end.

(** The body of the loop over the sources: the block [A[pp]]. *)
Definition A_block (refFact : Z) (refRadius : radii) (xyzc xyzh : matrix)
  (srcObj : Src) : result matrix :=
  G <- _getGeometryMatrix srcObj xyzc xyzh ;;
  H0 <- _getH0matrix srcObj xyzc ;;
  Ap <- matmul G H0 ;;
  if (0 <? refFact)%Z
  then
    let refFlag := _getRefineFlags srcObj xyzc refFact refRadius in
    refine_loop srcObj xyzc xyzh refFlag (seq 1 (Z.to_nat refFact)) Ap
  else Ok Ap.

Fixpoint pp_loop (refFact : Z) (refRadius : radii) (xyzc xyzh : matrix)
  (srcs : list Src) : result (list matrix) :=
  match srcs with
  | [] => Ok []
  | srcObj :: srcs' =>
      Ap <- A_block refFact refRadius xyzc xyzh srcObj ;;
      rest <- pp_loop refFact refRadius xyzc xyzh srcs' ;;
      Ok (Ap :: rest)
  end.

(** [_getAMatricies], for the survey the problem is paired with. *)
Definition _getAMatricies {AT : Type} (self : ProblemVRM AT) (survey : SurveyVRM)
  : result (list matrix) :=
  let indActive := _indActive self in
  let meshObj := mesh self in
  xyzc <- index_rows indActive (gridCC meshObj) ;;
  xyzh <- index_rows indActive (gridH meshObj) ;;
  pp_loop (_refFact self) (_refRadius self) xyzc xyzh (srcList survey).

(* ================================================================= *)
(** ** [BaseProblemVRM.__init__] *)

Record kwargs : Type := {
  kw_refFact : option pyval;
  kw_refRadius : option radii;
  kw_indActive : option (list pyval);
  kw_xiMap : option ParamMap
}.

(** [kwargs.get(key, default)] *)
Definition kwargs_get {A : Type} (o : option A) (default : A) : A :=
  match o with Some x => x | None => default end.

(** [np.arange(1, refFact+1)] *)
Definition arange_1 (refFact : pyval) : result vec :=
  match refFact with
  | VBool _ | VInt _ => Ok (map INR (seq 1 (Z.to_nat (int_value refFact))))
  | VFloat q => Ok (map INR (seq 1 (Z.to_nat (Qceiling q))))
  | VNone | VStr _ => Raise (TypeError "unsupported operand type(s) for +")
  end.

(** [mesh.h[i]] *)
Definition mesh_h_item (mesh : Mesh) (i : nat) : result vec :=
  match nth_error (mesh_h mesh) i with
  | Some w => Ok w
  | None => Raise (IndexError "list index out of range")
  end.

(** The default of [refRadius], which [kwargs.get] evaluates whether or not
    the keyword is given. *)
Definition default_refRadius (mesh : Mesh) (refFact : pyval) : result radii :=
  h0 <- mesh_h_item mesh 0 ;;
  m0 <- np_min h0 ;;
  h1 <- mesh_h_item mesh 1 ;;
  m1 <- np_min h1 ;;
  h2 <- mesh_h_item mesh 2 ;;
  m2 <- np_min h2 ;;
  ar <- arange_1 refFact ;;
  Ok (NdArray (map (fun k => 1.25 * ((m0 + m1 + m2) / 3) * k) ar)).

Definition assert (b : bool) (msg : string) : result unit :=
  if b then Ok tt else Raise (AssertionError msg).

(** What the constructor of [BaseProblemVRM] leaves in the instance. *)
Record BaseAttrs : Type := {
  b_refFact : pyval;
  b_refRadius : radii;
  b_indActive : list pyval;
  b_stdout : list string
}.

(** [BaseProblemVRM.__init__(mesh, **kwargs)].  [super_init] is the
    constructor of the base class [Problem.BaseProblem], which is called
    last and is not under the sources. *)
Definition BaseProblemVRM_init (super_init : Mesh -> kwargs -> result unit)
  (mesh : Mesh) (kw : kwargs) : result BaseAttrs :=
  let refFact := kwargs_get (kw_refFact kw) (VInt 3) in
  default <- default_refRadius mesh refFact ;;
  let refRadius := kwargs_get (kw_refRadius kw) default in
  let indActive := kwargs_get (kw_indActive kw) (repeat (VBool true) (mesh_nC mesh)) in
  _ <- assert (Nat.eqb (length (mesh_h mesh)) 3)
         "Problem requires 3D tensor or OcTree mesh" ;;
  _ <- assert (isinstance_int refFact)
         "Refinement factor must be set as an integer" ;;
  n <- py_len refRadius ;;
  _ <- assert (int_value refFact <=? Z.of_nat n)%Z
         "Number of refinement radii must equal or greater than refinement factor" ;;
  _ <- assert (boolean_array indActive)
         "indActive must be a boolean array" ;;
  let out := if (4 <? int_value refFact)%Z then [msg_refFact_large] else [] in
  _ <- super_init mesh kw ;;
  Ok {| b_refFact := refFact; b_refRadius := refRadius;
        b_indActive := indActive; b_stdout := out |}.

(** Modelled from the spec: [Maps.IdentityMap], the default parameter map, is
    not under the sources.  It sends a model to itself (so zero to zero), and
    its projection is the identity matrix. *)
Definition IdentityMap (nP : nat) : ParamMap :=
  {| map_mul := fun m => m; map_P := diags (repeat 1 nP) |}.

(** The instance after [BaseProblemVRM.__init__] and the assignment of
    [_xiMap] in the constructors of the two problem classes. *)
Definition new_problem {AT : Type} (super_init : Mesh -> kwargs -> result unit)
  (mesh : Mesh) (kw : kwargs) : result (ProblemVRM AT) :=
  b <- BaseProblemVRM_init super_init mesh kw ;;
  let nAct := count_True (b_indActive b) in
  let xiMap := kwargs_get (kw_xiMap kw) (IdentityMap nAct) in
  Ok (mkProblem mesh (int_value (b_refFact b)) (b_refRadius b) (b_indActive b)
        false None None false xiMap None (b_stdout b)).

(* ================================================================= *)
(** ** Methods: a state and exception monad over the instance *)

Definition method (St A : Type) : Type := St -> result A * St.

Definition ret {St A : Type} (a : A) : method St A := fun self => (Ok a, self).

Definition lift {St A : Type} (r : result A) : method St A := fun self => (r, self).

Definition bindM {St A B : Type} (c : method St A) (k : A -> method St B)
  : method St B :=
  fun self =>
    match c self with
    | (Ok a, self') => k a self'
    | (Raise e, self') => (Raise e, self')
    end.

Definition modify {St : Type} (f : St -> St) : method St unit :=
  fun self => (Ok tt, f self).

Notation "x <~ c1 ;; c2" := (bindM c1 (fun x => c2))
  (at level 61, c1 at next level, right associativity).

Definition msg_not_paired_A : string :=
  "Problem must be paired with survey to generate A matrix".
Definition msg_not_paired_T : string :=
  "Problem must be paired with survey to generate T matrix".
Definition msg_not_paired_data : string :=
  "Problem must be paired with survey to predict data".

(** A property that finds its flag set hands over the stored attribute; with
    nothing stored that is [None], on which the caller's next operation
    raises. *)
Definition stored {St A : Type} (o : option A) : method St A :=
  match o with
  | Some a => ret a
  | None => lift (Raise (TypeError "NoneType"))
  end.

(** [assert self.ispaired, msg], handing over the survey. *)
Definition assert_paired {AT : Type} (msg : string) : method (ProblemVRM AT) SurveyVRM :=
  fun self =>
    match _survey self with
    | Some survey => (Ok survey, self)
    | None => (Raise (AssertionError msg), self)
    end.

(** [if self._A is not None: self._A = None] *)
Definition drop_A {AT : Type} (self : ProblemVRM AT) : ProblemVRM AT :=
  match _A self with Some _ => upd_A self None | None => self end.

Definition drop_T {AT : Type} (self : ProblemVRM AT) : ProblemVRM AT :=
  match _T self with Some _ => upd_T self None | None => self end.

(* ================================================================= *)
(** ** [LinearVRM] *)

Module LinearVRM.

Definition t : Type := ProblemVRM matrix.

Definition __init__ := @new_problem matrix.

(** [xiMap.setter] *)
Definition xiMap_setter (mappingObj : ParamMap) : method t unit :=
  modify (fun self => upd_xiMap (upd_AisSet self false) mappingObj).

(** The property [A]. *)
Definition A : method t matrix :=
  fun self =>
    if negb (_AisSet self) then
      (survey <~ assert_paired msg_not_paired_A ;;
       _ <~ modify drop_A ;;
       _ <~ modify (print "CREATING A MATRIX") ;;
       a <~ (fun self => (blocks <- _getAMatricies self survey ;; vstack blocks, self)) ;;
       _ <~ modify (fun self => upd_AisSet (upd_A self (Some a)) true) ;;
       ret a) self
    else stored (_A self) self.

(** The blocks [sp.kron(I, eta)] of the receivers of all sources. *)
Definition T_blocks (srcList : list Src) : list matrix :=
  flat_map
    (fun src =>
       map (fun rx =>
              let nLoc := nrow (locs rx) in
              let I := diags (repeat 1 nLoc) in
              let eta := getCharDecay (waveform src) (fieldType rx) (times rx) in
              kron I (column eta))
           (rxList src))
    srcList.

(** The property [T]. *)
Definition T : method t matrix :=
  fun self =>
    if negb (_TisSet self) then
      (survey <~ assert_paired msg_not_paired_T ;;
       _ <~ modify drop_T ;;
       _ <~ modify (print "CREATING T MATRIX") ;;
       Tm <~ lift (block_diag (T_blocks (srcList survey))) ;;
       _ <~ modify (fun self => upd_TisSet (upd_T self (Some Tm)) true) ;;
       ret Tm) self
    else stored (_T self) self.

Definition fields (m : vec) : method t matrix :=
  _ <~ assert_paired msg_not_paired_data ;;
  xiMap <~ (fun self => (Ok (_xiMap self), self)) ;;
  let m := column (map_mul xiMap m) in
  Tm <~ T ;;
  Am <~ A ;;
  Am_m <~ lift (matmul Am m) ;;
  lift (matmul Tm Am_m).

Definition Jvec (m v : vec) : method t matrix :=
  survey <~ assert_paired msg_not_paired_data ;;
  let v := column v in
  xiMap <~ (fun self => (Ok (_xiMap self), self)) ;;
  v <~ lift (matmul (map_P xiMap) v) ;;
  Am <~ A ;;
  v <~ lift (matmul Am v) ;;
  Tm <~ T ;;
  Tm <~ lift (mask_rows (tActive survey) Tm) ;;
  lift (matmul Tm v).

Definition Jtvec (m v : vec) : method t matrix :=
  survey <~ assert_paired msg_not_paired_data ;;
  let v := row_matrix v in
  Tm <~ T ;;
  Tm <~ lift (mask_rows (tActive survey) Tm) ;;
  v <~ lift (matmul (transpose Tm) (transpose v)) ;;
  Am <~ A ;;
  v <~ lift (matmul (transpose v) Am) ;;
  let v := transpose v in
  xiMap <~ (fun self => (Ok (_xiMap self), self)) ;;
  lift (matmul (transpose (map_P xiMap)) v).

(** [unpair]: the survey that is let go (whose [_prob] is cleared too)
    leaves the state of the problem. *)
Definition unpair (self : t) : t :=
  if negb (ispaired self) then self
  else
    let self := upd_survey self None in
    let self := upd_A self None in
    let self := upd_T self None in
    let self := upd_AisSet self false in
    upd_TisSet self false.

End LinearVRM.

(* ================================================================= *)
(** ** [LogUniformVRM] *)

Module LogUniformVRM.

Definition t : Type := ProblemVRM (list matrix).

Definition __init__ := @new_problem (list matrix).

Definition xiMap_setter (mappingObj : ParamMap) : method t unit :=
  modify (fun self => upd_xiMap (upd_AisSet self false) mappingObj).

(** The property [A]: the list of the blocks, one per source. *)
Definition A : method t (list matrix) :=
  fun self =>
    if negb (_AisSet self) then
      (survey <~ assert_paired msg_not_paired_A ;;
       _ <~ modify drop_A ;;
       _ <~ modify (print "CREATING A MATRIX") ;;
       a <~ (fun self => (_getAMatricies self survey, self)) ;;
       _ <~ modify (fun self => upd_AisSet (upd_A self (Some a)) true) ;;
       ret a) self
    else stored (_A self) self.

(** [l[i]] of a Python list. *)
Definition getitem {X : Type} (l : list X) (i : nat) : result X :=
  match nth_error l i with
  | Some x => Ok x
  | None => Raise (IndexError "list index out of range")
  end.

(** The loop [for qq in range(0, nRx)] of [fields]: [qq] is the index of
    the first receiver of [rxs], [f] the predictions so far. *)
Fixpoint fields_qq_loop (waveObj : Waveform) (chi0 dchi tau1 tau2 : vec)
  (rxs : list Rx) (qq : nat) (f : list vec) : method t (list vec) :=
  match rxs with
  | [] => ret f
  | rx :: rxs' =>
      let eta := getLogUniformDecay waveObj (fieldType rx) (times rx)
                   chi0 dchi tau1 tau2 in
      As <~ A ;;
      Aqq <~ lift (getitem As qq) ;;
      d <~ lift (matmul Aqq eta) ;;
      fields_qq_loop waveObj chi0 dchi tau1 tau2 rxs' (S qq)
        (f ++ [mkvc (transpose d)])
  end.

(** The loop [for pp in range(0, nSrc)] of [fields]. *)
Fixpoint fields_pp_loop (chi0 dchi tau1 tau2 : vec) (srcs : list Src)
  (f : list vec) : method t (list vec) :=
  match srcs with
  | [] => ret f
  | src :: srcs' =>
      f' <~ fields_qq_loop (waveform src) chi0 dchi tau1 tau2 (rxList src) O f ;;
      fields_pp_loop chi0 dchi tau1 tau2 srcs' f'
  end.

(** [np.hstack(f)] of 1-D arrays. *)
Definition hstack (f : list vec) : result vec :=
  match f with
  | [] => Raise (ValueError "need at least one array to concatenate")
  | _ => Ok (concat f)
  end.

Definition fields (m_chi0 m_dchi m_tau1 m_tau2 : vec) : method t vec :=
  survey <~ assert_paired msg_not_paired_data ;;
  xiMap <~ (fun self => (Ok (_xiMap self), self)) ;;
  let chi0 := map_mul xiMap m_chi0 in
  let dchi := map_mul xiMap m_dchi in
  let tau1 := map_mul xiMap m_tau1 in
  let tau2 := map_mul xiMap m_tau2 in
  f <~ fields_pp_loop chi0 dchi tau1 tau2 (srcList survey) [] ;;
  lift (hstack f).

End LogUniformVRM.

(* ================================================================= *)
(** ** The constructor of the base class and the construction of a problem *)





(* ================================================================= *)
(** ** The prism kernel in binary64 *)

(** numpy computes the kernel on [float64] arrays: every operation is the
    IEEE 754 binary64 operation, which rounds.  The expressions of
    [_getGeometryMatrix] follow once more over [float], for one cell and
    one receiver location, in the evaluation order of Python (a chain of
    sums and differences is taken from the left).  [np.arctan] and [np.log]
    are parameters: they are functions of the C library. *)
Module Binary64.
Local Open Scope float_scope.

Definition np_pi : float := 3.141592653589793.
Definition eps : float := 1e-10.
Definition C : float := - (1 / (4 * np_pi)).

Section PrismKernel.
Variables np_arctan np_log : float -> float.
Variables u1 u2 v1 v2 w1 w2 : float.

(** [np.sqrt(u**2+v**2+w**2)]; numpy takes a square by one multiplication. *)
Definition norm3 (u v w : float) : float := PrimFloat.sqrt (u*u + v*v + w*w).

Definition Gxx : float :=
  np_arctan ((v1*w1)/(u1*norm3 u1 v1 w1+eps)) -
  np_arctan ((v1*w1)/(u2*norm3 u2 v1 w1+eps)) +
  np_arctan ((v2*w1)/(u2*norm3 u2 v2 w1+eps)) -
  np_arctan ((v2*w1)/(u1*norm3 u1 v2 w1+eps)) +
  np_arctan ((v2*w2)/(u1*norm3 u1 v2 w2+eps)) -
  np_arctan ((v1*w2)/(u1*norm3 u1 v1 w2+eps)) +
  np_arctan ((v1*w2)/(u2*norm3 u2 v1 w2+eps)) -
  np_arctan ((v2*w2)/(u2*norm3 u2 v2 w2+eps)).

Definition Gyx : float :=
  np_log (norm3 u1 v1 w1-w1) -
  np_log (norm3 u2 v1 w1-w1) +
  np_log (norm3 u2 v2 w1-w1) -
  np_log (norm3 u1 v2 w1-w1) +
  np_log (norm3 u1 v2 w2-w2) -
  np_log (norm3 u1 v1 w2-w2) +
  np_log (norm3 u2 v1 w2-w2) -
  np_log (norm3 u2 v2 w2-w2).

Definition Gzx : float :=
  np_log (norm3 u1 v1 w1-v1) -
  np_log (norm3 u2 v1 w1-v1) +
  np_log (norm3 u2 v2 w1-v2) -
  np_log (norm3 u1 v2 w1-v2) +
  np_log (norm3 u1 v2 w2-v2) -
  np_log (norm3 u1 v1 w2-v1) +
  np_log (norm3 u2 v1 w2-v1) -
  np_log (norm3 u2 v2 w2-v2).

Definition Gyy : float :=
  np_arctan ((u1*w1)/(v1*norm3 u1 v1 w1+eps)) -
  np_arctan ((u2*w1)/(v1*norm3 u2 v1 w1+eps)) +
  np_arctan ((u2*w1)/(v2*norm3 u2 v2 w1+eps)) -
  np_arctan ((u1*w1)/(v2*norm3 u1 v2 w1+eps)) +
  np_arctan ((u1*w2)/(v2*norm3 u1 v2 w2+eps)) -
  np_arctan ((u1*w2)/(v1*norm3 u1 v1 w2+eps)) +
  np_arctan ((u2*w2)/(v1*norm3 u2 v1 w2+eps)) -
  np_arctan ((u2*w2)/(v2*norm3 u2 v2 w2+eps)).

(** The first assignment to [Gzz] ... *)
Definition Gzz_first : float :=
  - np_arctan ((v1*w1)/(u1*norm3 u1 v1 w1+eps)) +
  np_arctan ((v1*w1)/(u2*norm3 u2 v1 w1+eps)) -
  np_arctan ((v2*w1)/(u2*norm3 u2 v2 w1+eps)) +
  np_arctan ((v2*w1)/(u1*norm3 u1 v2 w1+eps)) -
  np_arctan ((v2*w2)/(u1*norm3 u1 v2 w2+eps)) +
  np_arctan ((v1*w2)/(u1*norm3 u1 v1 w2+eps)) -
  np_arctan ((v1*w2)/(u2*norm3 u2 v1 w2+eps)) +
  np_arctan ((v2*w2)/(u2*norm3 u2 v2 w2+eps)).

(** ... and the second, which extends it. *)
Definition Gzz : float :=
  Gzz_first -
  np_arctan ((u1*w1)/(v1*norm3 u1 v1 w1+eps)) +
  np_arctan ((u2*w1)/(v1*norm3 u2 v1 w1+eps)) -
  np_arctan ((u2*w1)/(v2*norm3 u2 v2 w1+eps)) +
  np_arctan ((u1*w1)/(v2*norm3 u1 v2 w1+eps)) -
  np_arctan ((u1*w2)/(v2*norm3 u1 v2 w2+eps)) +
  np_arctan ((u1*w2)/(v1*norm3 u1 v1 w2+eps)) -
  np_arctan ((u2*w2)/(v1*norm3 u2 v1 w2+eps)) +
  np_arctan ((u2*w2)/(v2*norm3 u2 v2 w2+eps)).
End PrismKernel.

(** [u[np.abs(u) < 1e-10] = val], for one entry *)
Definition set_where_small (val u : float) : float :=
  if abs u <? 1e-10 then val else u.

(** The six corner differences of one cell. *)
Record corner_diffs : Set := {
  cd_u1 : float; cd_u2 : float; cd_v1 : float; cd_v2 : float;
  cd_w1 : float; cd_w2 : float
}.

Definition over_cell {A : Type}
  (f : float -> float -> float -> float -> float -> float -> A)
  (d : corner_diffs) : A :=
  f (cd_u1 d) (cd_u2 d) (cd_v1 d) (cd_v2 d) (cd_w1 d) (cd_w2 d).

(** The centre and the widths of a cell: its row of [xyzc] and of [xyzh]. *)
Record cell : Set := {
  xc : float; yc : float; zc : float; xh : float; yh : float; zh : float
}.

(** Lines 163-174 for a mesh of one cell [c] and the receiver location
    [(x, y, z)]; the minimum of a column of [xyzh] is the width of the
    cell. *)
Definition nudged_diffs (c : cell) (x y z : float) : corner_diffs :=
  let ax := xc c - xh c / 2 in
  let bx := xc c + xh c / 2 in
  let ay := yc c - yh c / 2 in
  let by_ := yc c + yh c / 2 in
  let az := zc c - zh c / 2 in
  let bz := zc c + zh c / 2 in
  {| cd_u1 := set_where_small (xh c / 1000) (x - ax);
     cd_u2 := set_where_small (- xh c / 1000) (x - bx);
     cd_v1 := set_where_small (yh c / 1000) (y - ay);
     cd_v2 := set_where_small (- yh c / 1000) (y - by_);
     cd_w1 := set_where_small (zh c / 1000) (z - az);
     cd_w2 := set_where_small (- zh c / 1000) (z - bz) |}.


(** A product with a scipy sparse factor runs over the stored entries of
    the factor: a stored entry [a] adds [a*x] to the sum, and a zero is
    not stored ([sp.diags] and [sp.kron] drop it). *)
Definition sparse_step (a x acc : float) : float :=
  if a =? 0 then acc else acc + a * x.

(** [(G*H0)[0, 0]] for one cell and one receiver location: the row [g] of
    [G] against the three diagonals of [_getH0matrix], whose entries for
    the cell are [h]. *)
Definition GH0 (g h : float * float * float) : float :=
  let '(gx, gy, gz) := g in
  let '(hx, hy, hz) := h in
  sparse_step hz gz (sparse_step hy gy (sparse_step hx gx 0)).

(** [LinearVRM.fields(m)] for one cell, one receiver location and one time,
    with [refFact = 0] and the identity map: [T*(A*m)] for [A = [[a]]] and
    [T = [[eta]]], a sparse matrix. *)
Definition fields (eta a m : float) : float := sparse_step eta (a * m) 0.

(** The unit cell centred at (0.5, 0.5, 0.5), as [unit_mesh] has it. *)
Definition unit_cell : cell :=
  {| xc := 0.5; yc := 0.5; zc := 0.5; xh := 1; yh := 1; zh := 1 |}.

(** The corner differences of the receiver at (0.5, 0.5, 2) ... *)
Definition diffs_above : corner_diffs := nudged_diffs unit_cell 0.5 0.5 2.


(** The values of [np.arctan] at the eight arguments that the kernel takes
    at [diffs_above]: the arctangents, rounded to the nearest binary64
    number. *)
Definition arctan_above (np_arctan : float -> float) : Prop :=
  np_arctan 0.9428090414931746 = 0.755969410376849
  /\ np_arctan (-0.9428090414931746) = -0.755969410376849
  /\ np_arctan 0.9428090416709524 = 0.7559694104709666
  /\ np_arctan (-0.9428090416709524) = -0.7559694104709666
  /\ np_arctan 0.8164965807943928 = 0.6847192029222829
  /\ np_arctan (-0.8164965807943928) = -0.6847192029222829
  /\ np_arctan 0.8164965810610595 = 0.684719203082283
  /\ np_arctan (-0.8164965810610595) = -0.684719203082283.

End Binary64.

(* ================================================================= *)
(** ** A small survey and problem instances *)

(** A mesh of one unit cell centred at (0.5, 0.5, 0.5). *)
Definition unit_mesh : Mesh :=
  {| mesh_h := [[1]; [1]; [1]];
     mesh_nC := 1;
     gridCC := Mat 1 3 [[0.5; 0.5; 0.5]];
     gridH := Mat 1 3 [[1; 1; 1]] |}.

(** A waveform whose characteristic decay is 1 at every time, and whose
    log-uniform decay is 1 for every cell and time. *)
Definition unit_wave : Waveform :=
  {| getCharDecay := fun _ ts => map (fun _ => 1) ts;
     getLogUniformDecay := fun _ ts chi0 _ _ _ => np_ones (length chi0) (length ts) |}.

(** One z-component receiver above the cell, with one time channel. *)
Definition rx_above : Rx :=
  {| fieldComp := "z"; locs := Mat 1 3 [[0.5; 0.5; 2]]; times := [1]; fieldType := "dbdt" |}.

(** A source with a vertical unit inducing field and the receiver
    [rx_above], far from the mesh: no cell is flagged for refinement. *)
Definition far_source : Src :=
  {| getH0 := fun xyz => Mat (nrow xyz) 3 (map (fun _ => [0; 0; 1]) (rows xyz));
     rxList := [rx_above];
     nRx := 1;
     waveform := unit_wave;
     _getRefineFlags := fun xyzc _ _ => map (fun _ => 0%Z) (rows xyzc) |}.

Definition one_source_survey : SurveyVRM :=
  {| srcList := [far_source]; tActive := [true] |}.

Definition two_source_survey : SurveyVRM :=
  {| srcList := [far_source; far_source]; tActive := [true; true] |}.

(** A linear problem on the unit mesh, without refinement, paired with
    [one_source_survey]; nothing is built yet. *)
Definition paired_problem : LinearVRM.t :=
  mkProblem unit_mesh 0 (NdArray []) [VBool true] false None None false
    (IdentityMap 1) (Some one_source_survey) [].

(** The same problem before pairing. *)
Definition unpaired_problem : LinearVRM.t :=
  mkProblem unit_mesh 0 (NdArray []) [VBool true] false None None false
    (IdentityMap 1) None [].

(** A linear problem whose operators are stored: [A = [[2]]], [T = [[3]]]. *)
Definition built_problem : LinearVRM.t :=
  mkProblem unit_mesh 0 (NdArray []) [VBool true] true (Some (Mat 1 1 [[2]]))
    (Some (Mat 1 1 [[3]])) true (IdentityMap 1) (Some one_source_survey)
    ["CREATING T MATRIX"; "CREATING A MATRIX"]%string.

(** The paired problem with one level of refinement within 1.25 of the
    source. *)
Definition refined_far_problem : LinearVRM.t :=
  mkProblem unit_mesh 1 (NdArray [1.25]) [VBool true] false None None false
    (IdentityMap 1) (Some one_source_survey) [].

(** A problem with one refinement level and one radius. *)
Definition one_level_problem : LinearVRM.t :=
  mkProblem unit_mesh 1 (NdArray [1.25]) [VBool true] false None None false
    (IdentityMap 1) None [].

(** A log-uniform problem paired with [two_source_survey] whose blocks are
    stored: [[1]] for the first source and [[2]] for the second. *)
Definition log_problem : LogUniformVRM.t :=
  mkProblem unit_mesh 0 (NdArray []) [VBool true] true
    (Some [Mat 1 1 [[1]]; Mat 1 1 [[2]]]) None false
    (IdentityMap 1) (Some two_source_survey) ["CREATING A MATRIX"]%string.

Definition unpaired_log_problem : LogUniformVRM.t :=
  mkProblem unit_mesh 0 (NdArray []) [VBool true] false None None false
    (IdentityMap 1) None [].

(** A source with two receivers, and a log-uniform problem paired with a
    survey of that one source, whose single block is stored. *)
Definition two_receiver_source : Src :=
  {| getH0 := getH0 far_source;
     rxList := [rx_above; rx_above];
     nRx := 2;
     waveform := unit_wave;
     _getRefineFlags := _getRefineFlags far_source |}.

Definition log_problem_two_receivers : LogUniformVRM.t :=
  mkProblem unit_mesh 0 (NdArray []) [VBool true] true
    (Some [Mat 2 1 [[1]; [1]]]) None false
    (IdentityMap 1)
    (Some {| srcList := [two_receiver_source]; tActive := [true; true] |})
    ["CREATING A MATRIX"]%string.

(** A source like [far_source] but close to the mesh: every cell is
    flagged for the first level of refinement. *)
Definition near_source : Src :=
  {| getH0 := getH0 far_source;
     rxList := [rx_above];
     nRx := 1;
     waveform := unit_wave;
     _getRefineFlags := fun xyzc _ _ => map (fun _ => 1%Z) (rows xyzc) |}.



(* ================================================================= *)
(** ** Notions used to state the properties *)

(** [m] is the least entry of [l]. *)
Definition is_minimum (m : R) (l : vec) : Prop :=
  In m l /\ forall x, In x l -> m <= x.




(** The matrix [M] applied to the vector [v]. *)
Definition apply_matrix (M : matrix) (v : vec) : vec :=
  map (fun r => dot r v) (rows M).

(** The entry [M[k, j]]. *)
Definition entry (M : matrix) (k j : nat) : R := nth j (nth k (rows M) []) 0.

(** The position of the cell [j] among the cells under the mask: the number
    of cells before it that the mask selects. *)
Definition rank (mask : list bool) (j : nat) : nat := count_true (firstn j mask).

(** The sum of the [g] entries of [l] that start at position [i * g]: the
    entries of the children of the [i]-th refined cell. *)
Definition group_sum (l : vec) (i g : nat) : R := vsum (firstn g (skipn (i * g) l)).

(** The forward evaluation as C5 words it: the prediction of a receiver
    goes through the block of the source the receiver belongs to, [A[pp]].
    It differs from [LogUniformVRM.fields] in that index only. *)
Fixpoint fields_qq_loop_by_source (pp : nat) (waveObj : Waveform)
  (chi0 dchi tau1 tau2 : vec) (rxs : list Rx) (f : list vec)
  : method LogUniformVRM.t (list vec) :=
  match rxs with
  | [] => ret f
  | rx :: rxs' =>
      let eta := getLogUniformDecay waveObj (fieldType rx) (times rx)
                   chi0 dchi tau1 tau2 in
      As <~ LogUniformVRM.A ;;
      App <~ lift (LogUniformVRM.getitem As pp) ;;
      d <~ lift (matmul App eta) ;;
      fields_qq_loop_by_source pp waveObj chi0 dchi tau1 tau2 rxs'
        (f ++ [mkvc (transpose d)])
  end.

Fixpoint fields_pp_loop_by_source (pp : nat) (chi0 dchi tau1 tau2 : vec)
  (srcs : list Src) (f : list vec) : method LogUniformVRM.t (list vec) :=
  match srcs with
  | [] => ret f
  | src :: srcs' =>
      f' <~ fields_qq_loop_by_source pp (waveform src) chi0 dchi tau1 tau2
              (rxList src) f ;;
      fields_pp_loop_by_source (S pp) chi0 dchi tau1 tau2 srcs' f'
  end.

Definition fields_by_source (m_chi0 m_dchi m_tau1 m_tau2 : vec)
  : method LogUniformVRM.t vec :=
  survey <~ assert_paired msg_not_paired_data ;;
  xiMap <~ (fun self => (Ok (_xiMap self), self)) ;;
  let chi0 := map_mul xiMap m_chi0 in
  let dchi := map_mul xiMap m_dchi in
  let tau1 := map_mul xiMap m_tau1 in
  let tau2 := map_mul xiMap m_tau2 in
  f <~ fields_pp_loop_by_source 0 chi0 dchi tau1 tau2 (srcList survey) [] ;;
  lift (LogUniformVRM.hstack f).

(** The receivers of the source fill no more rows than [nRx]. *)
Definition receivers_fit (srcObj : Src) : Prop :=
  (list_sum (map (fun rx => length (rows (locs rx))) (rxList srcObj)) <= nRx srcObj)%nat.

(** The inducing field is sampled once per point. *)
Definition H0_per_point (srcObj : Src) : Prop :=
  forall xyz, length (rows xyz) = nrow xyz ->
              length (rows (getH0 srcObj xyz)) = nrow xyz.

(** A survey without sources. *)
Definition empty_survey : SurveyVRM := {| srcList := []; tActive := [] |}.

(** No keyword argument. *)
Definition no_kwargs : kwargs :=
  {| kw_refFact := None; kw_refRadius := None; kw_indActive := None; kw_xiMap := None |}.

(** The log-uniform problem on the unit mesh paired with the survey of the
    one source that has two receivers; nothing is built yet. *)
Definition fresh_log_problem_two_receivers : LogUniformVRM.t :=
  mkProblem unit_mesh 0 (NdArray []) [VBool true] false None None false
    (IdentityMap 1)
    (Some {| srcList := [two_receiver_source]; tActive := [true; true] |}) [].

(** [dComp] has a branch in [_getGeometryMatrix]. *)
Definition known_comp (dComp : string) : bool :=
  (String.eqb dComp "x" || String.eqb dComp "y" || String.eqb dComp "z")%bool.

(** The number of rows of [G] that the receiver writes: one per location
    when its component has a branch, none otherwise. *)
Definition rows_written (rx : Rx) : nat :=
  if known_comp (fieldComp rx) then length (rows (locs rx)) else 0%nat.

(** The value of [COUNT] when the loop reaches the receiver number [q]. *)
Definition first_row (rxs : list Rx) (q : nat) : nat :=
  list_sum (map rows_written (firstn q rxs)).

(** The value of [COUNT] after the last receiver. *)
Definition total_written (rxs : list Rx) : nat := list_sum (map rows_written rxs).

(** The receivers of a survey, each with the waveform of its source, in
    the order of the sources and of the receivers of a source. *)
Definition receivers (survey : SurveyVRM) : list (Waveform * Rx) :=
  flat_map (fun src => map (fun rx => (waveform src, rx)) (rxList src))
           (srcList survey).

(** The characteristic decay of a receiver at its times. *)
Definition char_decay (p : Waveform * Rx) : vec :=
  getCharDecay (fst p) (fieldType (snd p)) (times (snd p)).

(** For each entry of [x] in turn, the entry times each entry of [eta]. *)
Definition decay_times (eta x : vec) : vec :=
  flat_map (fun xi => map (fun e => e * xi) eta) x.

(** The number of data of a source is the number of the locations of its
    receivers. *)
Definition locations_counted (src : Src) : Prop :=
  nRx src = list_sum (map (fun rx => nrow (locs rx)) (rxList src)).

(** A log-uniform problem paired with [survey] whose list of blocks is
    either not built yet, or built with one block per source. *)
Definition blocks_per_source (survey : SurveyVRM) (s : ProblemVRM (list matrix)) : Prop :=
  _survey s = Some survey
  /\ (_AisSet s = false
      \/ exists As, _AisSet s = true /\ _A s = Some As /\ length As = nSrc survey).

(* ================================================================= *)
(** * Properties *)

(** ** The prism kernel *)

Lemma map6_neg_sum (f g k : R -> R -> R -> R -> R -> R -> R) :
  (forall a b c d e x, f a b c d e x = - (g a b c d e x + k a b c d e x)) ->
  forall a b c d e x,
    map6 f a b c d e x
    = zip_with (fun p q => - (p + q)) (map6 g a b c d e x) (map6 k a b c d e x).
Proof.
  intros Hf a.
  induction a as [|a0 a IH]; intros [|b0 b] [|c0 c] [|d0 d] [|e0 e] [|x0 x];
    try reflexivity.
  cbn [map6 zip_with]. now rewrite Hf, IH.
Qed.

Lemma Gzz_scalar (u1 u2 v1 v2 w1 w2 : R) :
  Gzz u1 u2 v1 v2 w1 w2 = - (Gxx u1 u2 v1 v2 w1 w2 + Gyy u1 u2 v1 v2 w1 w2).
Proof. unfold Gzz, Gzz_first, Gxx, Gyy. ring. Qed.

(** C10, in exact arithmetic.  For every receiver location and every prism,
    the self-term [Gzz] of the z component is the negative of the sum of
    the self-terms [Gxx] and [Gyy] at the same nudged corner differences:
    entry by entry over the cells, and so for the scalar kernels.  (In
    binary64 the two can differ in the last place.) *)
Theorem Gzz_is_minus_Gxx_plus_Gyy :
  (forall u1 u2 v1 v2 w1 w2 : R,
      Gzz u1 u2 v1 v2 w1 w2 + Gxx u1 u2 v1 v2 w1 w2 + Gyy u1 u2 v1 v2 w1 w2 = 0)
  /\ (forall d : corner_diffs,
         over_cells Gzz d
         = zip_with (fun gxx gyy => - (gxx + gyy)) (over_cells Gxx d) (over_cells Gyy d)).
Proof.
  split.
  - intros. rewrite Gzz_scalar. ring.
  - intros d. unfold over_cells. apply map6_neg_sum. exact Gzz_scalar.
Qed.

(** ** Pairing *)

Lemma unpaired_no_survey {AT : Type} (s : ProblemVRM AT) :
  ispaired s = false -> _survey s = None.
Proof. unfold ispaired. destruct (_survey s); [discriminate | reflexivity]. Qed.

Lemma assert_paired_unpaired {AT : Type} (msg : string) (s : ProblemVRM AT) :
  ispaired s = false -> assert_paired msg s = (Raise (AssertionError msg), s).
Proof. intros H. unfold assert_paired. now rewrite (unpaired_no_survey s H). Qed.

Lemma assert_paired_paired {AT : Type} (msg : string) (s : ProblemVRM AT) survey :
  _survey s = Some survey -> assert_paired msg s = (Ok survey, s).
Proof. intros H. unfold assert_paired. now rewrite H. Qed.

(** C7.  Without a paired survey the forward, Jacobian-vector and
    transpose-Jacobian-vector operations of [LinearVRM], the forward
    operation of [LogUniformVRM], and every access that has to build [A] or
    [T], fail with the assertion that the problem must be paired with a
    survey, and leave the instance as it was.  [unpair] on a paired
    [LinearVRM] problem clears the survey, the stored [A] and [T], and both
    flags. *)
Theorem not_paired_fails_and_unpair_clears :
  (forall s : LinearVRM.t,
      ispaired s = false ->
      (forall m, LinearVRM.fields m s = (Raise (AssertionError msg_not_paired_data), s))
      /\ (forall m v, LinearVRM.Jvec m v s = (Raise (AssertionError msg_not_paired_data), s))
      /\ (forall m v, LinearVRM.Jtvec m v s = (Raise (AssertionError msg_not_paired_data), s))
      /\ (_AisSet s = false ->
          LinearVRM.A s = (Raise (AssertionError msg_not_paired_A), s))
      /\ (_TisSet s = false ->
          LinearVRM.T s = (Raise (AssertionError msg_not_paired_T), s)))
  /\ (forall s : LogUniformVRM.t,
         ispaired s = false ->
         (forall c0 dc t1 t2,
             LogUniformVRM.fields c0 dc t1 t2 s
             = (Raise (AssertionError msg_not_paired_data), s))
         /\ (_AisSet s = false ->
             LogUniformVRM.A s = (Raise (AssertionError msg_not_paired_A), s)))
  /\ (forall s : LinearVRM.t,
         ispaired s = true ->
         let s' := LinearVRM.unpair s in
         ispaired s' = false /\ _survey s' = None
         /\ _A s' = None /\ _T s' = None
         /\ _AisSet s' = false /\ _TisSet s' = false).
Proof.
  split; [|split].
  - intros s Hs. repeat split; intros.
    + unfold LinearVRM.fields, bindM. now rewrite assert_paired_unpaired.
    + unfold LinearVRM.Jvec, bindM. now rewrite assert_paired_unpaired.
    + unfold LinearVRM.Jtvec, bindM. now rewrite assert_paired_unpaired.
    + unfold LinearVRM.A. rewrite H. cbn [negb].
      unfold bindM. now rewrite assert_paired_unpaired.
    + unfold LinearVRM.T. rewrite H. cbn [negb].
      unfold bindM. now rewrite assert_paired_unpaired.
  - intros s Hs. split; intros.
    + unfold LogUniformVRM.fields, bindM. now rewrite assert_paired_unpaired.
    + unfold LogUniformVRM.A. rewrite H. cbn [negb].
      unfold bindM. now rewrite assert_paired_unpaired.
  - intros s Hs s'. subst s'. unfold LinearVRM.unpair. rewrite Hs. cbn [negb].
    repeat split.
Qed.

(** The theorem at the unpaired problems and at the stored problem. *)
Lemma not_paired_fails_and_unpair_clears_witness :
  (ispaired unpaired_problem = false
   /\ LinearVRM.fields [1] unpaired_problem
      = (Raise (AssertionError msg_not_paired_data), unpaired_problem)
   /\ LinearVRM.A unpaired_problem
      = (Raise (AssertionError msg_not_paired_A), unpaired_problem))
  /\ (ispaired unpaired_log_problem = false
      /\ LogUniformVRM.fields [1] [1] [1] [1] unpaired_log_problem
         = (Raise (AssertionError msg_not_paired_data), unpaired_log_problem))
  /\ (ispaired built_problem = true
      /\ _A (LinearVRM.unpair built_problem) = None
      /\ _T (LinearVRM.unpair built_problem) = None).
Proof.
  destruct not_paired_fails_and_unpair_clears as [H1 [H2 H3]].
  split; [|split].
  - split; [reflexivity|].
    destruct (H1 unpaired_problem eq_refl) as [Hf [_ [_ [HA _]]]].
    split; [apply Hf | apply HA; reflexivity].
  - split; [reflexivity|].
    destruct (H2 unpaired_log_problem eq_refl) as [Hf _]. apply Hf.
  - split; [reflexivity|].
    destruct (H3 built_problem eq_refl) as [_ [_ [HA [HT _]]]].
    split; [exact HA | exact HT].
Defined.

(** ** The configuration accessors *)

(** C8, as the code has it.  The [refFact] setter accepts exactly the
    integers that are not negative (the stored radii having a length), and
    then stores the value, leaves the radii alone, and prints a warning
    when the value differs from the number of stored radii and another when
    it is larger than 4; any other value is refused and nothing changes.
    The [refRadius] setter accepts exactly the numpy arrays that have a
    length, of any length, leaves [refFact] alone, and prints a warning
    when the length differs from [refFact]; a 0-d array raises at [len],
    and a value that is not a numpy array is refused.  Neither setter
    compares the number of radii with the refinement factor to refuse a
    write. *)
Theorem setters_validate_type_and_sign_only :
  forall (AT : Type) (s : ProblemVRM AT),
    (forall Val n,
        isinstance_int Val = true -> (0 <= int_value Val)%Z ->
        py_len (_refRadius s) = Ok n ->
        fst (refFact_setter Val s) = Ok tt
        /\ _refFact (snd (refFact_setter Val s)) = int_value Val
        /\ (0 <= _refFact (snd (refFact_setter Val s)))%Z
        /\ _refRadius (snd (refFact_setter Val s)) = _refRadius s
        /\ stdout (snd (refFact_setter Val s))
           = stdout s
             ++ (if (int_value Val =? Z.of_nat n)%Z then [] else [msg_refFact_mismatch])
             ++ (if (4 <? int_value Val)%Z then [msg_refFact_large] else []))
    /\ (forall Val,
           isinstance_int Val = false \/ (int_value Val < 0)%Z ->
           refFact_setter Val s
           = (Raise (AssertionError "Refinement factor must be an integer value equal or larger than 0"), s))
    /\ (forall Val e,
           isinstance_int Val = true -> (0 <= int_value Val)%Z ->
           py_len (_refRadius s) = Raise e ->
           refFact_setter Val s = (Raise e, s))
    /\ (forall Array n,
           is_ndarray Array = true -> py_len Array = Ok n ->
           fst (refRadius_setter Array s) = Ok tt
           /\ _refRadius (snd (refRadius_setter Array s)) = Array
           /\ _refFact (snd (refRadius_setter Array s)) = _refFact s
           /\ stdout (snd (refRadius_setter Array s))
              = stdout s
                ++ (if (_refFact s =? Z.of_nat n)%Z then [] else [msg_refRadius_mismatch]))
    /\ (forall x,
           refRadius_setter (NdArray0 x) s
           = (Raise (TypeError "len() of unsized object"), s))
    /\ (forall Array,
           is_ndarray Array = false ->
           refRadius_setter Array s
           = (Raise (AssertionError "Array must be a numpy array"), s)).
Proof.
  intros AT s. split; [|split; [|split; [|split; [|split]]]].
  - intros Val n Hint Hpos Hn. unfold refFact_setter.
    assert (Hlt : (-1 <? int_value Val)%Z = true) by (apply Z.ltb_lt; lia).
    rewrite Hint, Hlt, Hn. cbn [andb negb].
    destruct (int_value Val =? Z.of_nat n)%Z;
      destruct (4 <? int_value Val)%Z; cbn;
      rewrite ?app_nil_r, <- ?app_assoc; auto.
  - intros Val [Hint | Hneg]; unfold refFact_setter.
    + now rewrite Hint.
    + assert (Hlt : (-1 <? int_value Val)%Z = false) by (apply Z.ltb_ge; lia).
      rewrite Hlt, andb_false_r. reflexivity.
  - intros Val e Hint Hpos He. unfold refFact_setter.
    assert (Hlt : (-1 <? int_value Val)%Z = true) by (apply Z.ltb_lt; lia).
    rewrite Hint, Hlt, He. reflexivity.
  - intros Array n Hnd Hn. unfold refRadius_setter. rewrite Hnd, Hn. cbn [negb].
    destruct (_refFact s =? Z.of_nat n)%Z; cbn; rewrite ?app_nil_r; auto.
  - intros x. reflexivity.
  - intros Array Hnd. unfold refRadius_setter. now rewrite Hnd.
Qed.

(** The theorem at [one_level_problem], which holds one radius for one
    level and has printed nothing. *)
Lemma setters_validate_type_and_sign_only_witness :
  _refFact (snd (refFact_setter (VInt 0) one_level_problem)) = 0%Z
  /\ stdout (snd (refFact_setter (VInt 0) one_level_problem)) = [msg_refFact_mismatch]
  /\ stdout (snd (refFact_setter (VInt 1) one_level_problem)) = []
  /\ fst (refFact_setter (VInt (-3)) one_level_problem)
     = Raise (AssertionError "Refinement factor must be an integer value equal or larger than 0")
  /\ _refRadius (snd (refRadius_setter (NdArray [1; 2]) one_level_problem)) = NdArray [1; 2]
  /\ stdout (snd (refRadius_setter (NdArray [1; 2]) one_level_problem))
     = [msg_refRadius_mismatch]
  /\ fst (refRadius_setter (NdArray0 1.25) one_level_problem)
     = Raise (TypeError "len() of unsized object")
  /\ fst (refRadius_setter (PyList [1; 2]) one_level_problem)
     = Raise (AssertionError "Array must be a numpy array").
Proof.
  destruct (setters_validate_type_and_sign_only _ one_level_problem)
    as [H1 [H2 [_ [H3 [H4 H5]]]]].
  split; [|split; [|split; [|split; [|split; [|split; [|split]]]]]].
  - destruct (H1 (VInt 0) 1%nat eq_refl) as [_ [H _]];
      [cbn; lia | reflexivity | exact H].
  - destruct (H1 (VInt 0) 1%nat eq_refl) as [_ [_ [_ [_ H]]]];
      [cbn; lia | reflexivity | exact H].
  - destruct (H1 (VInt 1) 1%nat eq_refl) as [_ [_ [_ [_ H]]]];
      [cbn; lia | reflexivity | exact H].
  - rewrite (H2 (VInt (-3))); [reflexivity | right; cbn; lia].
  - destruct (H3 (NdArray [1; 2]) 2%nat eq_refl eq_refl) as [_ [H _]]. exact H.
  - destruct (H3 (NdArray [1; 2]) 2%nat eq_refl eq_refl) as [_ [_ [_ H]]]. exact H.
  - rewrite (H4 1.25). reflexivity.
  - rewrite (H5 (PyList [1; 2]) eq_refl). reflexivity.
Defined.

(** C8 as stated fails: on a problem with one refinement level and one
    radius, writing [refFact = 2] is accepted and leaves fewer radii than
    levels, with a warning printed; writing an empty array of radii is
    accepted too. *)
Lemma setters_accept_too_few_radii :
  _refFact one_level_problem = 1%Z
  /\ py_len (_refRadius one_level_problem) = Ok 1%nat
  /\ fst (refFact_setter (VInt 2) one_level_problem) = Ok tt
  /\ _refFact (snd (refFact_setter (VInt 2) one_level_problem)) = 2%Z
  /\ py_len (_refRadius (snd (refFact_setter (VInt 2) one_level_problem))) = Ok 1%nat
  /\ stdout (snd (refFact_setter (VInt 2) one_level_problem)) = [msg_refFact_mismatch]
  /\ fst (refRadius_setter (NdArray []) one_level_problem) = Ok tt
  /\ _refFact (snd (refRadius_setter (NdArray []) one_level_problem)) = 1%Z
  /\ py_len (_refRadius (snd (refRadius_setter (NdArray []) one_level_problem))) = Ok 0%nat.
Proof. cbn. repeat split. Qed.

(** ** Construction *)

(** What [BaseProblemVRM.__init__] has checked when it returns. *)
Lemma init_inversion (super_init : Mesh -> kwargs -> result unit) (msh : Mesh)
  (kw : kwargs) (b : BaseAttrs) :
  BaseProblemVRM_init super_init msh kw = Ok b ->
  let refFact := kwargs_get (kw_refFact kw) (VInt 3) in
  let indActive := kwargs_get (kw_indActive kw) (repeat (VBool true) (mesh_nC msh)) in
  exists default n,
    default_refRadius msh refFact = Ok default
    /\ length (mesh_h msh) = 3%nat
    /\ isinstance_int refFact = true
    /\ py_len (kwargs_get (kw_refRadius kw) default) = Ok n
    /\ (int_value refFact <= Z.of_nat n)%Z
    /\ boolean_array indActive = true
    /\ super_init msh kw = Ok tt
    /\ b_refFact b = refFact
    /\ b_refRadius b = kwargs_get (kw_refRadius kw) default
    /\ b_indActive b = indActive.
Proof.
  intros H refFact indActive. unfold BaseProblemVRM_init in H.
  fold refFact in H. fold indActive in H.
  destruct (default_refRadius msh refFact) as [default | e]; [|discriminate].
  cbn [bind] in H.
  destruct (Nat.eqb (length (mesh_h msh)) 3) eqn:E3; [|discriminate].
  cbn [assert bind] in H.
  destruct (isinstance_int refFact) eqn:Eint; [|discriminate].
  cbn [assert bind] in H.
  destruct (py_len (kwargs_get (kw_refRadius kw) default)) as [n | e] eqn:En;
    [|discriminate].
  cbn [bind] in H.
  destruct (int_value refFact <=? Z.of_nat n)%Z eqn:Elen; [|discriminate].
  cbn [assert bind] in H.
  destruct (boolean_array indActive) eqn:Emask; [|discriminate].
  cbn [assert bind] in H.
  destruct (super_init msh kw) as [[] | e]; [|discriminate].
  cbn [bind] in H. inversion H; subst b; clear H. cbn.
  exists default, n. apply Nat.eqb_eq in E3. apply Z.leb_le in Elen.
  repeat split; auto.
Qed.

(** When the checks pass and the base constructor accepts, the constructor
    returns. *)
Lemma init_returns (super_init : Mesh -> kwargs -> result unit) (msh : Mesh)
  (kw : kwargs) (default : radii) (n : nat) :
  let refFact := kwargs_get (kw_refFact kw) (VInt 3) in
  let indActive := kwargs_get (kw_indActive kw) (repeat (VBool true) (mesh_nC msh)) in
  default_refRadius msh refFact = Ok default ->
  length (mesh_h msh) = 3%nat ->
  isinstance_int refFact = true ->
  py_len (kwargs_get (kw_refRadius kw) default) = Ok n ->
  (int_value refFact <= Z.of_nat n)%Z ->
  boolean_array indActive = true ->
  super_init msh kw = Ok tt ->
  BaseProblemVRM_init super_init msh kw
  = Ok {| b_refFact := refFact;
          b_refRadius := kwargs_get (kw_refRadius kw) default;
          b_indActive := indActive;
          b_stdout := if (4 <? int_value refFact)%Z then [msg_refFact_large] else [] |}.
Proof.
  intros refFact indActive Hd H3 Hint Hn Hlen Hmask Hsuper.
  unfold BaseProblemVRM_init. fold refFact. fold indActive.
  rewrite Hd. cbn [bind].
  rewrite H3, Hint, Hn, Hmask. apply Z.leb_le in Hlen. cbn [bind]. rewrite Hlen.
  cbn [Nat.eqb assert bind]. rewrite Hsuper. reflexivity.
Qed.








(** ** The cached operators *)

(** What a successful read of [A] leaves behind. *)
Lemma A_read_ok (s s1 : LinearVRM.t) (a : matrix) :
  LinearVRM.A s = (Ok a, s1) ->
  _AisSet s1 = true /\ _A s1 = Some a
  /\ _survey s1 = _survey s /\ _xiMap s1 = _xiMap s
  /\ _T s1 = _T s /\ _TisSet s1 = _TisSet s.
Proof.
  unfold LinearVRM.A. destruct (_AisSet s) eqn:E; cbn [negb].
  - unfold stored. destruct (_A s) eqn:EA; unfold ret, lift; intros H; inversion H; subst.
    repeat split; assumption.
  - unfold bindM, assert_paired. destruct (_survey s) eqn:ES; [|discriminate].
    unfold modify, ret.
    destruct (blocks <- _getAMatricies _ _ ;; vstack blocks) eqn:EB;
      intros H; inversion H; subst.
    cbn. unfold drop_A. destruct (_A s); cbn; repeat split; auto.
Qed.

(** What a successful read of [T] leaves behind. *)
Lemma T_read_ok (s s1 : LinearVRM.t) (Tm : matrix) :
  LinearVRM.T s = (Ok Tm, s1) ->
  _TisSet s1 = true /\ _T s1 = Some Tm
  /\ _survey s1 = _survey s /\ _xiMap s1 = _xiMap s
  /\ _A s1 = _A s /\ _AisSet s1 = _AisSet s.
Proof.
  unfold LinearVRM.T. destruct (_TisSet s) eqn:E; cbn [negb].
  - unfold stored. destruct (_T s) eqn:EA; unfold ret, lift; intros H; inversion H; subst.
    repeat split; assumption.
  - unfold bindM, assert_paired. destruct (_survey s) eqn:ES; [|discriminate].
    unfold modify, ret, lift.
    destruct (block_diag _) eqn:EB; intros H; inversion H; subst.
    cbn. unfold drop_T. destruct (_T s); cbn; repeat split; auto.
Qed.

(** A read that finds the flag set hands over what is stored and changes
    nothing. *)
Lemma A_read_stored (s : LinearVRM.t) (a : matrix) :
  _AisSet s = true -> _A s = Some a -> LinearVRM.A s = (Ok a, s).
Proof. intros H1 H2. unfold LinearVRM.A. rewrite H1, H2. reflexivity. Qed.

Lemma T_read_stored (s : LinearVRM.t) (Tm : matrix) :
  _TisSet s = true -> _T s = Some Tm -> LinearVRM.T s = (Ok Tm, s).
Proof. intros H1 H2. unfold LinearVRM.T. rewrite H1, H2. reflexivity. Qed.

(** The blocks are computed from the mesh, the mask and the refinement
    attributes: not from what is stored or printed. *)
Lemma getAMatricies_drop_print {AT : Type} (s : ProblemVRM AT) msg survey :
  _getAMatricies (print msg (drop_A s)) survey = _getAMatricies s survey.
Proof. unfold drop_A. destruct (_A s); reflexivity. Qed.




(** ** The nudging of the corner differences *)

Lemma nth_map_lt {X Y : Type} (g : X -> Y) (l : list X) (j : nat) (d : X) (d' : Y) :
  (j < length l)%nat -> nth j (map g l) d' = g (nth j l d).
Proof.
  intros H. rewrite (nth_indep _ d' (g d)) by (now rewrite length_map).
  apply map_nth.
Qed.

Lemma zip_with_length {X Y Z : Type} (f : X -> Y -> Z) (l1 : list X) (l2 : list Y) :
  length (zip_with f l1 l2) = Nat.min (length l1) (length l2).
Proof.
  revert l2. induction l1 as [|a l1 IH]; intros [|b l2]; cbn; auto.
Qed.

Lemma nth_zip_with {X Y Z : Type} (f : X -> Y -> Z) (l1 : list X) (l2 : list Y)
  (j : nat) (d1 : X) (d2 : Y) (d : Z) :
  (j < length l1)%nat -> (j < length l2)%nat ->
  nth j (zip_with f l1 l2) d = f (nth j l1 d1) (nth j l2 d2).
Proof.
  revert l2 j. induction l1 as [|a l1 IH]; intros [|b l2] [|j]; cbn; intros H1 H2;
    try lia; auto.
  apply IH; lia.
Qed.

Lemma fold_left_Rmin_le (l : vec) (x : R) :
  fold_left Rmin l x <= x /\ forall y, In y l -> fold_left Rmin l x <= y.
Proof.
  revert x. induction l as [|a l IH]; intros x; cbn.
  - split; [lra | contradiction].
  - destruct (IH (Rmin x a)) as [H1 H2]. split.
    + pose proof (Rmin_l x a). lra.
    + intros y [Hy | Hy].
      * subst y. pose proof (Rmin_r x a). lra.
      * now apply H2.
Qed.

Lemma fold_left_Rmin_In (l : vec) (x : R) : In (fold_left Rmin l x) (x :: l).
Proof.
  revert x. induction l as [|a l IH]; intros x; cbn.
  - now left.
  - destruct (IH (Rmin x a)) as [H | H].
    + destruct (Rmin_case x a (fun r => r = x \/ r = a)) as [E | E]; auto;
        rewrite E in *; auto.
    + right. now right.
Qed.

Lemma np_min_spec (l : vec) :
  l <> [] -> exists m, np_min l = Ok m /\ is_minimum m l.
Proof.
  destruct l as [|x l]; [congruence|]. intros _.
  exists (fold_left Rmin l x). split; [reflexivity|]. split.
  - apply fold_left_Rmin_In.
  - destruct (fold_left_Rmin_le l x) as [H1 H2].
    intros y [Hy | Hy]; [now subst y | now apply H2].
Qed.

Lemma col_length (k : nat) (M : matrix) : length (col k M) = length (rows M).
Proof. unfold col. apply length_map. Qed.





Lemma nudged_diffs_ok (xyzc xyzh : matrix) (loc : vec) (mx my mz : R) :
  np_min (col 0 xyzh) = Ok mx -> np_min (col 1 xyzh) = Ok my ->
  np_min (col 2 xyzh) = Ok mz ->
  nudged_diffs xyzc xyzh loc
  = Ok {| cd_u1 := set_where_small (mx / 1000)
                     (map (fun a => nth 0 loc 0 - a) (lower_face 0 xyzc xyzh));
          cd_u2 := set_where_small (- mx / 1000)
                     (map (fun b => nth 0 loc 0 - b) (upper_face 0 xyzc xyzh));
          cd_v1 := set_where_small (my / 1000)
                     (map (fun a => nth 1 loc 0 - a) (lower_face 1 xyzc xyzh));
          cd_v2 := set_where_small (- my / 1000)
                     (map (fun b => nth 1 loc 0 - b) (upper_face 1 xyzc xyzh));
          cd_w1 := set_where_small (mz / 1000)
                     (map (fun a => nth 2 loc 0 - a) (lower_face 2 xyzc xyzh));
          cd_w2 := set_where_small (- mz / 1000)
                     (map (fun b => nth 2 loc 0 - b) (upper_face 2 xyzc xyzh)) |}.
Proof.
  intros Ex Ey Ez. unfold nudged_diffs. rewrite Ex, Ey, Ez. reflexivity.
Qed.

Lemma nudged_diffs_empty (xyzc xyzh : matrix) (loc : vec) :
  rows xyzh = [] ->
  nudged_diffs xyzc xyzh loc
  = Raise (ValueError "zero-size array to reduction operation minimum which has no identity").
Proof. intros H. unfold nudged_diffs, col. rewrite H. reflexivity. Qed.

Lemma map6_length (f : R -> R -> R -> R -> R -> R -> R) (n : nat) :
  forall a b c d e g,
    length a = n -> length b = n -> length c = n -> length d = n ->
    length e = n -> length g = n ->
    length (map6 f a b c d e g) = n.
Proof.
  induction n as [|n IH];
    intros [|a0 a] [|b0 b] [|c0 c] [|d0 d] [|e0 e] [|g0 g]; cbn;
    intros; try discriminate; try reflexivity.
  f_equal. apply IH; congruence.
Qed.

Lemma nudged_face_length (val x : R) (f : R -> R -> R) (k : nat) (xyzc xyzh : matrix) :
  length (rows xyzc) = length (rows xyzh) ->
  length (set_where_small val
            (map (fun a => x - a) (zip_with f (col k xyzc) (col k xyzh))))
  = length (rows xyzh).
Proof.
  intros H. unfold set_where_small.
  rewrite !length_map, zip_with_length, !col_length. lia.
Qed.





(** ** Linear algebra on lists of rows *)

Lemma dot_cons (a b : R) (u v : vec) : dot (a :: u) (b :: v) = a * b + dot u v.
Proof. reflexivity. Qed.

Lemma dot_nil_l (v : vec) : dot [] v = 0.
Proof. reflexivity. Qed.

Lemma dot_nil_r (u : vec) : dot u [] = 0.
Proof. destruct u; reflexivity. Qed.

Lemma dot_comm (u v : vec) : dot u v = dot v u.
Proof.
  revert v. induction u as [|a u IH]; intros [|b v]; try reflexivity.
  rewrite !dot_cons, IH. ring.
Qed.

Lemma dot_zeros_r (u : vec) (n : nat) : dot u (repeat 0 n) = 0.
Proof.
  revert n. induction u as [|a u IH]; intros [|n]; try reflexivity.
  cbn [repeat]. rewrite dot_cons, IH. ring.
Qed.

Lemma dot_map_plus (f g : nat -> R) (y : vec) (a c : nat) :
  dot (map (fun j => f j + g j) (seq a c)) y
  = dot (map f (seq a c)) y + dot (map g (seq a c)) y.
Proof.
  revert a y. induction c as [|c IH]; intros a y; cbn [seq map].
  - rewrite !dot_nil_l. ring.
  - destruct y as [|y0 y]; [rewrite !dot_nil_r; ring|].
    rewrite !dot_cons, IH. ring.
Qed.

Lemma dot_map_zero (y : vec) (a c : nat) : dot (map (fun _ => 0) (seq a c)) y = 0.
Proof.
  revert a y. induction c as [|c IH]; intros a y; cbn [seq map]; [reflexivity|].
  destruct y as [|y0 y]; [now rewrite dot_nil_r|].
  rewrite dot_cons, IH. ring.
Qed.

Lemma dot_scale_l (k : R) (u y : vec) : dot (map (fun x => x * k) u) y = k * dot u y.
Proof.
  revert y. induction u as [|a u IH]; intros [|b y]; cbn [map];
    rewrite ?dot_nil_l, ?dot_nil_r, ?dot_cons; try ring.
  rewrite IH. ring.
Qed.

Lemma map_nth_seq (l : vec) (a : nat) (pre : vec) :
  length pre = a ->
  map (fun j => nth j (pre ++ l) 0) (seq a (length l)) = l.
Proof.
  revert a pre. induction l as [|x l IH]; intros a pre Hpre; cbn [length seq map].
  - reflexivity.
  - f_equal.
    + rewrite app_nth2 by lia. rewrite Hpre, Nat.sub_diag. reflexivity.
    + replace (pre ++ x :: l) with ((pre ++ [x]) ++ l) by (now rewrite <- app_assoc).
      apply IH. rewrite length_app. cbn. lia.
Qed.

Lemma map_nth_seq0 (l : vec) : map (fun j => nth j l 0) (seq 0 (length l)) = l.
Proof. exact (map_nth_seq l 0 [] eq_refl). Qed.

Lemma map_singleton_nth (l : vec) :
  map (fun j => [nth j l 0]) (seq 0 (length l)) = map (fun x => [x]) l.
Proof.
  transitivity (map (fun x => [x]) (map (fun j => nth j l 0) (seq 0 (length l)))).
  - now rewrite map_map.
  - now rewrite map_nth_seq0.
Qed.

(** The transpose of a list of rows applied to [w] is adjoint to the rows
    applied to [y]. *)
Lemma adjoint_rows (c : nat) (Rs : list vec) :
  Forall (fun r => length r = c) Rs ->
  forall w y : vec,
    length w = length Rs ->
    dot w (map (fun r => dot r y) Rs)
    = dot (map (fun j => dot (map (fun r => nth j r 0) Rs) w) (seq 0 c)) y.
Proof.
  induction 1 as [|r Rs Hr HRs IH]; intros w y Hw.
  - destruct w; [|discriminate]. cbn [map]. rewrite !dot_nil_l.
    now rewrite dot_map_zero.
  - destruct w as [|w0 w]; [discriminate|]. cbn [map].
    rewrite dot_cons, (IH w y) by (cbn in Hw; lia).
    rewrite (map_ext (fun j => dot (nth j r 0 :: map (fun r0 => nth j r0 0) Rs) (w0 :: w))
                     (fun j => nth j r 0 * w0 + dot (map (fun r0 => nth j r0 0) Rs) w))
      by (intros; apply dot_cons).
    rewrite dot_map_plus. f_equal.
    rewrite <- (map_map (fun j => nth j r 0) (fun x => x * w0)).
    rewrite <- Hr, map_nth_seq0, dot_scale_l. reflexivity.
Qed.

Lemma col_column (v : vec) : col 0 (column v) = v.
Proof. unfold col, column. cbn [rows]. rewrite map_map. cbn. apply map_id. Qed.

Lemma mkvc_column (v : vec) : mkvc (column v) = v.
Proof.
  unfold mkvc, transpose. cbn [rows ncol column seq map concat].
  rewrite col_column. apply app_nil_r.
Qed.

(** The product of a matrix with a column is the matrix applied to it. *)
Lemma matmul_column (M : matrix) (v : vec) :
  length (rows M) = nrow M -> ncol M = length v ->
  matmul M (column v) = Ok (column (apply_matrix M v)).
Proof.
  intros Hr Hc. unfold matmul. cbn [nrow ncol column].
  rewrite Hc, Nat.eqb_refl. f_equal.
  cbn [seq map]. rewrite col_column.
  unfold column, apply_matrix. rewrite length_map, Hr, map_map. reflexivity.
Qed.

Lemma apply_matrix_length (M : matrix) (v : vec) :
  length (apply_matrix M v) = length (rows M).
Proof. unfold apply_matrix. apply length_map. Qed.



(** ** The linear forward operation *)




(** ** The Jacobian products of the linear problem *)

Lemma select_length {X : Type} (mask : list bool) (l : list X) :
  length mask = length l -> length (select mask l) = count_true mask.
Proof.
  revert l. induction mask as [|b mask IH]; intros [|x l] H; try discriminate;
    [reflexivity|].
  cbn in H. injection H as H. unfold count_true in *. cbn [select filter].
  destruct b; cbn [length]; rewrite IH by assumption; reflexivity.
Qed.

Lemma select_Forall {X : Type} (Q : X -> Prop) (mask : list bool) (l : list X) :
  Forall Q l -> Forall Q (select mask l).
Proof.
  intros H. revert mask. induction H as [|x l Hx Hl IH]; intros [|b mask]; cbn;
    try constructor.
  destruct b; [constructor; [assumption | apply IH] | apply IH].
Qed.

Lemma mask_rows_wf (mask : list bool) (M : matrix) :
  wf M -> length mask = nrow M ->
  exists Ms, mask_rows mask M = Ok Ms /\ wf Ms
             /\ nrow Ms = count_true mask /\ ncol Ms = ncol M
             /\ rows Ms = select mask (rows M).
Proof.
  intros [Hr Hc] Hm. unfold mask_rows. rewrite Hm, Nat.eqb_refl.
  eexists. split; [reflexivity|]. cbn [nrow ncol rows].
  repeat split.
  - apply select_length. congruence.
  - now apply select_Forall.
Qed.

Lemma transpose_row (l : vec) (c : nat) :
  length l = c -> transpose (Mat 1 c [l]) = column l.
Proof.
  intros H. subst c. unfold transpose, column, col. cbn [nrow ncol rows map].
  now rewrite map_singleton_nth.
Qed.

Lemma transpose_column (x : vec) : transpose (column x) = row_matrix x.
Proof.
  unfold transpose, row_matrix. cbn [nrow ncol column seq map].
  now rewrite col_column.
Qed.

Lemma transpose_wf_rows (M : matrix) : length (rows (transpose M)) = nrow (transpose M).
Proof. unfold transpose. cbn [rows nrow]. now rewrite length_map, length_seq. Qed.

Lemma apply_transpose (M : matrix) (w : vec) :
  apply_matrix (transpose M) w = map (fun j => dot (col j M) w) (seq 0 (ncol M)).
Proof. unfold apply_matrix, transpose. cbn [rows]. now rewrite map_map. Qed.

(** The adjoint identity for a matrix whose rows have its number of
    columns. *)
Lemma adjoint_matrix (M : matrix) (w y : vec) :
  wf M -> length w = nrow M ->
  dot w (apply_matrix M y) = dot (apply_matrix (transpose M) w) y.
Proof.
  intros [Hr Hc] Hw. rewrite apply_transpose. unfold apply_matrix, col.
  apply adjoint_rows; [assumption | congruence].
Qed.

(** The product of a row with a matrix, transposed, is the transpose of the
    matrix applied to the row. *)
Lemma matmul_row_transposed (x : vec) (M : matrix) :
  length x = nrow M ->
  exists y, matmul (transpose (column x)) M = Ok y
            /\ transpose y = column (apply_matrix (transpose M) x).
Proof.
  intros H. rewrite transpose_column. unfold matmul, row_matrix.
  cbn [nrow ncol rows map]. rewrite H, Nat.eqb_refl.
  eexists. split; [reflexivity|].
  rewrite transpose_row by (now rewrite length_map, length_seq).
  f_equal. rewrite apply_transpose. apply map_ext.
  intros j. apply dot_comm.
Qed.

(** C1.  On a paired [LinearVRM] problem whose reads of [A] and [T]
    succeed with matrices whose shapes chain with the projection [P] of
    the parameter map, for every model [m], every [v] of model length and
    every [w] of active-time data length: [Jvec(m, v)] is the active-time
    rows of [T] applied to [A] applied to [P] applied to [v]; [Jtvec(m, w)]
    is the transposes of these three factors applied to [w] in the reverse
    order; and the inner product of [w] with [Jvec(m, v)] equals the inner
    product of [v] with [Jtvec(m, w)]. *)
Theorem jvec_jtvec_adjoint :
  forall (s s1 s2 : LinearVRM.t) (survey : SurveyVRM) (m v w : vec) (Am Tm : matrix),
    _survey s = Some survey ->
    LinearVRM.A s = (Ok Am, s1) -> LinearVRM.T s1 = (Ok Tm, s2) ->
    wf Am -> wf Tm -> wf (map_P (_xiMap s)) ->
    length v = ncol (map_P (_xiMap s)) ->
    nrow (map_P (_xiMap s)) = ncol Am ->
    nrow Am = ncol Tm ->
    length (tActive survey) = nrow Tm ->
    length w = count_true (tActive survey) ->
    let P := map_P (_xiMap s) in
    let Ta := Mat (count_true (tActive survey)) (ncol Tm)
                  (select (tActive survey) (rows Tm)) in
    LinearVRM.Jvec m v s
    = (Ok (column (apply_matrix Ta (apply_matrix Am (apply_matrix P v)))), s2)
    /\ LinearVRM.Jtvec m w s2
       = (Ok (column (apply_matrix (transpose P)
                        (apply_matrix (transpose Am)
                           (apply_matrix (transpose Ta) w)))), s2)
    /\ dot w (apply_matrix Ta (apply_matrix Am (apply_matrix P v)))
       = dot v (apply_matrix (transpose P)
                  (apply_matrix (transpose Am) (apply_matrix (transpose Ta) w)))
    /\ (forall jv jtv,
           LinearVRM.Jvec m v s = (Ok jv, s2) ->
           LinearVRM.Jtvec m w s2 = (Ok jtv, s2) ->
           dot w (mkvc jv) = dot v (mkvc jtv)).
Proof.
  intros s s1 s2 survey m v w Am Tm Hs HA HT HwA HwT HwP Hv HPA HAT Hmask Hw P Ta.
  subst P. set (P := map_P (_xiMap s)) in *.
  destruct (A_read_ok _ _ _ HA) as [HA1 [HA2 [HA3 [HA4 _]]]].
  destruct (T_read_ok _ _ _ HT) as [HT1 [HT2 [HT3 [HT4 [HT5 HT6]]]]].
  destruct (mask_rows_wf _ _ HwT Hmask) as [Ta' [HTa [HwTa [HTa1 [HTa2 HTa3]]]]].
  assert (ETa : Ta' = Ta).
  { destruct Ta' as [r c rs]. cbn in HTa1, HTa2, HTa3. subst. reflexivity. }
  subst Ta'.
  destruct HwA as [HAr HAc]. destruct HwP as [HPr HPc].
  assert (Hjv : LinearVRM.Jvec m v s
                = (Ok (column (apply_matrix Ta (apply_matrix Am (apply_matrix P v)))), s2)).
  { unfold LinearVRM.Jvec, bindM. rewrite (assert_paired_paired _ s survey Hs).
    unfold lift. fold P.
    rewrite (matmul_column P v HPr (eq_sym Hv)).
    rewrite HA.
    rewrite (matmul_column Am _ HAr)
      by (rewrite apply_matrix_length, HPr; symmetry; exact HPA).
    rewrite HT, HTa.
    rewrite (matmul_column Ta _ (proj1 HwTa)); [reflexivity|].
    rewrite apply_matrix_length, HAr. cbn [ncol Ta]. symmetry. exact HAT. }
  assert (Hjtv : LinearVRM.Jtvec m w s2
                 = (Ok (column (apply_matrix (transpose P)
                                  (apply_matrix (transpose Am)
                                     (apply_matrix (transpose Ta) w)))), s2)).
  { unfold LinearVRM.Jtvec, bindM.
    rewrite (assert_paired_paired _ s2 survey) by congruence.
    rewrite (T_read_stored s2 Tm HT1 HT2).
    unfold lift. rewrite HTa.
    unfold row_matrix. rewrite (transpose_row w (length w) eq_refl).
    rewrite (matmul_column (transpose Ta) w (transpose_wf_rows Ta))
      by (cbn [ncol transpose nrow Ta]; symmetry; exact Hw).
    rewrite (A_read_stored s2 Am) by congruence.
    destruct (matmul_row_transposed (apply_matrix (transpose Ta) w) Am)
      as [y [Hy1 Hy2]].
    { rewrite apply_matrix_length, transpose_wf_rows. cbn [nrow transpose ncol Ta].
      symmetry. exact HAT. }
    rewrite Hy1, Hy2.
    replace (_xiMap s2) with (_xiMap s) by congruence. fold P.
    rewrite (matmul_column (transpose P) _ (transpose_wf_rows P)); [reflexivity|].
    rewrite apply_matrix_length, transpose_wf_rows. cbn [nrow transpose ncol].
    exact HPA. }
  assert (Hadj : dot w (apply_matrix Ta (apply_matrix Am (apply_matrix P v)))
                 = dot v (apply_matrix (transpose P)
                            (apply_matrix (transpose Am)
                               (apply_matrix (transpose Ta) w)))).
  { rewrite (adjoint_matrix Ta _ _ HwTa Hw).
    rewrite (adjoint_matrix Am _ _ (conj HAr HAc)).
    - rewrite (adjoint_matrix P _ _ (conj HPr HPc)); [apply dot_comm|].
      rewrite apply_matrix_length, transpose_wf_rows.
      cbn [nrow transpose ncol]. symmetry. exact HPA.
    - rewrite apply_matrix_length, transpose_wf_rows.
      cbn [nrow transpose ncol Ta]. symmetry. exact HAT. }
  split; [exact Hjv|]. split; [exact Hjtv|]. split; [exact Hadj|].
  intros jv jtv H1 H2. rewrite Hjv in H1. rewrite Hjtv in H2.
  inversion H1; inversion H2; subst. rewrite !mkvc_column. exact Hadj.
Qed.

(** The theorem at the paired problem on the unit mesh, whose [A] and [T]
    are built by the reads, with [v = [5]] and [w = [7]]. *)
Lemma jvec_jtvec_adjoint_witness :
  exists Am Tm s1 s2,
    _survey paired_problem = Some one_source_survey
    /\ LinearVRM.A paired_problem = (Ok Am, s1)
    /\ LinearVRM.T s1 = (Ok Tm, s2)
    /\ wf Am /\ wf Tm /\ wf (map_P (_xiMap paired_problem))
    /\ exists jv jtv,
        LinearVRM.Jvec [0] [5] paired_problem = (Ok jv, s2)
        /\ LinearVRM.Jtvec [0] [7] s2 = (Ok jtv, s2)
        /\ dot [7] (mkvc jv) = dot [5] (mkvc jtv).
Proof.
  do 4 eexists.
  split; [reflexivity|]. split; [reflexivity|]. split; [reflexivity|].
  assert (HwA : wf (match fst (LinearVRM.A paired_problem)
                    with Ok a => a | Raise _ => np_zeros 0 0 end)).
  { split; [reflexivity | repeat constructor]. }
  assert (HwT : wf (match fst (LinearVRM.T (snd (LinearVRM.A paired_problem)))
                    with Ok a => a | Raise _ => np_zeros 0 0 end)).
  { split; [reflexivity | repeat constructor]. }
  assert (HwP : wf (map_P (_xiMap paired_problem))).
  { split; [reflexivity | repeat constructor]. }
  split; [exact HwA|]. split; [exact HwT|]. split; [exact HwP|].
  destruct (jvec_jtvec_adjoint paired_problem _ _ one_source_survey [0] [5] [7] _ _
              eq_refl eq_refl eq_refl HwA HwT HwP eq_refl eq_refl eq_refl eq_refl eq_refl)
    as [Hjv [Hjtv [_ Hadj]]].
  do 2 eexists. split; [exact Hjv|]. split; [exact Hjtv|].
  exact (Hadj _ _ Hjv Hjtv).
Defined.

(** ** The log-uniform forward operation *)

(** C5, at a problem paired with two sources of one receiver each, whose
    stored blocks are [[1]] and [[2]], with a decay of 1: the code predicts
    1 for the receiver of the second source, through the block of the first
    source ([self.A[qq]] with the receiver index [qq = 0]); through the
    block of its own source the prediction is 2.  With one source of two
    receivers the receiver index 1 finds no block and the code raises. *)
Theorem log_uniform_fields_indexes_blocks_by_receiver :
  (exists x0 x1 y0 y1,
      LogUniformVRM.fields [0] [0] [0] [0] log_problem = (Ok [x0; x1], log_problem)
      /\ fields_by_source [0] [0] [0] [0] log_problem = (Ok [y0; y1], log_problem)
      /\ x0 = 1 /\ x1 = 1 /\ y0 = 1 /\ y1 = 2)
  /\ LogUniformVRM.fields [0] [0] [0] [0] log_problem_two_receivers
     = (Raise (IndexError "list index out of range"), log_problem_two_receivers).
Proof.
  split.
  - do 4 eexists. split; [reflexivity|]. split; [reflexivity|].
    unfold dot, vsum. cbn. repeat split; lra.
  - reflexivity.
Qed.

(** ** Refinement on a level without cells *)

(** C2, at the problem on the unit mesh with one refinement level, paired
    with a source that flags no cell (every flag is 0): the refinement loop
    asks for the columns of level 1, the sub-mesh is empty, and the least
    width of an empty array raises; no block is returned, so the cell
    flagged 0 does not keep its column.  Without refinement ([refFact = 0])
    the same survey gives the block of the unrefined kernel. *)
Theorem refinement_of_empty_level_raises :
  _getRefineFlags far_source (gridCC unit_mesh) 1 (NdArray [1.25]) = [0%Z]
  /\ _getSubsetAcolumns far_source (gridCC unit_mesh) (gridH unit_mesh) 1 [0%Z]
     = Raise (ValueError "zero-size array to reduction operation minimum which has no identity")
  /\ _getAMatricies refined_far_problem one_source_survey
     = Raise (ValueError "zero-size array to reduction operation minimum which has no identity")
  /\ fst (LinearVRM.A refined_far_problem)
     = Raise (ValueError "zero-size array to reduction operation minimum which has no identity")
  /\ exists Ap, _getAMatricies paired_problem one_source_survey = Ok [Ap]
                /\ nrow Ap = 1%nat /\ ncol Ap = 1%nat.
Proof.
  split; [reflexivity|]. split; [reflexivity|]. split; [reflexivity|].
  split; [reflexivity|].
  eexists. split; [reflexivity|]. split; reflexivity.
Qed.

(** ** What the constructor does validate *)

Lemma assert_false (msg : string) : assert false msg = Raise (AssertionError msg).
Proof. reflexivity. Qed.

(** Construction fails whenever the mesh does not have three axes, or
    [refFact] is not an integer, or the given radii are fewer than
    [refFact] (or have no length), or the active mask has an entry that is
    neither true nor false; and when the default radii can be computed,
    these four conditions hold and the constructor of the base class
    accepts, the construction succeeds with the given (or default)
    attributes. *)
Theorem init_validation :
  forall (super_init : Mesh -> kwargs -> result unit) (mesh : Mesh) (kw : kwargs),
    let refFact := kwargs_get (kw_refFact kw) (VInt 3) in
    let indActive :=
      kwargs_get (kw_indActive kw) (repeat (VBool true) (mesh_nC mesh)) in
    (length (mesh_h mesh) <> 3%nat
     \/ isinstance_int refFact = false
     \/ (exists r, kw_refRadius kw = Some r
                   /\ match py_len r with
                      | Ok n => (Z.of_nat n < int_value refFact)%Z
                      | Raise _ => True
                      end)
     \/ boolean_array indActive = false ->
     exists e, BaseProblemVRM_init super_init mesh kw = Raise e)
    /\ (forall default n,
           default_refRadius mesh refFact = Ok default ->
           length (mesh_h mesh) = 3%nat ->
           isinstance_int refFact = true ->
           py_len (kwargs_get (kw_refRadius kw) default) = Ok n ->
           (int_value refFact <= Z.of_nat n)%Z ->
           boolean_array indActive = true ->
           super_init mesh kw = Ok tt ->
           exists b,
             BaseProblemVRM_init super_init mesh kw = Ok b
             /\ b_refFact b = refFact
             /\ b_refRadius b = kwargs_get (kw_refRadius kw) default
             /\ b_indActive b = indActive).
Proof.
  intros super_init mesh kw refFact indActive. split.
  - intros Hbad.
    destruct (BaseProblemVRM_init super_init mesh kw) as [b | e] eqn:Eb;
      [|now exists e].
    exfalso.
    destruct (init_inversion _ _ _ _ Eb)
      as [default [n [Hd [H3 [Hint [Hn [Hle [Hmask _]]]]]]]].
    fold refFact in Hint, Hle. fold indActive in Hmask.
    destruct Hbad as [H | [H | [[r [Hr Hlt]] | H]]].
    + contradiction.
    + rewrite H in Hint. discriminate.
    + rewrite Hr in Hn. cbn [kwargs_get] in Hn. rewrite Hn in Hlt. lia.
    + rewrite H in Hmask. discriminate.
  - intros default n Hd H3 Hint Hn Hlen Hmask Hsuper.
    rewrite (init_returns super_init mesh kw default n); auto.
    eexists. repeat split.
Qed.

(** The theorem at the unit mesh: a list of two radii for three levels is
    refused, and the defaults are accepted. *)
Lemma init_validation_witness :
  (exists e,
      BaseProblemVRM_init (fun _ _ => Ok tt) unit_mesh
        {| kw_refFact := None; kw_refRadius := Some (PyList [1; 2]);
           kw_indActive := None; kw_xiMap := None |} = Raise e)
  /\ (exists b,
         BaseProblemVRM_init (fun _ _ => Ok tt) unit_mesh
           {| kw_refFact := None; kw_refRadius := None;
              kw_indActive := None; kw_xiMap := None |} = Ok b
         /\ b_refFact b = VInt 3).
Proof.
  split.
  - apply (proj1 (init_validation (fun _ _ => Ok tt) unit_mesh
                    {| kw_refFact := None; kw_refRadius := Some (PyList [1; 2]);
                       kw_indActive := None; kw_xiMap := None |})).
    right. right. left. exists (PyList [1; 2]). split; [reflexivity | cbn; lia].
  - destruct (proj2 (init_validation (fun _ _ => Ok tt) unit_mesh
                       {| kw_refFact := None; kw_refRadius := None;
                          kw_indActive := None; kw_xiMap := None |})
                _ 3%nat eq_refl eq_refl eq_refl eq_refl)
      as [b [Hb [Hrf _]]];
      [apply Z.leb_le; reflexivity | reflexivity | reflexivity |].
    exists b. split; [exact Hb | exact Hrf].
Defined.

(** ** The collapse of refined columns *)

Lemma update_length {X : Type} (l : list X) (i : nat) (x : X) :
  length (update l i x) = length l.
Proof.
  revert i. induction l as [|y l IH]; intros [|i]; cbn; auto.
Qed.

Lemma rr_loop_length (dComp : string) (xyzc xyzh : matrix) (ls : list vec) :
  forall st st',
    rr_loop dComp xyzc xyzh ls st = Ok st' -> length (fst st') = length (fst st).
Proof.
  induction ls as [|loc ls IH]; intros st st' H; cbn [rr_loop] in H.
  - now inversion H.
  - destruct (kernel_row dComp xyzc xyzh loc) as [[row | e] |]; cbn [bind] in H;
      try discriminate; [|now inversion H].
    unfold set_row in H. destruct (Nat.ltb (snd st) (length (fst st))); cbn [bind] in H;
      [|discriminate].
    apply IH in H. cbn [fst] in H. now rewrite update_length in H.
Qed.

Lemma qq_loop_length (xyzc xyzh : matrix) (rxs : list Rx) :
  forall st st',
    qq_loop xyzc xyzh rxs st = Ok st' -> length (fst st') = length (fst st).
Proof.
  induction rxs as [|rx rxs IH]; intros st st' H; cbn [qq_loop] in H.
  - now inversion H.
  - destruct (rr_loop (fieldComp rx) xyzc xyzh (rows (locs rx)) st) as [st1 | e] eqn:E;
      cbn [bind] in H; [|discriminate].
    apply IH in H. apply rr_loop_length in E. congruence.
Qed.

(** The geometry matrix has as many rows as its shape says. *)
Lemma geometry_matrix_shape (srcObj : Src) (xyzc xyzh G : matrix) :
  _getGeometryMatrix srcObj xyzc xyzh = Ok G ->
  length (rows G) = nrow G /\ nrow G = nRx srcObj /\ ncol G = (3 * nrow xyzc)%nat.
Proof.
  unfold _getGeometryMatrix. intros H.
  destruct (qq_loop xyzc xyzh (rxList srcObj) _) as [st | e] eqn:E; cbn [bind] in H;
    [|discriminate].
  inversion H; subst; clear H. cbn [rows nrow ncol].
  apply qq_loop_length in E. cbn [fst np_zeros rows] in E.
  rewrite repeat_length in E. auto.
Qed.

(** What a successful product is. *)
Lemma matmul_ok (A B Cm : matrix) :
  matmul A B = Ok Cm ->
  ncol A = nrow B /\ nrow Cm = nrow A /\ ncol Cm = ncol B
  /\ rows Cm = map (fun r => map (fun j => dot r (col j B)) (seq 0 (ncol B))) (rows A).
Proof.
  unfold matmul. destruct (Nat.eqb (ncol A) (nrow B)) eqn:E; [|discriminate].
  intros H. inversion H; subst; clear H. apply Nat.eqb_eq in E. auto.
Qed.

Lemma matmul_wf (A B Cm : matrix) :
  matmul A B = Ok Cm -> length (rows A) = nrow A -> wf Cm.
Proof.
  intros H Hr. destruct (matmul_ok _ _ _ H) as [_ [Hn [Hc Hrows]]]. split.
  - rewrite Hrows, length_map. congruence.
  - rewrite Hrows, Hc. apply Forall_forall. intros r Hin.
    apply in_map_iff in Hin. destruct Hin as [r0 [Hr0 _]]. subst r.
    now rewrite length_map, length_seq.
Qed.

Lemma matmul_entry (A B Cm : matrix) (k j : nat) :
  matmul A B = Ok Cm -> (k < length (rows A))%nat -> (j < ncol B)%nat ->
  entry Cm k j = dot (nth k (rows A) []) (col j B).
Proof.
  intros H Hk Hj. destruct (matmul_ok _ _ _ H) as [_ [_ [_ Hrows]]].
  unfold entry. rewrite Hrows.
  rewrite (nth_map_lt _ _ _ []) by assumption.
  rewrite (nth_map_lt _ _ _ 0%nat) by (now rewrite length_seq).
  now rewrite seq_nth.
Qed.

(** One row after [M[:, mask] = New]. *)
Lemma assign_masked_length (mask : list bool) :
  forall r new, length (assign_masked mask r new) = length r.
Proof.
  induction mask as [|b mask IH]; intros [|x r] new; cbn; auto.
  destruct b; [destruct new|]; cbn; now rewrite IH.
Qed.

Lemma count_true_cons (b : bool) (mask : list bool) :
  count_true (b :: mask) = ((if b then 1 else 0) + count_true mask)%nat.
Proof. unfold count_true. cbn. destruct b; reflexivity. Qed.

Lemma assign_masked_nth (mask : list bool) :
  forall (r new : vec) (j : nat),
    length r = length mask -> length new = count_true mask ->
    nth j (assign_masked mask r new) 0
    = if nth j mask false then nth (rank mask j) new 0 else nth j r 0.
Proof.
  induction mask as [|b mask IH]; intros r new j Hr Hn.
  - destruct r; [|discriminate]. destruct j; reflexivity.
  - destruct r as [|x r]; [discriminate|]. cbn in Hr. injection Hr as Hr.
    rewrite count_true_cons in Hn. cbn [assign_masked].
    destruct b.
    + destruct new as [|y new]; [discriminate|]. cbn in Hn. injection Hn as Hn.
      destruct j as [|j]; [reflexivity|].
      cbn [nth]. rewrite IH by assumption.
      unfold rank. cbn [firstn]. rewrite count_true_cons. reflexivity.
    + destruct j as [|j]; [reflexivity|].
      cbn [nth]. rewrite IH by assumption.
      unfold rank. cbn [firstn]. rewrite count_true_cons. reflexivity.
Qed.

(** What a successful assignment of columns is. *)
Lemma set_columns_ok (mask : list bool) (M New M' : matrix) :
  set_columns mask M New = Ok M' ->
  length mask = ncol M /\ nrow New = nrow M /\ ncol New = count_true mask
  /\ nrow M' = nrow M /\ ncol M' = ncol M
  /\ rows M' = zip_with (assign_masked mask) (rows M) (rows New).
Proof.
  unfold set_columns.
  destruct (Nat.eqb (length mask) (ncol M)) eqn:E1; cbn [negb]; [|discriminate].
  destruct (Nat.eqb (nrow New) (nrow M)) eqn:E2; cbn [andb]; [|discriminate].
  destruct (Nat.eqb (ncol New) (count_true mask)) eqn:E3; [|discriminate].
  intros H. inversion H; subst; clear H.
  apply Nat.eqb_eq in E1, E2, E3. repeat split; assumption.
Qed.

Lemma zip_assign_Forall (mask : list bool) (c : nat) (rs ns : list vec) :
  Forall (fun r => length r = c) rs ->
  Forall (fun r => length r = c) (zip_with (assign_masked mask) rs ns).
Proof.
  intros H. revert ns. induction H as [|r rs Hr Hrs IH]; intros [|n ns];
    cbn [zip_with]; try constructor.
  - now rewrite assign_masked_length.
  - apply IH.
Qed.

Lemma set_columns_wf (mask : list bool) (M New M' : matrix) :
  set_columns mask M New = Ok M' -> wf M -> wf New -> wf M'.
Proof.
  intros H [HMr HMc] [HNr HNc].
  destruct (set_columns_ok _ _ _ _ H) as [Hm [Hn [Hc [Hn' [Hc' Hrows]]]]].
  split.
  - rewrite Hrows, zip_with_length. lia.
  - rewrite Hrows, Hc'. now apply zip_assign_Forall.
Qed.

Lemma set_columns_entry (mask : list bool) (M New M' : matrix) (k j : nat) :
  set_columns mask M New = Ok M' -> wf M -> wf New ->
  (k < nrow M)%nat ->
  entry M' k j = if nth j mask false then entry New k (rank mask j) else entry M k j.
Proof.
  intros H [HMr HMc] [HNr HNc] Hk.
  destruct (set_columns_ok _ _ _ _ H) as [Hm [Hn [Hc [Hn' [Hc' Hrows]]]]].
  unfold entry. rewrite Hrows.
  rewrite (nth_zip_with _ _ _ _ [] [] []) by lia.
  apply assign_masked_nth.
  - rewrite Hm. rewrite Forall_forall in HMc. apply HMc. apply nth_In. lia.
  - rewrite <- Hc. rewrite Forall_forall in HNc. apply HNc. apply nth_In. lia.
Qed.

Lemma nth_repeat_lt {X : Type} (x d : X) (m i : nat) :
  (i < m)%nat -> nth i (repeat x m) d = x.
Proof.
  revert i. induction m as [|m IH]; intros [|i] H; cbn; try lia; auto.
  apply IH. lia.
Qed.

Lemma flat_map_singleton {X Y : Type} (f : X -> Y) (l : list X) :
  flat_map (fun a => [f a]) l = map f l.
Proof. induction l as [|a l IH]; cbn; [reflexivity | now rewrite IH]. Qed.

Lemma map_repeat_const {X Y : Type} (f : X -> Y) (x : X) (n : nat) :
  map f (repeat x n) = repeat (f x) n.
Proof. induction n as [|n IH]; cbn; [reflexivity | now rewrite IH]. Qed.

(** The rows of [kron(A, ones((g, 1)))]: every row of [A] (times 1), [g]
    times over. *)
Lemma kron_ones_rows (A : matrix) (g : nat) :
  rows (kron A (np_ones g 1))
  = flat_map (fun ra => repeat (map (fun a => a * 1) ra) g) (rows A).
Proof.
  unfold kron, np_ones. cbn [rows repeat].
  apply flat_map_ext. intros ra.
  rewrite map_repeat_const. f_equal.
Qed.

Lemma dot_repeat_app (x : R) (g : nat) :
  forall (l rest : vec),
    (g <= length l)%nat ->
    dot l (repeat x g ++ rest) = x * vsum (firstn g l) + dot (skipn g l) rest.
Proof.
  induction g as [|g IH]; intros l rest Hl; cbn [repeat app firstn skipn].
  - cbn. ring.
  - destruct l as [|a l]; [cbn in Hl; lia|].
    cbn [firstn skipn]. rewrite dot_cons, IH by (cbn in Hl; lia). cbn [vsum fold_right].
    fold (vsum (firstn g l)). ring.
Qed.

Lemma flat_map_repeat_zero (f : nat -> R) (g : nat) :
  forall (c a : nat),
    (forall i, (a <= i < a + c)%nat -> f i = 0) ->
    flat_map (fun i => repeat (f i) g) (seq a c) = repeat 0 (c * g).
Proof.
  induction c as [|c IH]; intros a Hf; cbn [seq flat_map]; [reflexivity|].
  rewrite (Hf a) by lia. rewrite IH by (intros; apply Hf; lia).
  rewrite <- repeat_app. reflexivity.
Qed.

(** The inner product with the indicator of the [i]-th group of [g]
    positions is the sum over the group. *)
Lemma dot_indicator (f : nat -> R) (g i : nat) :
  f i = 1 -> (forall i', i' <> i -> f i' = 0) ->
  forall (c a : nat) (l : vec),
    (a <= i < a + c)%nat -> (c * g <= length l)%nat ->
    dot l (flat_map (fun i' => repeat (f i') g) (seq a c))
    = vsum (firstn g (skipn ((i - a) * g) l)).
Proof.
  intros Hi Hother. induction c as [|c IH]; intros a l Hai Hl; [lia|].
  cbn [seq flat_map]. rewrite dot_repeat_app by (cbn in Hl; lia).
  destruct (Nat.eq_dec a i) as [E | E].
  - subst a. rewrite Hi, Nat.sub_diag. cbn [Nat.mul skipn].
    rewrite flat_map_repeat_zero by (intros; apply Hother; lia).
    rewrite dot_zeros_r. ring.
  - rewrite (Hother a E), IH; [|lia|].
    + rewrite skipn_skipn.
      replace (i - a)%nat with (S (i - S a)) by lia.
      cbn [Nat.mul]. rewrite (Nat.add_comm g). ring.
    + rewrite length_skipn. cbn in Hl. lia.
Qed.

Lemma diags_rows (d : vec) :
  rows (diags d)
  = map (fun i => map (fun j => if Nat.eqb i j then nth i d 0 else 0) (seq 0 (length d)))
        (seq 0 (length d)).
Proof. reflexivity. Qed.

(** A column of the collapsing matrix selects one group. *)
Lemma dot_collapse_col (m n i : nat) (l : vec) :
  (i < m)%nat -> length l = (m * n ^ 3)%nat ->
  dot l (col i (collapse m n)) = group_sum l i (n ^ 3).
Proof.
  intros Hi Hl. unfold collapse, col. rewrite kron_ones_rows, diags_rows.
  rewrite repeat_length. rewrite flat_map_concat_map, map_map, <- flat_map_concat_map.
  rewrite flat_map_concat_map, concat_map, map_map, <- flat_map_concat_map.
  rewrite (flat_map_ext _
             (fun i' => repeat ((if Nat.eqb i' i then nth i' (repeat 1 m) 0 else 0) * 1)
                          (n ^ 3))).
  - rewrite (dot_indicator
               (fun i' => (if Nat.eqb i' i then nth i' (repeat 1 m) 0 else 0) * 1)
               (n ^ 3) i).
    + unfold group_sum. now rewrite Nat.sub_0_r.
    + rewrite Nat.eqb_refl, nth_repeat_lt by assumption. ring.
    + intros i' Hne. apply Nat.eqb_neq in Hne. rewrite Hne. ring.
    + lia.
    + lia.
  - intros i'. rewrite map_repeat_const. f_equal.
    rewrite map_map.
    destruct (Nat.lt_ge_cases i m) as [_ | H]; [|lia].
    rewrite (nth_map_lt _ _ _ 0%nat) by (now rewrite length_seq).
    rewrite seq_nth by assumption. reflexivity.
Qed.

Lemma rank_lt (mask : list bool) :
  forall j, nth j mask false = true -> (rank mask j < count_true mask)%nat.
Proof.
  unfold rank. induction mask as [|b mask IH]; intros [|j] H; cbn [nth] in H;
    try discriminate.
  - subst b. cbn [firstn]. rewrite count_true_cons. unfold count_true at 1. cbn. lia.
  - cbn [firstn]. rewrite !count_true_cons. specialize (IH j H). lia.
Qed.

Lemma flag_mask_nth (flags : list Z) (q j : nat) :
  nth j (flag_mask flags q) false = true
  <-> (j < length flags)%nat /\ nth j flags 0%Z = Z.of_nat q.
Proof.
  unfold flag_mask. split.
  - intros H. destruct (Nat.lt_ge_cases j (length flags)) as [Hj | Hj].
    + rewrite (nth_map_lt _ _ _ 0%Z) in H by assumption.
      apply Z.eqb_eq in H. auto.
    + rewrite nth_overflow in H by (now rewrite length_map). discriminate.
  - intros [Hj H]. rewrite (nth_map_lt _ _ _ 0%Z) by assumption.
    now apply Z.eqb_eq.
Qed.

(** The refined columns of one level: each is the sum, over the sub-cells
    of its cell, of the columns of the kernel on the sub-mesh. *)
Lemma subset_columns_spec (srcObj : Src) (xyzc xyzh : matrix) (qq : nat)
  (refFlag : list Z) (Acols : matrix) :
  _getSubsetAcolumns srcObj xyzc xyzh qq refFlag = Ok Acols ->
  exists sub G H0 B,
    submesh xyzc xyzh qq refFlag = Ok sub
    /\ _getGeometryMatrix srcObj (fst sub) (snd sub) = Ok G
    /\ _getH0matrix srcObj (fst sub) = Ok H0
    /\ matmul G H0 = Ok B
    /\ wf Acols /\ nrow Acols = nRx srcObj
    /\ forall k i,
        (k < nRx srcObj)%nat -> (i < count_true (flag_mask refFlag qq))%nat ->
        entry Acols k i = group_sum (nth k (rows B) []) i ((2 ^ qq) ^ 3).
Proof.
  unfold _getSubsetAcolumns. intros H.
  destruct (submesh xyzc xyzh qq refFlag) as [sub | e] eqn:Esub; cbn [bind] in H;
    [|discriminate].
  destruct (_getGeometryMatrix srcObj (fst sub) (snd sub)) as [G | e] eqn:EG;
    cbn [bind] in H; [|discriminate].
  destruct (_getH0matrix srcObj (fst sub)) as [H0 | e] eqn:EH; cbn [bind] in H;
    [|discriminate].
  destruct (matmul G H0) as [B | e] eqn:EB; cbn [bind] in H; [|discriminate].
  exists sub, G, H0, B.
  split; [reflexivity|]. split; [exact EG|]. split; [exact EH|]. split; [exact EB|].
  destruct (geometry_matrix_shape _ _ _ _ EG) as [HGr [HGn _]].
  pose proof (matmul_wf _ _ _ EB HGr) as [HBr HBc].
  destruct (matmul_ok _ _ _ EB) as [_ [HBn _]].
  destruct (matmul_ok _ _ _ H) as [Hcn [Hn [Hc _]]].
  split; [exact (matmul_wf _ _ _ H HBr)|].
  split; [congruence|].
  intros k i Hk Hi.
  rewrite (matmul_entry _ _ _ k i H).
  - apply dot_collapse_col; [assumption|].
    rewrite Forall_forall in HBc. rewrite (HBc (nth k (rows B) [])).
    + rewrite Hcn. unfold collapse. cbn [nrow kron diags np_ones].
      now rewrite repeat_length.
    + apply nth_In. lia.
  - lia.
  - unfold collapse. cbn [ncol kron diags np_ones]. rewrite repeat_length. lia.
Qed.

(** The loop over the levels: a column flagged with one of the levels is
    the refined column of that level, any other column is untouched. *)
Lemma refine_loop_spec (srcObj : Src) (xyzc xyzh : matrix) (refFlag : list Z) :
  forall (qqs : list nat) (Ap0 Ap : matrix),
    refine_loop srcObj xyzc xyzh refFlag qqs Ap0 = Ok Ap ->
    wf Ap0 -> nrow Ap0 = nRx srcObj -> NoDup qqs ->
    wf Ap /\ nrow Ap = nrow Ap0 /\ ncol Ap = ncol Ap0
    /\ forall k j,
        (k < nrow Ap0)%nat ->
        (forall q, In q qqs -> nth j (flag_mask refFlag q) false = true ->
                   exists Acols,
                     _getSubsetAcolumns srcObj xyzc xyzh q refFlag = Ok Acols
                     /\ entry Ap k j = entry Acols k (rank (flag_mask refFlag q) j))
        /\ ((forall q, In q qqs -> nth j (flag_mask refFlag q) false = false) ->
            entry Ap k j = entry Ap0 k j).
Proof.
  induction qqs as [|q qs IH]; intros Ap0 Ap H Hwf Hn Hnd; cbn [refine_loop] in H.
  - inversion H; subst. split; [assumption|]. split; [reflexivity|].
    split; [reflexivity|]. intros k j Hk. split; [intros q []|reflexivity].
  - destruct (_getSubsetAcolumns srcObj xyzc xyzh q refFlag) as [Acols | e] eqn:EA;
      cbn [bind] in H; [|discriminate].
    destruct (set_columns (flag_mask refFlag q) Ap0 Acols) as [Ap' | e] eqn:ES;
      cbn [bind] in H; [|discriminate].
    destruct (subset_columns_spec _ _ _ _ _ _ EA) as [sub [G [H0 [B [_ [_ [_ [_ [HwA [HnA _]]]]]]]]]].
    pose proof (set_columns_wf _ _ _ _ ES Hwf HwA) as Hwf'.
    destruct (set_columns_ok _ _ _ _ ES) as [_ [_ [_ [Hn' [Hc' _]]]]].
    inversion Hnd as [|q' qs' Hnotin Hnd']; subst.
    destruct (IH Ap' Ap H Hwf' (eq_trans Hn' Hn) Hnd') as [HwAp [HnAp [HcAp Hent]]].
    split; [exact HwAp|]. split; [congruence|]. split; [congruence|].
    intros k j Hk.
    assert (Hk' : (k < nrow Ap')%nat) by (now rewrite Hn').
    destruct (Hent k j Hk') as [H1 H2].
    split.
    + intros q' [Hq | Hq] Hm.
      * subst q'. exists Acols. split; [exact EA|].
        rewrite H2.
        -- rewrite (set_columns_entry _ _ _ _ k j ES Hwf HwA Hk). now rewrite Hm.
        -- intros q'' Hq''. apply flag_mask_nth in Hm. destruct Hm as [Hj Hf].
           destruct (nth j (flag_mask refFlag q'') false) eqn:E; [|reflexivity].
           apply flag_mask_nth in E. destruct E as [_ E].
           assert (q'' = q) by lia. subst q''. contradiction.
      * now apply H1.
    + intros Hnone. rewrite H2 by (intros; apply Hnone; now right).
      rewrite (set_columns_entry _ _ _ _ k j ES Hwf HwA Hk).
      now rewrite (Hnone q (or_introl eq_refl)).
Qed.

(** The block of one source, when it is returned: a cell flagged with a
    level [qq] in 1..refFact has its column replaced by the sum, over its
    [(2^qq)^3] sub-cells, of the columns that the same prism kernel and
    inducing-field embedding give on the sub-mesh of that level; a cell
    flagged outside 1..refFact (level 0) keeps the column of the unrefined
    kernel. *)
Theorem refinement_collapse :
  forall (srcObj : Src) (refFact : Z) (refRadius : radii) (xyzc xyzh Ap : matrix),
    A_block refFact refRadius xyzc xyzh srcObj = Ok Ap ->
    let refFlag := _getRefineFlags srcObj xyzc refFact refRadius in
    exists G0 H00 A0,
      _getGeometryMatrix srcObj xyzc xyzh = Ok G0
      /\ _getH0matrix srcObj xyzc = Ok H00
      /\ matmul G0 H00 = Ok A0
      /\ nrow Ap = nRx srcObj /\ ncol Ap = ncol A0
      /\ forall k j,
          (k < nRx srcObj)%nat ->
          (forall qq,
              (1 <= qq)%nat -> (Z.of_nat qq <= refFact)%Z ->
              (j < length refFlag)%nat -> nth j refFlag 0%Z = Z.of_nat qq ->
              exists sub G H0 B,
                submesh xyzc xyzh qq refFlag = Ok sub
                /\ _getGeometryMatrix srcObj (fst sub) (snd sub) = Ok G
                /\ _getH0matrix srcObj (fst sub) = Ok H0
                /\ matmul G H0 = Ok B
                /\ entry Ap k j
                   = group_sum (nth k (rows B) []) (rank (flag_mask refFlag qq) j)
                       ((2 ^ qq) ^ 3))
          /\ ((nth j refFlag 0 < 1 \/ refFact < nth j refFlag 0)%Z ->
              entry Ap k j = entry A0 k j).
Proof.
  intros srcObj refFact refRadius xyzc xyzh Ap H refFlag.
  unfold A_block in H.
  destruct (_getGeometryMatrix srcObj xyzc xyzh) as [G0 | e] eqn:EG; cbn [bind] in H;
    [|discriminate].
  destruct (_getH0matrix srcObj xyzc) as [H00 | e] eqn:EH; cbn [bind] in H;
    [|discriminate].
  destruct (matmul G0 H00) as [A0 | e] eqn:EA; cbn [bind] in H; [|discriminate].
  exists G0, H00, A0.
  split; [reflexivity|]. split; [reflexivity|]. split; [exact EA|].
  destruct (geometry_matrix_shape _ _ _ _ EG) as [HGr [HGn _]].
  pose proof (matmul_wf _ _ _ EA HGr) as HwA0.
  destruct (matmul_ok _ _ _ EA) as [_ [HA0n _]].
  assert (HnA0 : nrow A0 = nRx srcObj) by congruence.
  destruct (0 <? refFact)%Z eqn:Eref.
  - apply Z.ltb_lt in Eref. fold refFlag in H.
    destruct (refine_loop_spec _ _ _ _ _ _ _ H HwA0 HnA0 (seq_NoDup _ _))
      as [_ [Hn [Hc Hent]]].
    split; [congruence|]. split; [exact Hc|].
    intros k j Hk. rewrite <- HnA0 in Hk. destruct (Hent k j Hk) as [H1 H2].
    split.
    + intros qq Hq1 Hq2 Hj Hflag.
      assert (Hm : nth j (flag_mask refFlag qq) false = true)
        by (apply flag_mask_nth; auto).
      destruct (H1 qq) as [Acols [EAc Hentry]]; [apply in_seq; lia | exact Hm |].
      destruct (subset_columns_spec _ _ _ _ _ _ EAc)
        as [sub [G [H0 [B [E1 [E2 [E3 [E4 [_ [_ Hsum]]]]]]]]]].
      exists sub, G, H0, B. repeat (split; [assumption|]).
      rewrite Hentry. apply Hsum; [congruence | now apply rank_lt].
    + intros Hout. apply H2. intros q Hq.
      destruct (nth j (flag_mask refFlag q) false) eqn:E; [|reflexivity].
      apply flag_mask_nth in E. destruct E as [_ E]. apply in_seq in Hq. lia.
  - apply Z.ltb_ge in Eref. inversion H; subst.
    split; [exact HnA0|]. split; [reflexivity|].
    intros k j Hk. split; [intros; lia | reflexivity].
Qed.

(** The block of the unit cell flagged for one level of refinement is
    returned. *)
Lemma near_block_returns :
  exists Ap,
    A_block 1 (NdArray [1.25]) (gridCC unit_mesh) (gridH unit_mesh) near_source = Ok Ap.
Proof. eexists. reflexivity. Qed.

(** The theorem at that block: its column is the sum over the eight
    sub-cells of the cell. *)
Lemma refinement_collapse_witness :
  exists Ap,
    A_block 1 (NdArray [1.25]) (gridCC unit_mesh) (gridH unit_mesh) near_source = Ok Ap
    /\ exists sub G H0 B,
        submesh (gridCC unit_mesh) (gridH unit_mesh) 1 [1%Z] = Ok sub
        /\ _getGeometryMatrix near_source (fst sub) (snd sub) = Ok G
        /\ _getH0matrix near_source (fst sub) = Ok H0
        /\ matmul G H0 = Ok B
        /\ entry Ap 0 0 = group_sum (nth 0 (rows B) []) 0 8.
Proof.
  destruct near_block_returns as [Ap HAp].
  exists Ap. split; [exact HAp|].
  destruct (refinement_collapse near_source 1 (NdArray [1.25])
              (gridCC unit_mesh) (gridH unit_mesh) Ap HAp)
    as [G0 [H00 [A0 [_ [_ [_ [_ [_ Hent]]]]]]]].
  destruct (Hent 0%nat 0%nat (Nat.lt_0_succ 0)) as [H1 _].
  exact (H1 1%nat (Nat.le_refl 1) (Z.le_refl 1) (Nat.lt_0_succ 0) eq_refl).
Defined.

(** ** The sub-mesh of a refinement level *)

Lemma nth_flat_map_block {X Y : Type} (f : X -> list Y) (g : nat) (dx : X) (d : Y) :
  forall (l : list X) (i c : nat),
    (forall x, In x l -> length (f x) = g) ->
    (i < length l)%nat -> (c < g)%nat ->
    nth (i * g + c) (flat_map f l) d = nth c (f (nth i l dx)) d.
Proof.
  induction l as [|x l IH]; intros i c Hf Hi Hc; [cbn in Hi; lia|].
  cbn [flat_map]. destruct i as [|i].
  - cbn [Nat.mul Nat.add nth]. apply app_nth1. rewrite (Hf x) by (now left). exact Hc.
  - rewrite app_nth2 by (rewrite (Hf x) by (now left); cbn; lia).
    rewrite (Hf x) by (now left).
    replace (S i * g + c - g)%nat with (i * g + c)%nat by (cbn; lia).
    cbn [nth]. apply IH; [intros; apply Hf; now right | cbn in Hi; lia | exact Hc].
Qed.

Lemma flat_map_block_length {X Y : Type} (f : X -> list Y) (g : nat) :
  forall (l : list X),
    (forall x, In x l -> length (f x) = g) ->
    length (flat_map f l) = (length l * g)%nat.
Proof.
  induction l as [|x l IH]; intros Hf; [reflexivity|].
  cbn [flat_map length]. rewrite length_app, (Hf x) by (now left).
  rewrite IH by (intros; apply Hf; now right). cbn. lia.
Qed.

Lemma select_rank {X : Type} (d : X) (mask : list bool) :
  forall (l : list X) (j : nat),
    length mask = length l -> nth j mask false = true ->
    nth (rank mask j) (select mask l) d = nth j l d.
Proof.
  unfold rank. induction mask as [|b mask IH]; intros [|x l] j Hl Hj;
    try discriminate.
  - destruct j; discriminate.
  - cbn in Hl. injection Hl as Hl. destruct j as [|j].
    + cbn in Hj. subst b. reflexivity.
    + cbn [nth] in Hj. cbn [firstn select nth]. rewrite count_true_cons.
      destruct b; cbn [Nat.add nth]; now apply IH.
Qed.

(** The rows of [kron(ones((m, 1)), X)]: the rows of [X] (times 1), [m]
    times over. *)
Lemma ones_kron_rows (m : nat) (X : matrix) :
  rows (kron (np_ones m 1) X)
  = flat_map (fun _ : list R => map (fun rb => map (Rmult 1) rb ++ []) (rows X))
             (repeat [1] m).
Proof.
  unfold kron, np_ones. cbn [rows repeat].
  induction m as [|m IH]; cbn [repeat flat_map]; [reflexivity|].
  now rewrite IH.
Qed.

Lemma offsets_1d_nth (n i : nat) :
  (i < n)%nat -> nth i (offsets_1d n) 0 = INR (S i) - 0.5.
Proof.
  intros H. unfold offsets_1d.
  rewrite (nth_map_lt _ _ _ 0%nat) by (now rewrite length_seq).
  rewrite seq_nth by assumption. rewrite S_INR. cbn [Nat.add]. ring.
Qed.

Lemma offsets_1d_length (n : nat) : length (offsets_1d n) = n.
Proof. unfold offsets_1d. now rewrite length_map, length_seq. Qed.

(** The offsets of the sub-cells: the child number [iz*n*n + ix*n + iy] of
    a cell sits at [(ix + 1 - 0.5, iy + 1 - 0.5, iz + 1 - 0.5)] sub-cell
    widths from the corner of the cell. *)
Lemma nxyz_sub_row (n ix iy iz : nat) :
  (ix < n)%nat -> (iy < n)%nat -> (iz < n)%nat ->
  nth (iz * (n * n) + (ix * n + iy)) (rows (nxyz_sub n)) []
  = [INR (S ix) - 0.5; INR (S iy) - 0.5; INR (S iz) - 0.5].
Proof.
  intros Hx Hy Hz. unfold nxyz_sub. cbn [rows].
  assert (Hin : forall x : R,
             length (map (fun y : R => [x; y; nth iz (offsets_1d n) 0]) (offsets_1d n)) = n)
    by (intros; now rewrite length_map, offsets_1d_length).
  rewrite (nth_flat_map_block _ (n * n) 0 []).
  - rewrite (nth_flat_map_block _ n 0 []).
    + rewrite (nth_map_lt _ _ _ 0) by (now rewrite offsets_1d_length).
      now rewrite !offsets_1d_nth.
    + intros. now rewrite length_map, offsets_1d_length.
    + now rewrite offsets_1d_length.
    + exact Hy.
  - intros z _. rewrite (flat_map_block_length _ n).
    + now rewrite offsets_1d_length.
    + intros. now rewrite length_map, offsets_1d_length.
  - now rewrite offsets_1d_length.
  - nia.
Qed.

Lemma nxyz_sub_length (n : nat) : length (rows (nxyz_sub n)) = (n ^ 3)%nat.
Proof.
  unfold nxyz_sub. cbn [rows].
  rewrite (flat_map_block_length _ (n * n)).
  - rewrite offsets_1d_length. cbn. lia.
  - intros z _. rewrite (flat_map_block_length _ n).
    + now rewrite offsets_1d_length.
    + intros. now rewrite length_map, offsets_1d_length.
Qed.

Lemma row3 (r : vec) : length r = 3%nat -> exists a b c, r = [a; b; c].
Proof.
  destruct r as [|a [|b [|c [|d r]]]]; cbn; intros H; try discriminate.
  now exists a, b, c.
Qed.

Lemma mask_rows_ok (mask : list bool) (M : matrix) :
  length mask = nrow M ->
  mask_rows mask M = Ok (Mat (count_true mask) (ncol M) (select mask (rows M))).
Proof. intros H. unfold mask_rows. now rewrite H, Nat.eqb_refl. Qed.

(** The sub-mesh of the level [qq]: each flagged cell is split into
    [n = 2^qq] equal sub-cells per axis, of widths [h/n], and the child
    number [iz*n*n + ix*n + iy] is centred at
    [corner + (k - 0.5) * h/n] along each axis, where the corner is
    [centre - h/2] and [k] is [ix + 1], [iy + 1], [iz + 1] along x, y, z. *)
Theorem submesh_geometry :
  forall (xyzc xyzh : matrix) (qq : nat) (refFlag : list Z),
    wf xyzc -> wf xyzh -> ncol xyzc = 3%nat -> ncol xyzh = 3%nat ->
    nrow xyzc = length refFlag -> nrow xyzh = length refFlag ->
    let n := (2 ^ qq)%nat in
    let mask := flag_mask refFlag qq in
    exists xyzc_sub xyzh_sub,
      submesh xyzc xyzh qq refFlag = Ok (xyzc_sub, xyzh_sub)
      /\ nrow xyzc_sub = (count_true mask * n ^ 3)%nat
      /\ nrow xyzh_sub = (count_true mask * n ^ 3)%nat
      /\ forall j ix iy iz a,
          nth j mask false = true ->
          (ix < n)%nat -> (iy < n)%nat -> (iz < n)%nat -> (a < 3)%nat ->
          let child := (rank mask j * n ^ 3 + (iz * (n * n) + (ix * n + iy)))%nat in
          let k := nth a [INR (S ix); INR (S iy); INR (S iz)] 0 in
          entry xyzh_sub child a = entry xyzh j a / INR n
          /\ entry xyzc_sub child a
             = (entry xyzc j a - entry xyzh j a / 2)
               + (k - 0.5) * (entry xyzh j a / INR n).
Proof.
  intros xyzc xyzh qq refFlag [Hcr Hcc] [Hhr Hhc] Hc3 Hh3 Hcn Hhn n mask.
  assert (Hml : length mask = length refFlag) by (unfold mask, flag_mask; apply length_map).
  unfold submesh. fold n. fold mask.
  rewrite !(mask_rows_ok mask xyzh) by congruence.
  rewrite (mask_rows_ok mask xyzc) by congruence.
  cbn [bind]. do 2 eexists. split; [reflexivity|].
  split; [reflexivity|]. split; [reflexivity|].
  intros j ix iy iz a Hj Hx Hy Hz Ha.
  set (g := (n ^ 3)%nat) in *.
  set (c := (iz * (n * n) + (ix * n + iy))%nat) in *.
  set (i := rank mask j) in *.
  set (child := (i * g + c)%nat) in *.
  assert (Hi : (i < count_true mask)%nat) by (now apply rank_lt).
  assert (Hcg : (c < g)%nat) by (unfold c, g; cbn [Nat.pow]; nia).
  assert (Hjl : (j < length refFlag)%nat) by (apply flag_mask_nth in Hj; tauto).
  assert (HWs : length (select mask (rows xyzh)) = count_true mask)
    by (apply select_length; congruence).
  assert (HCs : length (select mask (rows xyzc)) = count_true mask)
    by (apply select_length; congruence).
  assert (HW : nth i (select mask (rows xyzh)) [] = nth j (rows xyzh) [])
    by (apply select_rank; [congruence | exact Hj]).
  assert (HC : nth i (select mask (rows xyzc)) [] = nth j (rows xyzc) [])
    by (apply select_rank; [congruence | exact Hj]).
  destruct (row3 (nth j (rows xyzh) [])) as [hx [hy [hz Eh]]].
  { rewrite <- Hh3. rewrite Forall_forall in Hhc. apply Hhc, nth_In. lia. }
  destruct (row3 (nth j (rows xyzc) [])) as [cx [cy [cz Ec]]].
  { rewrite <- Hc3. rewrite Forall_forall in Hcc. apply Hcc, nth_In. lia. }
  (* the row of the widths of the child *)
  assert (Rh : nth child
                 (rows (kron (mat_map (fun x => x / INR n)
                                (Mat (count_true mask) (ncol xyzh)
                                   (select mask (rows xyzh))))
                          (np_ones g 1))) []
               = [hx / INR n * 1; hy / INR n * 1; hz / INR n * 1]).
  { rewrite kron_ones_rows. unfold child.
    rewrite (nth_flat_map_block _ g [] []);
      [ | intros; apply repeat_length
        | cbn [rows mat_map]; rewrite length_map; lia | exact Hcg ].
    rewrite nth_repeat_lt by exact Hcg. cbn [rows mat_map].
    rewrite (nth_map_lt _ _ _ []) by lia. rewrite HW, Eh. reflexivity. }
  (* the row of the corner of the cell *)
  assert (Rc : nth child
                 (rows (kron (mat_zip Rminus
                                (Mat (count_true mask) (ncol xyzc)
                                   (select mask (rows xyzc)))
                                (mat_map (fun x => x / 2)
                                   (Mat (count_true mask) (ncol xyzh)
                                      (select mask (rows xyzh)))))
                          (np_ones g 1))) []
               = [(cx - hx / 2) * 1; (cy - hy / 2) * 1; (cz - hz / 2) * 1]).
  { rewrite kron_ones_rows. unfold child.
    rewrite (nth_flat_map_block _ g [] []);
      [ | intros; apply repeat_length
        | cbn [rows mat_zip mat_map]; rewrite zip_with_length, length_map; lia
        | exact Hcg ].
    rewrite nth_repeat_lt by exact Hcg. cbn [rows mat_zip mat_map].
    rewrite (nth_zip_with _ _ _ _ [] [] []) by (rewrite ?length_map; lia).
    rewrite (nth_map_lt _ _ _ []) by lia. rewrite HW, HC, Eh, Ec. reflexivity. }
  (* the row of the offsets of the child *)
  assert (Ro : nth child
                 (rows (kron (np_ones (count_true mask) 1) (nxyz_sub n))) []
               = [1 * (INR (S ix) - 0.5); 1 * (INR (S iy) - 0.5);
                  1 * (INR (S iz) - 0.5)]).
  { rewrite ones_kron_rows. unfold child.
    rewrite (nth_flat_map_block _ g [] []);
      [ | intros; rewrite length_map; apply nxyz_sub_length
        | rewrite repeat_length; exact Hi | exact Hcg ].
    rewrite (nth_map_lt _ _ _ []) by (rewrite nxyz_sub_length; exact Hcg).
    unfold c. rewrite nxyz_sub_row by assumption. reflexivity. }
  assert (Hlen1 : forall M, length (rows (kron M (np_ones g 1))) = (length (rows M) * g)%nat).
  { intros M. rewrite kron_ones_rows. apply flat_map_block_length.
    intros. apply repeat_length. }
  assert (Hchild : (child < count_true mask * g)%nat) by (unfold child; nia).
  split.
  - unfold entry at 1. cbn [rows snd].
    rewrite Rh. unfold entry. rewrite Eh.
    destruct a as [|[|[|a]]]; cbn [nth]; try lia; ring.
  - unfold entry at 1. cbn [rows fst mat_zip nrow].
    rewrite (nth_zip_with _ _ _ _ [] [] []).
    + rewrite Rc.
      rewrite (nth_zip_with _ _ _ _ [] [] []).
      * rewrite Rh, Ro. unfold entry. rewrite Ec, Eh.
        destruct a as [|[|[|a]]]; cbn [nth zip_with]; try lia; ring.
      * rewrite Hlen1. cbn [rows mat_map]. rewrite length_map. lia.
      * rewrite ones_kron_rows, (flat_map_block_length _ g).
        -- rewrite repeat_length. exact Hchild.
        -- intros. rewrite length_map. apply nxyz_sub_length.
    + rewrite Hlen1. cbn [rows mat_zip mat_map].
      rewrite zip_with_length, length_map. lia.
    + rewrite zip_with_length, Hlen1. cbn [rows mat_map]. rewrite length_map.
      rewrite ones_kron_rows, (flat_map_block_length _ g).
      * rewrite repeat_length. lia.
      * intros. rewrite length_map. apply nxyz_sub_length.
Qed.

(** The theorem at the unit cell split in two per axis: the child number 6
    (second along x, first along y, second along z) has width 1/2 and its
    centre along x is 1.5 half-widths from the corner. *)
Lemma submesh_geometry_witness :
  exists xyzc_sub xyzh_sub,
    submesh (gridCC unit_mesh) (gridH unit_mesh) 1 [1%Z] = Ok (xyzc_sub, xyzh_sub)
    /\ nrow xyzc_sub = 8%nat
    /\ entry xyzh_sub 6 0 = 1 / INR 2
    /\ entry xyzc_sub 6 0 = (0.5 - 1 / 2) + (INR 2 - 0.5) * (1 / INR 2).
Proof.
  destruct (submesh_geometry (gridCC unit_mesh) (gridH unit_mesh) 1 [1%Z])
    as [cs [hs [E [N1 [_ Hent]]]]];
    try reflexivity; try (split; [reflexivity | repeat constructor]).
  exists cs, hs. split; [exact E|]. split; [exact N1|].
  destruct (Hent 0%nat 1%nat 0%nat 1%nat 0%nat) as [Hh Hc];
    try reflexivity; try (cbn; lia).
  split; [exact Hh | exact Hc].
Defined.

(** ** When the block of a source is returned *)

Lemma kernel_row_total (dComp : string) (xyzc xyzh : matrix) (loc : vec) :
  rows xyzh <> [] ->
  kernel_row dComp xyzc xyzh loc = None
  \/ exists row, kernel_row dComp xyzc xyzh loc = Some (Ok row).
Proof.
  intros Hne.
  assert (Hcol : forall k, col k xyzh <> []).
  { intros k Hk. apply (f_equal (@length R)) in Hk. rewrite col_length in Hk.
    destruct (rows xyzh); [congruence | discriminate]. }
  destruct (np_min_spec _ (Hcol 0%nat)) as [mx [Ex _]].
  destruct (np_min_spec _ (Hcol 1%nat)) as [my [Ey _]].
  destruct (np_min_spec _ (Hcol 2%nat)) as [mz [Ez _]].
  pose proof (nudged_diffs_ok xyzc xyzh loc mx my mz Ex Ey Ez) as Hd.
  unfold kernel_row.
  destruct (String.eqb dComp "x"); [right; rewrite Hd; eexists; reflexivity|].
  destruct (String.eqb dComp "y"); [right; rewrite Hd; eexists; reflexivity|].
  destruct (String.eqb dComp "z"); [right; rewrite Hd; eexists; reflexivity|].
  now left.
Qed.

Lemma rr_loop_returns (dComp : string) (xyzc xyzh : matrix) (ls : list vec) :
  rows xyzh <> [] ->
  forall st,
    (snd st + length ls <= length (fst st))%nat ->
    exists st',
      rr_loop dComp xyzc xyzh ls st = Ok st'
      /\ (snd st' <= snd st + length ls)%nat
      /\ length (fst st') = length (fst st).
Proof.
  intros Hne. induction ls as [|loc ls IH]; intros st Hst; cbn [rr_loop].
  - exists st. repeat split; lia.
  - destruct (kernel_row_total dComp xyzc xyzh loc Hne) as [E | [row E]]; rewrite E.
    + exists st. cbn [length]. repeat split; lia.
    + cbn [bind]. unfold set_row. cbn [length] in Hst.
      assert (Hlt : Nat.ltb (snd st) (length (fst st)) = true)
        by (apply Nat.ltb_lt; lia).
      rewrite Hlt. cbn [bind].
      destruct (IH (update (fst st) (snd st) row, S (snd st))) as [st' [E' [Hc Hl]]].
      { cbn [fst snd]. rewrite update_length. lia. }
      exists st'. split; [exact E'|]. cbn [fst snd] in Hc, Hl.
      rewrite update_length in Hl. cbn [length]. split; [lia | exact Hl].
Qed.

Lemma qq_loop_returns (xyzc xyzh : matrix) (rxs : list Rx) :
  rows xyzh <> [] ->
  forall st,
    (snd st + list_sum (map (fun rx => length (rows (locs rx))) rxs)
     <= length (fst st))%nat ->
    exists st', qq_loop xyzc xyzh rxs st = Ok st'.
Proof.
  intros Hne. induction rxs as [|rx rxs IH]; intros st Hst; cbn [qq_loop].
  - now exists st.
  - change (list_sum (map (fun rx0 => length (rows (locs rx0))) (rx :: rxs)))
      with (length (rows (locs rx))
            + list_sum (map (fun rx0 => length (rows (locs rx0))) rxs))%nat in Hst.
    destruct (rr_loop_returns (fieldComp rx) xyzc xyzh (rows (locs rx)) Hne st)
      as [st1 [E1 [Hc Hl]]]; [lia|].
    rewrite E1. cbn [bind]. apply IH. lia.
Qed.

(** For a non-empty array of cells the geometry matrix is returned. *)
Lemma geometry_matrix_returns (srcObj : Src) (xyzc xyzh : matrix) :
  rows xyzh <> [] -> receivers_fit srcObj ->
  exists G, _getGeometryMatrix srcObj xyzc xyzh = Ok G.
Proof.
  intros Hne Hfit. unfold _getGeometryMatrix.
  destruct (qq_loop_returns xyzc xyzh (rxList srcObj) Hne
              (rows (np_zeros (nRx srcObj) (3 * nrow xyzc)), 0%nat)) as [st E].
  { cbn [fst snd np_zeros rows]. rewrite repeat_length. exact Hfit. }
  rewrite E. cbn [bind]. eexists. reflexivity.
Qed.

(** The inducing-field operator is always returned, three diagonal blocks
    high. *)
Lemma H0_matrix_returns (srcObj : Src) (xyz : matrix) :
  exists H0,
    _getH0matrix srcObj xyz = Ok H0
    /\ nrow H0 = (3 * length (rows (getH0 srcObj xyz)))%nat
    /\ ncol H0 = length (rows (getH0 srcObj xyz)).
Proof.
  unfold _getH0matrix, vstack. cbn [forallb ncol diags].
  rewrite !col_length, Nat.eqb_refl. cbn [andb].
  eexists. split; [reflexivity|]. cbn [nrow ncol map list_sum fold_right diags].
  rewrite !col_length. split; lia.
Qed.

Lemma kron_ones_length (M : matrix) (g : nat) :
  length (rows (kron M (np_ones g 1))) = (length (rows M) * g)%nat.
Proof.
  rewrite kron_ones_rows. apply flat_map_block_length. intros. apply repeat_length.
Qed.

Lemma pow2_cube_pos (qq : nat) : (0 < (2 ^ qq) ^ 3)%nat.
Proof.
  assert (H : (0 < 2 ^ qq)%nat) by (apply Nat.neq_0_lt_0, Nat.pow_nonzero; lia).
  cbn [Nat.pow]. nia.
Qed.

(** The sub-mesh of a level is returned when there is one flag per cell,
    and it has cells when a cell is flagged with the level. *)
Lemma submesh_returns (xyzc xyzh : matrix) (qq : nat) (refFlag : list Z) :
  length refFlag = nrow xyzc -> length refFlag = nrow xyzh ->
  length (rows xyzc) = nrow xyzc -> length (rows xyzh) = nrow xyzh ->
  exists sub,
    submesh xyzc xyzh qq refFlag = Ok sub
    /\ nrow (fst sub) = (count_true (flag_mask refFlag qq) * (2 ^ qq) ^ 3)%nat
    /\ length (rows (fst sub)) = nrow (fst sub)
    /\ ((exists j, nth j (flag_mask refFlag qq) false = true) -> rows (snd sub) <> []).
Proof.
  intros Hc Hh Hrc Hr.
  assert (Hml : length (flag_mask refFlag qq) = length refFlag)
    by (unfold flag_mask; apply length_map).
  unfold submesh.
  rewrite !(mask_rows_ok _ xyzh) by congruence.
  rewrite (mask_rows_ok _ xyzc) by congruence.
  cbn [bind]. eexists. split; [reflexivity|]. split; [reflexivity|].
  split.
  { cbn [fst]. unfold mat_zip. cbn [rows nrow].
    rewrite !zip_with_length, !kron_ones_length, ones_kron_rows.
    rewrite (flat_map_block_length _ ((2 ^ qq) ^ 3))
      by (intros; rewrite length_map; apply nxyz_sub_length).
    cbn [rows mat_zip mat_map nrow kron np_ones].
    rewrite zip_with_length, !length_map, repeat_length, !select_length by congruence.
    lia. }
  intros [j Hj] Hnil. cbn [snd] in Hnil.
  apply (f_equal (@length (list R))) in Hnil.
  rewrite kron_ones_length in Hnil. cbn [rows mat_map length] in Hnil.
  rewrite length_map, select_length in Hnil by congruence.
  pose proof (rank_lt _ _ Hj). pose proof (pow2_cube_pos qq). nia.
Qed.

(** The refined columns of a level with a flagged cell are returned. *)
Lemma subset_columns_returns (srcObj : Src) (xyzc xyzh : matrix) (qq : nat)
  (refFlag : list Z) :
  H0_per_point srcObj -> receivers_fit srcObj ->
  length refFlag = nrow xyzc -> length refFlag = nrow xyzh ->
  length (rows xyzc) = nrow xyzc -> length (rows xyzh) = nrow xyzh ->
  (exists j, nth j (flag_mask refFlag qq) false = true) ->
  exists Acols,
    _getSubsetAcolumns srcObj xyzc xyzh qq refFlag = Ok Acols
    /\ ncol Acols = count_true (flag_mask refFlag qq).
Proof.
  intros HH0 Hfit Hc Hh Hrc Hr Hex. unfold _getSubsetAcolumns.
  destruct (submesh_returns xyzc xyzh qq refFlag Hc Hh Hrc Hr)
    as [sub [Esub [Hn [Hsr Hne]]]].
  rewrite Esub. cbn [bind].
  destruct (geometry_matrix_returns srcObj (fst sub) (snd sub) (Hne Hex) Hfit) as [G EG].
  rewrite EG. cbn [bind].
  destruct (H0_matrix_returns srcObj (fst sub)) as [H0 [EH [HH0n HH0c]]].
  rewrite EH. cbn [bind].
  destruct (geometry_matrix_shape _ _ _ _ EG) as [_ [_ HGc]].
  assert (EB : exists B, matmul G H0 = Ok B /\ ncol B = nrow (fst sub)).
  { unfold matmul. rewrite HGc, HH0n, (HH0 (fst sub) Hsr), Nat.eqb_refl.
    eexists. split; [reflexivity|]. cbn [ncol]. now rewrite HH0c, (HH0 (fst sub) Hsr). }
  destruct EB as [B [EB HBc]]. rewrite EB. cbn [bind].
  unfold matmul, collapse. cbn [nrow ncol kron diags np_ones].
  rewrite HBc, Hn, !repeat_length, Nat.eqb_refl.
  eexists. split; [reflexivity|]. cbn [ncol]. lia.
Qed.

(** The loop over levels that all have a flagged cell returns. *)
Lemma refine_loop_returns (srcObj : Src) (xyzc xyzh : matrix) (refFlag : list Z) :
  H0_per_point srcObj -> receivers_fit srcObj ->
  length refFlag = nrow xyzc -> length refFlag = nrow xyzh ->
  length (rows xyzc) = nrow xyzc -> length (rows xyzh) = nrow xyzh ->
  forall (qqs : list nat) (Ap0 : matrix),
    (forall q, In q qqs -> exists j, nth j (flag_mask refFlag q) false = true) ->
    nrow Ap0 = nRx srcObj -> ncol Ap0 = length refFlag ->
    exists Ap, refine_loop srcObj xyzc xyzh refFlag qqs Ap0 = Ok Ap.
Proof.
  intros HH0 Hfit Hc Hh Hrc Hr.
  induction qqs as [|q qs IH]; intros Ap0 Hlev Hn Hcol; cbn [refine_loop].
  - now exists Ap0.
  - destruct (subset_columns_returns srcObj xyzc xyzh q refFlag HH0 Hfit Hc Hh Hrc Hr)
      as [Acols [EA HAc]]; [apply Hlev; now left|].
    rewrite EA. cbn [bind].
    destruct (subset_columns_spec _ _ _ _ _ _ EA)
      as [sub [G [H0 [B [_ [_ [_ [_ [_ [HAn _]]]]]]]]]].
    assert (ES : exists Ap', set_columns (flag_mask refFlag q) Ap0 Acols = Ok Ap').
    { unfold set_columns, flag_mask at 1. rewrite length_map, Hcol, Nat.eqb_refl.
      cbn [negb]. rewrite HAn, Hn, HAc, !Nat.eqb_refl. cbn [andb]. eexists. reflexivity. }
    destruct ES as [Ap' ES]. rewrite ES. cbn [bind].
    destruct (set_columns_ok _ _ _ _ ES) as [_ [_ [_ [Hn' [Hc' _]]]]].
    apply IH; [intros; apply Hlev; now right | congruence | congruence].
Qed.

(** The block of a source, when it is returned, has one row per datum of
    the source and one column per cell. *)
Lemma A_block_wf (srcObj : Src) (refFact : Z) (refRadius : radii)
  (xyzc xyzh Ap : matrix) :
  A_block refFact refRadius xyzc xyzh srcObj = Ok Ap ->
  wf Ap /\ nrow Ap = nRx srcObj /\ ncol Ap = nrow xyzc.
Proof.
  intros H. unfold A_block in H.
  destruct (_getGeometryMatrix srcObj xyzc xyzh) as [G0 | e] eqn:EG; cbn [bind] in H;
    [|discriminate].
  destruct (_getH0matrix srcObj xyzc) as [H00 | e] eqn:EH; cbn [bind] in H;
    [|discriminate].
  destruct (matmul G0 H00) as [A0 | e] eqn:EA; cbn [bind] in H; [|discriminate].
  destruct (geometry_matrix_shape _ _ _ _ EG) as [HGr [HGn HGc]].
  pose proof (matmul_wf _ _ _ EA HGr) as HwA0.
  destruct (matmul_ok _ _ _ EA) as [Hsh [HA0n [HA0c _]]].
  destruct (H0_matrix_returns srcObj xyzc) as [H0' [EH' [Hn Hc]]].
  rewrite EH in EH'. inversion EH'; subst H0'; clear EH'.
  assert (HnA0 : nrow A0 = nRx srcObj) by congruence.
  assert (HcA0 : ncol A0 = nrow xyzc) by lia.
  destruct (0 <? refFact)%Z.
  - destruct (refine_loop_spec _ _ _ _ _ _ _ H HwA0 HnA0 (seq_NoDup _ _))
      as [Hw [Hn' [Hc' _]]].
    split; [exact Hw|]. split; congruence.
  - inversion H; subst. auto.
Qed.

(** The block of a source is returned when there is at least one cell and
    one flag per cell, the inducing field is sampled once per point, the
    receivers fit the rows of the source, and every level in 1..refFact has
    a flagged cell. *)
Theorem A_block_returns :
  forall (srcObj : Src) (refFact : Z) (refRadius : radii) (xyzc xyzh : matrix),
    H0_per_point srcObj -> receivers_fit srcObj ->
    rows xyzh <> [] ->
    length (rows xyzc) = nrow xyzc -> length (rows xyzh) = nrow xyzh ->
    let refFlag := _getRefineFlags srcObj xyzc refFact refRadius in
    length refFlag = nrow xyzc -> length refFlag = nrow xyzh ->
    (forall qq, (1 <= qq)%nat -> (Z.of_nat qq <= refFact)%Z ->
                exists j, (j < length refFlag)%nat /\ nth j refFlag 0%Z = Z.of_nat qq) ->
    exists Ap,
      A_block refFact refRadius xyzc xyzh srcObj = Ok Ap
      /\ nrow Ap = nRx srcObj /\ ncol Ap = nrow xyzc.
Proof.
  intros srcObj refFact refRadius xyzc xyzh HH0 Hfit Hne Hrc Hr refFlag Hc Hh Hlev.
  assert (Hret : exists Ap, A_block refFact refRadius xyzc xyzh srcObj = Ok Ap).
  { unfold A_block.
    destruct (geometry_matrix_returns srcObj xyzc xyzh Hne Hfit) as [G EG].
    rewrite EG. cbn [bind].
    destruct (H0_matrix_returns srcObj xyzc) as [H0 [EH [HH0n HH0c]]].
    rewrite EH. cbn [bind].
    destruct (geometry_matrix_shape _ _ _ _ EG) as [_ [HGn HGc]].
    assert (EA : exists A0, matmul G H0 = Ok A0 /\ nrow A0 = nRx srcObj
                            /\ ncol A0 = nrow xyzc).
    { unfold matmul. rewrite HGc, HH0n, (HH0 xyzc Hrc), Nat.eqb_refl.
      eexists. split; [reflexivity|]. cbn [nrow ncol].
      split; [exact HGn | now rewrite HH0c, (HH0 xyzc Hrc)]. }
    destruct EA as [A0 [EA [HAn HAc]]]. rewrite EA. cbn [bind].
    destruct (0 <? refFact)%Z eqn:Eref; [|now exists A0].
    fold refFlag.
    apply (refine_loop_returns srcObj xyzc xyzh refFlag HH0 Hfit Hc Hh Hrc Hr);
      [|exact HAn | congruence].
    intros q Hq. apply in_seq in Hq. apply Z.ltb_lt in Eref.
    destruct (Hlev q) as [j [Hj Hf]]; [lia | lia |].
    exists j. apply flag_mask_nth. auto. }
  destruct Hret as [Ap HAp]. exists Ap. split; [exact HAp|].
  destruct (A_block_wf _ _ _ _ _ _ HAp) as [_ [Hn Hcol]]. split; assumption.
Qed.

(** The theorem at the unit cell flagged for one level. *)
Lemma A_block_returns_witness :
  H0_per_point near_source /\ receivers_fit near_source
  /\ exists Ap,
      A_block 1 (NdArray [1.25]) (gridCC unit_mesh) (gridH unit_mesh) near_source = Ok Ap
      /\ nrow Ap = 1%nat /\ ncol Ap = 1%nat.
Proof.
  assert (H1 : H0_per_point near_source).
  { intros xyz Hx. cbn. now rewrite length_map. }
  assert (H2 : receivers_fit near_source).
  { unfold receivers_fit. cbn. lia. }
  split; [exact H1|]. split; [exact H2|].
  apply (A_block_returns near_source 1 (NdArray [1.25])
           (gridCC unit_mesh) (gridH unit_mesh) H1 H2);
    try reflexivity; try discriminate.
  intros qq Hq1 Hq2. exists 0%nat. cbn. split; [lia | lia].
Defined.

(** ** The rows of the geometry matrix *)

Lemma nth_update {X : Type} (l : list X) (i k : nat) (x d : X) :
  nth k (update l i x) d
  = if (Nat.eqb k i && Nat.ltb i (length l))%bool then x else nth k l d.
Proof.
  revert i k. induction l as [|y l IH]; intros i k; cbn [update length].
  - rewrite andb_false_r. reflexivity.
  - destruct i as [|i]; destruct k as [|k]; cbn [nth Nat.eqb andb]; try reflexivity.
    rewrite IH. reflexivity.
Qed.

Lemma known_comp_row (dComp : string) (xyzc xyzh : matrix) (loc : vec) :
  known_comp dComp = false <-> kernel_row dComp xyzc xyzh loc = None.
Proof.
  unfold known_comp, kernel_row.
  destruct (String.eqb dComp "x"); [cbn; split; discriminate|].
  destruct (String.eqb dComp "y"); [cbn; split; discriminate|].
  destruct (String.eqb dComp "z"); [cbn; split; discriminate|].
  cbn. split; reflexivity.
Qed.

(** The loop over the locations of a receiver whose component has a
    branch writes the rows [COUNT], [COUNT + 1], ... in order and leaves the
    other rows alone. *)
Lemma rr_loop_rows (dComp : string) (xyzc xyzh : matrix) :
  known_comp dComp = true ->
  forall (ls : list vec) (st st' : list vec * nat),
    rr_loop dComp xyzc xyzh ls st = Ok st' ->
    (snd st <= length (fst st))%nat ->
    snd st' = (snd st + length ls)%nat
    /\ (snd st' <= length (fst st))%nat
    /\ (forall i, (i < length ls)%nat ->
          kernel_row dComp xyzc xyzh (nth i ls [])
          = Some (Ok (nth (snd st + i) (fst st') [])))
    /\ (forall k, (k < snd st \/ snd st' <= k)%nat ->
          nth k (fst st') [] = nth k (fst st) []).
Proof.
  intros Hk. induction ls as [|loc ls IH]; intros st st' E Hc; cbn [rr_loop] in E.
  - inversion E; subst. cbn [length].
    split; [lia|]. split; [exact Hc|]. split; [intros i Hi; lia | reflexivity].
  - destruct (kernel_row dComp xyzc xyzh loc) as [r|] eqn:Er.
    2:{ apply known_comp_row in Er. congruence. }
    destruct r as [row|e]; cbn [bind] in E; [|discriminate].
    unfold set_row in E.
    destruct (Nat.ltb (snd st) (length (fst st))) eqn:Hlt; cbn [bind] in E; [|discriminate].
    apply Nat.ltb_lt in Hlt.
    destruct (IH _ _ E) as [H1 [H2 [H3 H4]]];
      [cbn [fst snd]; rewrite update_length; lia|].
    cbn [fst snd] in H1, H2, H3, H4. rewrite update_length in H2.
    cbn [length]. split; [lia|]. split; [lia|]. split.
    + intros [|i] Hi; cbn [nth].
      * rewrite Er, Nat.add_0_r. rewrite H4 by lia.
        rewrite nth_update, Nat.eqb_refl. cbn [andb].
        apply Nat.ltb_lt in Hlt. now rewrite Hlt.
      * rewrite H3 by lia. now replace (S (snd st) + i)%nat with (snd st + S i)%nat by lia.
    + intros k Hk'. rewrite H4 by lia. rewrite nth_update.
      assert (Hne : Nat.eqb k (snd st) = false) by (apply Nat.eqb_neq; lia).
      now rewrite Hne.
Qed.

Lemma rr_loop_unknown (dComp : string) (xyzc xyzh : matrix) (ls : list vec)
  (st : list vec * nat) :
  known_comp dComp = false -> rr_loop dComp xyzc xyzh ls st = Ok st.
Proof.
  intros Hk. destruct ls as [|loc ls]; cbn [rr_loop]; [reflexivity|].
  now rewrite (proj1 (known_comp_row dComp xyzc xyzh loc) Hk).
Qed.

Lemma first_row_S (rx : Rx) (rxs : list Rx) (q : nat) :
  first_row (rx :: rxs) (S q) = (rows_written rx + first_row rxs q)%nat.
Proof. reflexivity. Qed.

Lemma qq_loop_rows (xyzc xyzh : matrix) :
  forall (rxs : list Rx) (st st' : list vec * nat),
    qq_loop xyzc xyzh rxs st = Ok st' ->
    (snd st <= length (fst st))%nat ->
    snd st' = (snd st + total_written rxs)%nat
    /\ (snd st' <= length (fst st))%nat
    /\ (forall q rr rx,
          nth_error rxs q = Some rx -> known_comp (fieldComp rx) = true ->
          (rr < length (rows (locs rx)))%nat ->
          kernel_row (fieldComp rx) xyzc xyzh (nth rr (rows (locs rx)) [])
          = Some (Ok (nth (snd st + first_row rxs q + rr) (fst st') [])))
    /\ (forall k, (k < snd st \/ snd st' <= k)%nat ->
          nth k (fst st') [] = nth k (fst st) []).
Proof.
  induction rxs as [|rx rxs IH]; intros st st' E Hc; cbn [qq_loop] in E.
  - inversion E; subst. unfold total_written. cbn [map list_sum fold_right].
    split; [lia|]. split; [lia|]. split; [|reflexivity].
    intros [|q] rr rx' Hq; discriminate.
  - destruct (rr_loop (fieldComp rx) xyzc xyzh (rows (locs rx)) st) as [st1|e] eqn:E1;
      cbn [bind] in E; [|discriminate].
    assert (Hl1 : length (fst st1) = length (fst st))
      by (apply (rr_loop_length _ _ _ _ _ _ E1)).
    assert (Hst1 : snd st1 = (snd st + rows_written rx)%nat
                   /\ (snd st1 <= length (fst st))%nat
                   /\ (known_comp (fieldComp rx) = true ->
                       forall i, (i < length (rows (locs rx)))%nat ->
                         kernel_row (fieldComp rx) xyzc xyzh (nth i (rows (locs rx)) [])
                         = Some (Ok (nth (snd st + i) (fst st1) [])))
                   /\ (forall k, (k < snd st \/ snd st1 <= k)%nat ->
                         nth k (fst st1) [] = nth k (fst st) [])).
    { unfold rows_written. destruct (known_comp (fieldComp rx)) eqn:Hk.
      - destruct (rr_loop_rows _ xyzc xyzh Hk _ _ _ E1 Hc) as [A1 [A2 [A3 A4]]].
        split; [exact A1|]. split; [exact A2|]. split; [intros _; exact A3 | exact A4].
      - rewrite (rr_loop_unknown _ xyzc xyzh _ st Hk) in E1. inversion E1; subst.
        split; [lia|]. split; [exact Hc|]. split; [discriminate | reflexivity]. }
    destruct Hst1 as [A1 [A2 [A3 A4]]].
    destruct (IH _ _ E) as [B1 [B2 [B3 B4]]]; [lia|].
    change (total_written (rx :: rxs)) with (rows_written rx + total_written rxs)%nat.
    split; [lia|]. split; [lia|]. split.
    + intros [|q] rr rx' Hq Hk Hrr; cbn [nth_error] in Hq.
      * inversion Hq; subst rx'. unfold first_row. cbn [firstn map list_sum fold_right].
        assert (Hw : rows_written rx = length (rows (locs rx)))
          by (unfold rows_written; now rewrite Hk).
        rewrite Nat.add_0_r. rewrite B4 by lia. now apply A3.
      * rewrite first_row_S. rewrite (B3 q rr rx' Hq Hk Hrr).
        do 3 f_equal. lia.
    + intros k Hk. rewrite B4 by lia. apply A4. lia.
Qed.

Lemma total_written_split (rxs : list Rx) (q : nat) (rx : Rx) :
  nth_error rxs q = Some rx ->
  (first_row rxs q + rows_written rx <= total_written rxs)%nat.
Proof.
  revert q. induction rxs as [|r rxs IH]; intros [|q] H; cbn [nth_error] in H;
    try discriminate.
  - inversion H; subst. unfold first_row, total_written.
    cbn [firstn map list_sum fold_right]. lia.
  - rewrite first_row_S.
    change (total_written (r :: rxs)) with (rows_written r + total_written rxs)%nat.
    specialize (IH q H). lia.
Qed.

(** The row of a location in the geometry matrix that is returned. *)
Lemma geometry_row (srcObj : Src) (xyzc xyzh G : matrix) (q rr : nat) (rx : Rx) :
  _getGeometryMatrix srcObj xyzc xyzh = Ok G ->
  nth_error (rxList srcObj) q = Some rx -> known_comp (fieldComp rx) = true ->
  (rr < length (rows (locs rx)))%nat ->
  kernel_row (fieldComp rx) xyzc xyzh (nth rr (rows (locs rx)) [])
  = Some (Ok (nth (first_row (rxList srcObj) q + rr) (rows G) []))
  /\ (first_row (rxList srcObj) q + rr < nRx srcObj)%nat.
Proof.
  intros H Hq Hk Hrr. unfold _getGeometryMatrix in H.
  destruct (qq_loop xyzc xyzh (rxList srcObj) _) as [st|e] eqn:E; cbn [bind] in H;
    [|discriminate].
  inversion H; subst G; clear H. cbn [rows].
  destruct (qq_loop_rows _ _ _ _ _ E) as [H1 [H2 [H3 H4]]];
    [cbn [fst snd]; lia|].
  cbn [fst snd np_zeros rows] in H1, H2, H3, H4. rewrite repeat_length in H2.
  split; [exact (H3 q rr rx Hq Hk Hrr)|].
  pose proof (total_written_split _ _ _ Hq) as Hs.
  unfold rows_written in Hs. rewrite Hk in Hs. lia.
Qed.

(** The geometry matrix, when it is returned: the receivers fill its rows
    from the top, in the order of the receivers and of their locations, a
    receiver whose component is none of x, y and z taking no row; the row of
    a location is the kernel row of the component of its receiver; and the
    rows below the last one written are zero. *)
Theorem geometry_matrix_rows :
  forall (srcObj : Src) (xyzc xyzh G : matrix),
    _getGeometryMatrix srcObj xyzc xyzh = Ok G ->
    let rxs := rxList srcObj in
    (total_written rxs <= nRx srcObj)%nat
    /\ (forall q rr rx,
          nth_error rxs q = Some rx -> known_comp (fieldComp rx) = true ->
          (rr < length (rows (locs rx)))%nat ->
          kernel_row (fieldComp rx) xyzc xyzh (nth rr (rows (locs rx)) [])
          = Some (Ok (nth (first_row rxs q + rr) (rows G) [])))
    /\ (forall k, (total_written rxs <= k < nRx srcObj)%nat ->
          nth k (rows G) [] = repeat 0 (3 * nrow xyzc)).
Proof.
  intros srcObj xyzc xyzh G H rxs. unfold _getGeometryMatrix in H.
  destruct (qq_loop xyzc xyzh (rxList srcObj) _) as [st|e] eqn:E; cbn [bind] in H;
    [|discriminate].
  inversion H; subst G; clear H. cbn [rows].
  destruct (qq_loop_rows _ _ _ _ _ E) as [H1 [H2 [H3 H4]]];
    [cbn [fst snd]; lia|].
  cbn [fst snd np_zeros rows] in H1, H2, H3, H4. rewrite repeat_length in H2.
  fold rxs in H1, H3. split; [lia|]. split.
  - intros q rr rx Hq Hk Hrr. exact (H3 q rr rx Hq Hk Hrr).
  - intros k Hk. rewrite H4 by lia. apply nth_repeat_lt. lia.
Qed.

(** The theorem at the source above the unit cell: its one location fills
    the row 0 with the kernel row of the z component. *)
Lemma geometry_matrix_rows_witness :
  exists G,
    _getGeometryMatrix far_source (gridCC unit_mesh) (gridH unit_mesh) = Ok G
    /\ (total_written (rxList far_source) <= nRx far_source)%nat
    /\ kernel_row "z" (gridCC unit_mesh) (gridH unit_mesh) [0.5; 0.5; 2]
       = Some (Ok (nth 0 (rows G) [])).
Proof.
  destruct (geometry_matrix_returns far_source (gridCC unit_mesh) (gridH unit_mesh))
    as [G EG]; [discriminate | unfold receivers_fit; cbn; lia |].
  exists G. split; [exact EG|].
  destruct (geometry_matrix_rows far_source _ _ G EG) as [H1 [H2 _]].
  split; [exact H1|].
  exact (H2 0%nat 0%nat rx_above eq_refl eq_refl (Nat.lt_0_succ 0)).
Defined.

(** ** The outcomes of the geometry matrix *)

Lemma rr_loop_nothing (rx : Rx) (xyzc xyzh : matrix) (st : list vec * nat) :
  rows_written rx = 0%nat ->
  rr_loop (fieldComp rx) xyzc xyzh (rows (locs rx)) st = Ok st.
Proof.
  unfold rows_written. destruct (known_comp (fieldComp rx)) eqn:Hk; intros H.
  - apply length_zero_iff_nil in H. now rewrite H.
  - now apply rr_loop_unknown.
Qed.

Lemma known_row_nonempty (dComp : string) (xyzc xyzh : matrix) (loc : vec) :
  known_comp dComp = true -> rows xyzh <> [] ->
  exists row, kernel_row dComp xyzc xyzh loc = Some (Ok row).
Proof.
  intros Hk Hne.
  destruct (kernel_row_total dComp xyzc xyzh loc Hne) as [E | E]; [|exact E].
  apply known_comp_row in E. congruence.
Qed.

Lemma known_row_empty (dComp : string) (xyzc xyzh : matrix) (loc : vec) :
  known_comp dComp = true -> rows xyzh = [] ->
  kernel_row dComp xyzc xyzh loc
  = Some (Raise (ValueError "zero-size array to reduction operation minimum which has no identity")).
Proof.
  intros Hk He. unfold known_comp in Hk. unfold kernel_row.
  rewrite (nudged_diffs_empty xyzc xyzh loc He).
  destruct (String.eqb dComp "x"); [reflexivity|].
  destruct (String.eqb dComp "y"); [reflexivity|].
  destruct (String.eqb dComp "z"); [reflexivity | discriminate].
Qed.

Lemma rr_loop_fits (dComp : string) (xyzc xyzh : matrix) :
  known_comp dComp = true -> rows xyzh <> [] ->
  forall (ls : list vec) (st : list vec * nat),
    (snd st + length ls <= length (fst st))%nat ->
    exists G, rr_loop dComp xyzc xyzh ls st = Ok (G, (snd st + length ls)%nat)
              /\ length G = length (fst st).
Proof.
  intros Hk Hne. induction ls as [|loc ls IH]; intros [G0 c0] Hst; cbn [fst snd] in *.
  - exists G0. cbn [rr_loop length]. now rewrite Nat.add_0_r.
  - cbn [rr_loop length] in *.
    destruct (known_row_nonempty dComp xyzc xyzh loc Hk Hne) as [row Er].
    rewrite Er. cbn [bind fst snd]. unfold set_row.
    assert (Hlt : Nat.ltb c0 (length G0) = true) by (apply Nat.ltb_lt; lia).
    rewrite Hlt. cbn [bind].
    destruct (IH (update G0 c0 row, S c0)) as [G [E Hl]];
      [cbn [fst snd]; rewrite update_length; lia|].
    cbn [fst snd] in E, Hl. rewrite update_length in Hl.
    exists G. split; [|exact Hl]. rewrite E. do 2 f_equal. lia.
Qed.

Lemma rr_loop_overflow (dComp : string) (xyzc xyzh : matrix) :
  known_comp dComp = true -> rows xyzh <> [] ->
  forall (ls : list vec) (st : list vec * nat),
    (snd st <= length (fst st))%nat ->
    (length (fst st) < snd st + length ls)%nat ->
    rr_loop dComp xyzc xyzh ls st = Raise (IndexError "index is out of bounds for axis 0").
Proof.
  intros Hk Hne. induction ls as [|loc ls IH]; intros [G0 c0] Hc Hst; cbn [fst snd] in *.
  - cbn [length] in Hst. lia.
  - cbn [rr_loop length] in *.
    destruct (known_row_nonempty dComp xyzc xyzh loc Hk Hne) as [row Er].
    rewrite Er. cbn [bind fst snd]. unfold set_row.
    destruct (Nat.ltb c0 (length G0)) eqn:Hlt; cbn [bind]; [|reflexivity].
    apply Nat.ltb_lt in Hlt.
    apply IH; cbn [fst snd]; rewrite update_length; lia.
Qed.

Lemma qq_loop_nothing (xyzc xyzh : matrix) :
  forall (rxs : list Rx) (st : list vec * nat),
    total_written rxs = 0%nat -> qq_loop xyzc xyzh rxs st = Ok st.
Proof.
  induction rxs as [|rx rxs IH]; intros st H; cbn [qq_loop]; [reflexivity|].
  change (total_written (rx :: rxs)) with (rows_written rx + total_written rxs)%nat in H.
  rewrite rr_loop_nothing by lia. cbn [bind]. apply IH. lia.
Qed.

Lemma qq_loop_empty_cells (xyzc xyzh : matrix) :
  rows xyzh = [] ->
  forall (rxs : list Rx) (st : list vec * nat),
    (0 < total_written rxs)%nat ->
    qq_loop xyzc xyzh rxs st
    = Raise (ValueError "zero-size array to reduction operation minimum which has no identity").
Proof.
  intros He. induction rxs as [|rx rxs IH]; intros st H.
  - unfold total_written in H. cbn in H. lia.
  - change (total_written (rx :: rxs)) with (rows_written rx + total_written rxs)%nat in H.
    cbn [qq_loop].
    destruct (Nat.eq_dec (rows_written rx) 0) as [Hz | Hnz].
    + rewrite rr_loop_nothing by exact Hz. cbn [bind]. apply IH. lia.
    + unfold rows_written in Hnz.
      destruct (known_comp (fieldComp rx)) eqn:Hk; [|congruence].
      destruct (rows (locs rx)) as [|loc ls]; [cbn in Hnz; congruence|].
      cbn [rr_loop]. rewrite (known_row_empty _ xyzc xyzh loc Hk He). reflexivity.
Qed.

Lemma qq_loop_fits (xyzc xyzh : matrix) :
  rows xyzh <> [] ->
  forall (rxs : list Rx) (st : list vec * nat),
    (snd st + total_written rxs <= length (fst st))%nat ->
    exists st', qq_loop xyzc xyzh rxs st = Ok st'.
Proof.
  intros Hne. induction rxs as [|rx rxs IH]; intros st H; cbn [qq_loop].
  - now exists st.
  - change (total_written (rx :: rxs)) with (rows_written rx + total_written rxs)%nat in H.
    unfold rows_written in H.
    destruct (known_comp (fieldComp rx)) eqn:Hk.
    + destruct (rr_loop_fits _ xyzc xyzh Hk Hne (rows (locs rx)) st) as [G [E Hl]]; [lia|].
      rewrite E. cbn [bind]. apply IH. cbn [fst snd]. lia.
    + rewrite rr_loop_unknown by exact Hk. cbn [bind]. apply IH. lia.
Qed.

Lemma qq_loop_overflow (xyzc xyzh : matrix) :
  rows xyzh <> [] ->
  forall (rxs : list Rx) (st : list vec * nat),
    (snd st <= length (fst st))%nat ->
    (length (fst st) < snd st + total_written rxs)%nat ->
    qq_loop xyzc xyzh rxs st = Raise (IndexError "index is out of bounds for axis 0").
Proof.
  intros Hne. induction rxs as [|rx rxs IH]; intros st Hc H.
  - unfold total_written in H. cbn in H. lia.
  - change (total_written (rx :: rxs)) with (rows_written rx + total_written rxs)%nat in H.
    cbn [qq_loop]. unfold rows_written in H.
    destruct (known_comp (fieldComp rx)) eqn:Hk.
    + destruct (Nat.le_gt_cases (snd st + length (rows (locs rx))) (length (fst st)))
        as [Hfit | Hover].
      * destruct (rr_loop_fits _ xyzc xyzh Hk Hne (rows (locs rx)) st Hfit) as [G [E Hl]].
        rewrite E. cbn [bind]. apply IH; cbn [fst snd]; lia.
      * now rewrite (rr_loop_overflow _ xyzc xyzh Hk Hne _ st Hc Hover).
    + rewrite rr_loop_unknown by exact Hk. cbn [bind]. apply IH; lia.
Qed.

(** What a call of [_getGeometryMatrix] comes to.  A source none of whose
    receivers has both a location and one of the components x, y and z gets
    the all-zero matrix, without any error.  Otherwise: without cells the
    least width of an empty array raises a ValueError; with cells the matrix
    is returned when the rows to write are at most [nRx], and the write of
    the first row past [nRx] raises an IndexError. *)
Theorem geometry_matrix_outcome :
  forall (srcObj : Src) (xyzc xyzh : matrix),
    let n := total_written (rxList srcObj) in
    (n = 0%nat ->
     _getGeometryMatrix srcObj xyzc xyzh = Ok (np_zeros (nRx srcObj) (3 * nrow xyzc)))
    /\ ((0 < n)%nat -> rows xyzh = [] ->
        exists msg, _getGeometryMatrix srcObj xyzc xyzh = Raise (ValueError msg))
    /\ (rows xyzh <> [] -> (n <= nRx srcObj)%nat ->
        exists G, _getGeometryMatrix srcObj xyzc xyzh = Ok G)
    /\ (rows xyzh <> [] -> (nRx srcObj < n)%nat ->
        exists msg, _getGeometryMatrix srcObj xyzc xyzh = Raise (IndexError msg)).
Proof.
  intros srcObj xyzc xyzh n. unfold _getGeometryMatrix. split; [|split; [|split]].
  - intros Hn. rewrite qq_loop_nothing by exact Hn. reflexivity.
  - intros Hn He. rewrite (qq_loop_empty_cells xyzc xyzh He) by exact Hn.
    eexists. reflexivity.
  - intros Hne Hn.
    destruct (qq_loop_fits xyzc xyzh Hne (rxList srcObj)
                (rows (np_zeros (nRx srcObj) (3 * nrow xyzc)), 0%nat)) as [st E].
    { cbn [fst snd np_zeros rows]. rewrite repeat_length. exact Hn. }
    rewrite E. eexists. reflexivity.
  - intros Hne Hn. rewrite (qq_loop_overflow xyzc xyzh Hne).
    + eexists. reflexivity.
    + cbn [fst snd]. lia.
    + cbn [fst snd np_zeros rows]. rewrite repeat_length. exact Hn.
Qed.

(** ** The entries of the block of a source *)

Lemma dot_app_r (l1 l2 : vec) :
  forall r : vec, dot r (l1 ++ l2) = dot r l1 + dot (skipn (length l1) r) l2.
Proof.
  induction l1 as [|a l1 IH]; intros r; cbn [app length skipn].
  - rewrite dot_nil_r. ring.
  - destruct r as [|x r]; [rewrite !dot_nil_l; ring|].
    rewrite !dot_cons, IH. ring.
Qed.

Lemma dot_map_zeros (g : nat -> R) :
  forall (n a : nat) (r : vec),
    (forall i, (a <= i < a + n)%nat -> g i = 0) ->
    dot r (map g (seq a n)) = 0.
Proof.
  induction n as [|n IH]; intros a r Hg; cbn [seq map]; [apply dot_nil_r|].
  destruct r as [|x r]; [apply dot_nil_l|].
  rewrite dot_cons, Hg by lia. rewrite IH; [ring|]. intros i Hi. apply Hg. lia.
Qed.

(** The dot product with a vector that is zero off the position [j]. *)
Lemma dot_unit (f : nat -> R) (j : nat) :
  forall (n a : nat) (r : vec),
    (a <= j < a + n)%nat ->
    dot r (map (fun i => if Nat.eqb i j then f i else 0) (seq a n))
    = nth (j - a) r 0 * f j.
Proof.
  induction n as [|n IH]; intros a r Hj; [lia|]. cbn [seq map].
  destruct r as [|x r].
  - rewrite dot_nil_l. destruct (j - a)%nat; cbn [nth]; ring.
  - rewrite dot_cons. destruct (Nat.eqb a j) eqn:E.
    + apply Nat.eqb_eq in E. subst a. rewrite Nat.sub_diag. cbn [nth].
      rewrite dot_map_zeros; [ring|]. intros i Hi.
      assert (Hne : Nat.eqb i j = false) by (apply Nat.eqb_neq; lia).
      now rewrite Hne.
    + apply Nat.eqb_neq in E. rewrite IH by lia.
      replace (j - a)%nat with (S (j - S a)) by lia. cbn [nth]. ring.
Qed.

Lemma col_diags (d : vec) (j : nat) :
  (j < length d)%nat ->
  col j (diags d)
  = map (fun i => if Nat.eqb i j then nth i d 0 else 0) (seq 0 (length d)).
Proof.
  intros Hj. unfold col. rewrite diags_rows, map_map.
  apply map_ext_in. intros i Hi.
  rewrite (nth_map_lt _ _ _ 0%nat) by (now rewrite length_seq).
  rewrite seq_nth by exact Hj. reflexivity.
Qed.

Lemma nth_col (M : matrix) (a j : nat) :
  nth j (col a M) 0 = entry M j a.
Proof.
  unfold col, entry.
  destruct (Nat.lt_ge_cases j (length (rows M))) as [H | H].
  - now rewrite (nth_map_lt _ _ _ []).
  - rewrite (nth_overflow (map _ _)) by (now rewrite length_map).
    rewrite (nth_overflow (rows M)) by exact H. now destruct a.
Qed.

(** The product of a row with the column [j] of the inducing-field
    operator takes the entries [j], [n + j] and [2n + j] of the row, with
    the three components of the inducing field at the point [j]. *)
Lemma H0_contraction (srcObj : Src) (xyz H0 : matrix) (r : vec) (j : nat) :
  _getH0matrix srcObj xyz = Ok H0 ->
  let h := getH0 srcObj xyz in
  let n := length (rows h) in
  (j < n)%nat ->
  dot r (col j H0)
  = nth j r 0 * entry h j 0 + nth (n + j) r 0 * entry h j 1
    + nth (2 * n + j) r 0 * entry h j 2.
Proof.
  intros E h n Hj.
  assert (Hr : rows H0 = rows (diags (col 0 h)) ++ rows (diags (col 1 h))
                         ++ rows (diags (col 2 h))).
  { unfold _getH0matrix, vstack in E. fold h in E.
    destruct (forallb _ _); inversion E. cbn [rows flat_map]. now rewrite app_nil_r. }
  unfold col at 1. rewrite Hr, !map_app.
  change (map (fun r0 : list R => nth j r0 0) (rows (diags (col 0 h))))
    with (col j (diags (col 0 h))).
  change (map (fun r0 : list R => nth j r0 0) (rows (diags (col 1 h))))
    with (col j (diags (col 1 h))).
  change (map (fun r0 : list R => nth j r0 0) (rows (diags (col 2 h))))
    with (col j (diags (col 2 h))).
  rewrite !col_diags by (rewrite col_length; exact Hj).
  rewrite !col_length. fold n.
  rewrite !dot_app_r, !length_map, !length_seq.
  rewrite !dot_unit by lia. rewrite !Nat.sub_0_r, !nth_skipn.
  rewrite !nth_col. replace (n + (n + j))%nat with (2 * n + j)%nat by lia. ring.
Qed.

(** The block [G*H0] before refinement: its entry for the datum [k] and
    the cell [j] contracts the three entries of the row [k] of [G] that
    belong to the cell, at the columns [j], [N + j] and [2N + j], with the
    three components of the inducing field at the cell. *)
Theorem inducing_field_contraction :
  forall (srcObj : Src) (xyzc xyzh G H0 A0 : matrix) (k j : nat),
    _getGeometryMatrix srcObj xyzc xyzh = Ok G ->
    _getH0matrix srcObj xyzc = Ok H0 ->
    matmul G H0 = Ok A0 ->
    (k < nRx srcObj)%nat -> (j < nrow xyzc)%nat ->
    let h := getH0 srcObj xyzc in
    let N := nrow xyzc in
    length (rows h) = N
    /\ entry A0 k j
       = entry G k j * entry h j 0 + entry G k (N + j) * entry h j 1
         + entry G k (2 * N + j) * entry h j 2.
Proof.
  intros srcObj xyzc xyzh G H0 A0 k j EG EH EA Hk Hj h N.
  destruct (geometry_matrix_shape _ _ _ _ EG) as [HGr [HGn HGc]].
  destruct (H0_matrix_returns srcObj xyzc) as [H0' [EH' [Hn Hc]]].
  rewrite EH in EH'. inversion EH'; subst H0'; clear EH'.
  destruct (matmul_ok _ _ _ EA) as [Hsh _].
  assert (HN : length (rows h) = N) by (unfold h, N; lia).
  split; [exact HN|].
  rewrite (matmul_entry _ _ _ k j EA) by (unfold h, N in *; lia).
  rewrite (H0_contraction srcObj xyzc H0 _ j EH) by (fold h; lia).
  fold h. rewrite HN. reflexivity.
Qed.

(** The theorem at the source above the unit cell, whose inducing field is
    vertical: the entry is that of the z part of the kernel row. *)
Lemma inducing_field_contraction_witness :
  exists G H0 A0,
    _getGeometryMatrix far_source (gridCC unit_mesh) (gridH unit_mesh) = Ok G
    /\ _getH0matrix far_source (gridCC unit_mesh) = Ok H0
    /\ matmul G H0 = Ok A0
    /\ entry A0 0 0 = entry G 0 0 * 0 + entry G 0 1 * 0 + entry G 0 2 * 1.
Proof.
  destruct (geometry_matrix_returns far_source (gridCC unit_mesh) (gridH unit_mesh))
    as [G EG]; [discriminate | unfold receivers_fit; cbn; lia |].
  destruct (H0_matrix_returns far_source (gridCC unit_mesh)) as [H0 [EH [Hn Hc]]].
  destruct (geometry_matrix_shape _ _ _ _ EG) as [_ [_ HGc]].
  assert (EA : exists A0, matmul G H0 = Ok A0).
  { unfold matmul. rewrite HGc, Hn. cbn. eexists. reflexivity. }
  destruct EA as [A0 EA].
  exists G, H0, A0. split; [exact EG|]. split; [exact EH|]. split; [exact EA|].
  exact (proj2 (inducing_field_contraction far_source _ _ G H0 A0 0 0 EG EH EA
                  (Nat.lt_0_succ 0) (Nat.lt_0_succ 0))).
Defined.

Lemma map6_nth (f : R -> R -> R -> R -> R -> R -> R) :
  forall (a b c d e g : vec) (j : nat),
    (j < length a)%nat -> (j < length b)%nat -> (j < length c)%nat ->
    (j < length d)%nat -> (j < length e)%nat -> (j < length g)%nat ->
    nth j (map6 f a b c d e g) 0
    = f (nth j a 0) (nth j b 0) (nth j c 0) (nth j d 0) (nth j e 0) (nth j g 0).
Proof.
  induction a as [|a0 a IH]; intros [|b0 b] [|c0 c] [|d0 d] [|e0 e] [|g0 g] j;
    cbn [length]; intros Ha Hb Hc Hd He Hg; try lia.
  destruct j as [|j]; cbn [map6 nth]; [reflexivity|].
  apply IH; lia.
Qed.

Lemma scaled_row_nth (g1 g2 g3 : vec) (n j : nat) :
  length g1 = n -> length g2 = n -> length g3 = n -> (j < n)%nat ->
  nth j (scaled_row g1 g2 g3) 0 = C * nth j g1 0
  /\ nth (n + j) (scaled_row g1 g2 g3) 0 = C * nth j g2 0
  /\ nth (2 * n + j) (scaled_row g1 g2 g3) 0 = C * nth j g3 0.
Proof.
  intros H1 H2 H3 Hj. unfold scaled_row.
  assert (Hl : forall i, (i < 3 * n)%nat ->
            nth i (map (Rmult C) (g1 ++ g2 ++ g3)) 0 = C * nth i (g1 ++ g2 ++ g3) 0).
  { intros i Hi. apply (nth_map_lt (Rmult C) _ _ 0). rewrite !length_app. lia. }
  rewrite !Hl by lia. split; [|split].
  - rewrite app_nth1 by lia. reflexivity.
  - rewrite <- H1 at 1. rewrite app_nth2_plus, app_nth1 by lia. reflexivity.
  - replace (2 * n + j)%nat with (length g1 + (length g2 + j))%nat by lia.
    rewrite !app_nth2_plus. reflexivity.
Qed.

(** The six arrays of corner differences have one entry per cell. *)
Lemma nudged_diffs_lengths (xyzc xyzh : matrix) (loc : vec) (d : corner_diffs) :
  length (rows xyzc) = length (rows xyzh) ->
  nudged_diffs xyzc xyzh loc = Ok d ->
  let n := length (rows xyzh) in
  length (cd_u1 d) = n /\ length (cd_u2 d) = n /\ length (cd_v1 d) = n
  /\ length (cd_v2 d) = n /\ length (cd_w1 d) = n /\ length (cd_w2 d) = n.
Proof.
  intros Hl E n. unfold nudged_diffs in E.
  destruct (np_min (col 0 xyzh)) as [mx|e]; cbn [bind] in E; [|discriminate].
  destruct (np_min (col 1 xyzh)) as [my|e]; cbn [bind] in E; [|discriminate].
  destruct (np_min (col 2 xyzh)) as [mz|e]; cbn [bind] in E; [|discriminate].
  inversion E; subst d; clear E. cbn [cd_u1 cd_u2 cd_v1 cd_v2 cd_w1 cd_w2].
  unfold lower_face, upper_face.
  repeat split; apply nudged_face_length; exact Hl.
Qed.

(** The entries of the geometry matrix that is returned: in the row of a
    receiver location, the columns [j], [N + j] and [2N + j] of the cell [j]
    hold [C] times the three kernels of the component of the receiver, at
    the nudged corner differences between the location and the cell. *)
Theorem geometry_matrix_entries :
  forall (srcObj : Src) (xyzc xyzh G : matrix) (q rr : nat) (rx : Rx),
    _getGeometryMatrix srcObj xyzc xyzh = Ok G ->
    length (rows xyzc) = nrow xyzc -> length (rows xyzh) = nrow xyzc ->
    nth_error (rxList srcObj) q = Some rx ->
    known_comp (fieldComp rx) = true ->
    (rr < length (rows (locs rx)))%nat ->
    exists d,
      nudged_diffs xyzc xyzh (nth rr (rows (locs rx)) []) = Ok d
      /\ forall j, (j < nrow xyzc)%nat ->
           let N := nrow xyzc in
           let k := (first_row (rxList srcObj) q + rr)%nat in
           let on f := f (nth j (cd_u1 d) 0) (nth j (cd_u2 d) 0) (nth j (cd_v1 d) 0)
                         (nth j (cd_v2 d) 0) (nth j (cd_w1 d) 0) (nth j (cd_w2 d) 0) in
           (fieldComp rx = "x"%string ->
            entry G k j = C * on Gxx /\ entry G k (N + j) = C * on Gyx
            /\ entry G k (2 * N + j) = C * on Gzx)
           /\ (fieldComp rx = "y"%string ->
               entry G k j = C * on Gxy /\ entry G k (N + j) = C * on Gyy
               /\ entry G k (2 * N + j) = C * on Gzy)
           /\ (fieldComp rx = "z"%string ->
               entry G k j = C * on Gxz /\ entry G k (N + j) = C * on Gyz
               /\ entry G k (2 * N + j) = C * on Gzz).
Proof.
  intros srcObj xyzc xyzh G q rr rx EG Hc Hh Hq Hk Hrr.
  destruct (geometry_row _ _ _ _ _ _ _ EG Hq Hk Hrr) as [Hrow _].
  set (loc := nth rr (rows (locs rx)) []) in *.
  set (k := (first_row (rxList srcObj) q + rr)%nat) in *.
  destruct (nudged_diffs xyzc xyzh loc) as [d|e] eqn:Ed.
  2:{ exfalso. unfold kernel_row in Hrow. rewrite Ed in Hrow. cbn [bind] in Hrow.
      unfold known_comp in Hk.
      destruct (String.eqb (fieldComp rx) "x"); [discriminate|].
      destruct (String.eqb (fieldComp rx) "y"); [discriminate|].
      destruct (String.eqb (fieldComp rx) "z"); discriminate. }
  exists d. split; [reflexivity|]. intros j Hj N k' on.
  destruct (nudged_diffs_lengths xyzc xyzh loc d) as [L1 [L2 [L3 [L4 [L5 L6]]]]];
    [congruence | exact Ed |].
  rewrite Hh in L1, L2, L3, L4, L5, L6. fold N in L1, L2, L3, L4, L5, L6.
  assert (Hlen : forall f, length (over_cells f d) = N).
  { intros f. unfold over_cells. now apply map6_length. }
  assert (Hnth : forall f, nth j (over_cells f d) 0 = on f).
  { intros f. unfold over_cells, on. apply map6_nth; unfold N in *; lia. }
  unfold kernel_row in Hrow. rewrite Ed in Hrow. cbn [bind] in Hrow.
  unfold entry. subst k'. fold k.
  split; [|split]; intros Hcomp; rewrite Hcomp in Hrow; cbn [String.eqb Ascii.eqb Bool.eqb] in Hrow;
    inversion Hrow;
    match goal with
    | |- context [scaled_row ?g1 ?g2 ?g3] =>
        destruct (scaled_row_nth g1 g2 g3 N j (Hlen _) (Hlen _) (Hlen _) Hj)
          as [S1 [S2 S3]]
    end;
    rewrite S1, S2, S3, !Hnth; repeat split; reflexivity.
Qed.

(** The theorem at the source above the unit cell: the z part of the row
    of its location holds [C] times [Gzz]. *)
Lemma geometry_matrix_entries_witness :
  exists G d,
    _getGeometryMatrix far_source (gridCC unit_mesh) (gridH unit_mesh) = Ok G
    /\ nudged_diffs (gridCC unit_mesh) (gridH unit_mesh) [0.5; 0.5; 2] = Ok d
    /\ entry G 0 2
       = C * Gzz (nth 0 (cd_u1 d) 0) (nth 0 (cd_u2 d) 0) (nth 0 (cd_v1 d) 0)
               (nth 0 (cd_v2 d) 0) (nth 0 (cd_w1 d) 0) (nth 0 (cd_w2 d) 0).
Proof.
  destruct (geometry_matrix_returns far_source (gridCC unit_mesh) (gridH unit_mesh))
    as [G EG]; [discriminate | unfold receivers_fit; cbn; lia |].
  destruct (geometry_matrix_entries far_source _ _ G 0 0 rx_above EG
              eq_refl eq_refl eq_refl eq_refl (Nat.lt_0_succ 0)) as [d [Ed H]].
  exists G, d. split; [exact EG|]. split; [exact Ed|].
  destruct (H 0%nat (Nat.lt_0_succ 0)) as [_ [_ Hz]].
  exact (proj2 (proj2 (Hz eq_refl))).
Defined.

(** ** The characteristic decay operator *)

Lemma T_blocks_receivers (survey : SurveyVRM) :
  LinearVRM.T_blocks (srcList survey)
  = map (fun p => kron (diags (repeat 1 (nrow (locs (snd p))))) (column (char_decay p)))
        (receivers survey).
Proof.
  unfold LinearVRM.T_blocks, receivers.
  induction (srcList survey) as [|src srcs IH]; cbn [flat_map map]; [reflexivity|].
  rewrite map_app, IH, map_map. reflexivity.
Qed.

Lemma T_build (s : LinearVRM.t) (survey : SurveyVRM) :
  _survey s = Some survey -> _TisSet s = false ->
  LinearVRM.T s
  = match block_diag (LinearVRM.T_blocks (srcList survey)) with
    | Ok Tm => (Ok Tm, upd_TisSet (upd_T (print "CREATING T MATRIX" (drop_T s)) (Some Tm)) true)
    | Raise e => (Raise e, print "CREATING T MATRIX" (drop_T s))
    end.
Proof.
  intros Hs Hf. unfold LinearVRM.T. rewrite Hf. cbn [negb].
  unfold bindM, assert_paired. rewrite Hs. unfold modify, lift, ret.
  assert (Hd : _survey (drop_T s) = Some survey)
    by (unfold drop_T; destruct (_T s); cbn; exact Hs).
  destruct (block_diag _) as [Tm|e]; reflexivity.
Qed.

Lemma flat_map_nth_seq {Y : Type} (g : R -> list Y) (v : vec) :
  flat_map (fun i => g (nth i v 0)) (seq 0 (length v)) = flat_map g v.
Proof.
  replace (flat_map g v)
    with (flat_map g (map (fun i => nth i v 0) (seq 0 (length v))))
    by (now rewrite map_nth_seq0).
  now rewrite !flat_map_concat_map, map_map.
Qed.

Lemma map_flat_map' {X Y Z : Type} (f : Y -> Z) (g : X -> list Y) (l : list X) :
  map f (flat_map g l) = flat_map (fun x => map f (g x)) l.
Proof.
  induction l as [|x l IH]; cbn [flat_map map]; [reflexivity|].
  now rewrite map_app, IH.
Qed.

Lemma flat_map_map' {X Y Z : Type} (f : X -> Y) (g : Y -> list Z) (l : list X) :
  flat_map g (map f l) = flat_map (fun x => g (f x)) l.
Proof.
  induction l as [|x l IH]; cbn [flat_map map]; [reflexivity|].
  now rewrite IH.
Qed.

Lemma flat_map_ext_in' {X Y : Type} (f g : X -> list Y) (l : list X) :
  (forall x, In x l -> f x = g x) -> flat_map f l = flat_map g l.
Proof.
  induction l as [|x l IH]; intros H; cbn [flat_map]; [reflexivity|].
  rewrite (H x) by (now left). rewrite IH; [reflexivity|].
  intros y Hy. apply H. now right.
Qed.

Lemma kron_column_rows (A : matrix) (eta : vec) :
  rows (kron A (column eta))
  = flat_map (fun ra => map (fun e => map (fun a => a * e) ra) eta) (rows A).
Proof.
  unfold kron, column. cbn [rows]. apply flat_map_ext. intros ra.
  rewrite map_map. apply map_ext. intros e. apply flat_map_singleton.
Qed.

(** The block [sp.kron(I, eta)] applied to one value per location. *)
Lemma decay_block_apply (eta v : vec) :
  apply_matrix (kron (diags (repeat 1 (length v))) (column eta)) v = decay_times eta v.
Proof.
  unfold apply_matrix, decay_times.
  rewrite kron_column_rows, map_flat_map', diags_rows, repeat_length, flat_map_map'.
  rewrite <- flat_map_nth_seq. apply flat_map_ext_in'. intros i Hi.
  apply in_seq in Hi. rewrite map_map. apply map_ext. intros e.
  rewrite dot_scale_l, dot_comm.
  rewrite (map_ext (fun j => if Nat.eqb i j then nth i (repeat 1 (length v)) 0 else 0)
             (fun j => if Nat.eqb j i then (fun _ => 1) j else 0)).
  - rewrite (dot_unit (fun _ => 1) i) by lia. rewrite Nat.sub_0_r. ring.
  - intros j. rewrite Nat.eqb_sym. rewrite nth_repeat_lt by lia. reflexivity.
Qed.

Lemma dot_zeros_l (n : nat) (u : vec) : dot (repeat 0 n) u = 0.
Proof. rewrite dot_comm. apply dot_zeros_r. Qed.

(** A row of a block, padded with zeros to the width of the block-diagonal
    matrix, meets only the segment of its block. *)
Lemma dot_block (r seg pre rest : vec) (t : nat) :
  length r = length seg ->
  dot (repeat 0 (length pre) ++ r ++ repeat 0 t) (pre ++ seg ++ rest) = dot r seg.
Proof.
  intros Hl. rewrite dot_comm, dot_app_r, dot_zeros_r, repeat_length.
  rewrite skipn_app, skipn_all, Nat.sub_diag. cbn [skipn app].
  rewrite dot_app_r, dot_zeros_r, dot_comm, dot_app_r.
  rewrite <- Hl, skipn_all, dot_nil_l. ring.
Qed.

Lemma block_diag_apply :
  forall (Ms : list matrix) (segs : list vec),
    Forall2 (fun M seg => length seg = ncol M
                          /\ Forall (fun r => length r = ncol M) (rows M)) Ms segs ->
    forall (pre : vec) (total : nat),
      map (fun r => dot r (pre ++ concat segs)) (block_diag_rows (length pre) total Ms)
      = concat (zip_with apply_matrix Ms segs).
Proof.
  induction 1 as [|M seg Ms segs [Hs Hr] _ IH]; intros pre total; [reflexivity|].
  cbn [block_diag_rows concat zip_with]. rewrite map_app, map_map. f_equal.
  - unfold apply_matrix. apply map_ext_in. intros r Hin.
    rewrite Forall_forall in Hr. apply dot_block. rewrite (Hr r Hin). now symmetry.
  - rewrite <- Hs, <- length_app, app_assoc. apply IH.
Qed.

Lemma block_diag_rows_wf :
  forall (Ms : list matrix) (before total : nat),
    Forall (fun M => length (rows M) = nrow M
                     /\ Forall (fun r => length r = ncol M) (rows M)) Ms ->
    (before + list_sum (map ncol Ms) <= total)%nat ->
    length (block_diag_rows before total Ms) = list_sum (map nrow Ms)
    /\ Forall (fun r => length r = total) (block_diag_rows before total Ms).
Proof.
  induction Ms as [|M Ms IH]; intros before total HF Hle; cbn [block_diag_rows].
  - split; [reflexivity | constructor].
  - inversion HF as [|? ? [Hn Hr] HF']; subst.
    change (list_sum (map ncol (M :: Ms))) with (ncol M + list_sum (map ncol Ms))%nat in Hle.
    change (list_sum (map nrow (M :: Ms))) with (nrow M + list_sum (map nrow Ms))%nat.
    destruct (IH (before + ncol M)%nat total HF') as [H1 H2]; [lia|].
    split.
    + rewrite length_app, length_map, H1, Hn. reflexivity.
    + apply Forall_app. split; [|exact H2].
      apply Forall_forall. intros r Hin. apply in_map_iff in Hin.
      destruct Hin as [r0 [Er Hin]]. subst r.
      rewrite Forall_forall in Hr.
      rewrite !length_app, !repeat_length, (Hr r0 Hin). lia.
Qed.

Lemma decay_block_wf (n : nat) (eta : vec) :
  let B := kron (diags (repeat 1 n)) (column eta) in
  length (rows B) = nrow B /\ Forall (fun r => length r = ncol B) (rows B)
  /\ nrow B = (n * length eta)%nat /\ ncol B = n.
Proof.
  intros B. unfold B. rewrite kron_column_rows, diags_rows, repeat_length.
  cbn [nrow ncol kron diags column]. rewrite repeat_length, Nat.mul_1_r.
  split; [|split; [|split; reflexivity]].
  - rewrite (flat_map_block_length _ (length eta)).
    + now rewrite length_map, length_seq.
    + intros ra _. apply length_map.
  - apply Forall_forall. intros r Hin. apply in_flat_map in Hin.
    destruct Hin as [ra [Hra Hin]]. apply in_map_iff in Hin.
    destruct Hin as [e [Er _]]. subst r. apply in_map_iff in Hra.
    destruct Hra as [i [Eri _]]. subst ra. now rewrite !length_map, length_seq.
Qed.

(** The block-diagonal matrix of the decay blocks of a survey with at
    least one receiver. *)
Lemma T_blocks_operator (survey : SurveyVRM) :
  receivers survey <> [] ->
  exists Tm,
    block_diag (LinearVRM.T_blocks (srcList survey)) = Ok Tm
    /\ wf Tm
    /\ ncol Tm = list_sum (map (fun p => nrow (locs (snd p))) (receivers survey))
    /\ nrow Tm = list_sum (map (fun p => nrow (locs (snd p)) * length (char_decay p))%nat
                             (receivers survey))
    /\ forall segs : list vec,
        Forall2 (fun p seg => length seg = nrow (locs (snd p))) (receivers survey) segs ->
        apply_matrix Tm (concat segs)
        = concat (zip_with (fun p seg => decay_times (char_decay p) seg)
                    (receivers survey) segs).
Proof.
  intros Hne. rewrite T_blocks_receivers.
  set (blk := fun p : Waveform * Rx =>
                kron (diags (repeat 1 (nrow (locs (snd p))))) (column (char_decay p))).
  assert (Hnc : map ncol (map blk (receivers survey))
                = map (fun p => nrow (locs (snd p))) (receivers survey)).
  { rewrite map_map. apply map_ext. intros p.
    apply (decay_block_wf (nrow (locs (snd p))) (char_decay p)). }
  assert (Hnr : map nrow (map blk (receivers survey))
                = map (fun p => nrow (locs (snd p)) * length (char_decay p))%nat
                      (receivers survey)).
  { rewrite map_map. apply map_ext. intros p.
    apply (decay_block_wf (nrow (locs (snd p))) (char_decay p)). }
  assert (HF : Forall (fun M => length (rows M) = nrow M
                                /\ Forall (fun r => length r = ncol M) (rows M))
                 (map blk (receivers survey))).
  { apply Forall_forall. intros M Hin. apply in_map_iff in Hin.
    destruct Hin as [p [EM _]]. subst M.
    destruct (decay_block_wf (nrow (locs (snd p))) (char_decay p)) as [H1 [H2 _]].
    split; assumption. }
  unfold block_diag.
  destruct (map blk (receivers survey)) as [|M0 Ms0] eqn:EMs.
  { destruct (receivers survey); [congruence | discriminate]. }
  rewrite <- EMs in *. clear EMs M0 Ms0.
  destruct (block_diag_rows_wf _ 0 (list_sum (map ncol (map blk (receivers survey)))) HF)
    as [W1 W2]; [lia|].
  eexists. split; [reflexivity|].
  split; [split; [exact W1 | exact W2]|].
  split; [cbn [ncol]; now rewrite Hnc|]. split; [cbn [nrow]; now rewrite Hnr|].
  intros segs Hsegs. unfold apply_matrix at 1. cbn [rows].
  rewrite (block_diag_apply (map blk (receivers survey)) segs) with (pre := []).
  - f_equal. clear -Hsegs. induction Hsegs as [|p seg ps segs Hl _ IH]; [reflexivity|].
    cbn [map zip_with]. rewrite IH. f_equal. unfold blk at 1.
    rewrite <- Hl. apply decay_block_apply.
  - clear -Hsegs. induction Hsegs as [|p seg ps segs Hl _ IH]; cbn [map]; constructor.
    + destruct (decay_block_wf (nrow (locs (snd p))) (char_decay p)) as [_ [H2 [_ H4]]].
      unfold blk. split; [now rewrite H4 | exact H2].
    + exact IH.
Qed.

(** The operator [T] that a read builds for a survey with at least one
    receiver: it has one column per receiver location and one row per
    location and time channel, and applied to one value per location it
    gives, receiver by receiver and location by location, the value times the
    characteristic decay of the receiver at each of its times. *)
Theorem T_operator :
  forall (s : LinearVRM.t) (survey : SurveyVRM),
    _survey s = Some survey -> _TisSet s = false -> receivers survey <> [] ->
    exists Tm s1,
      LinearVRM.T s = (Ok Tm, s1) /\ _T s1 = Some Tm /\ _TisSet s1 = true
      /\ wf Tm
      /\ ncol Tm = list_sum (map (fun p => nrow (locs (snd p))) (receivers survey))
      /\ nrow Tm = list_sum (map (fun p => nrow (locs (snd p)) * length (char_decay p))%nat
                               (receivers survey))
      /\ forall segs : list vec,
          Forall2 (fun p seg => length seg = nrow (locs (snd p))) (receivers survey) segs ->
          apply_matrix Tm (concat segs)
          = concat (zip_with (fun p seg => decay_times (char_decay p) seg)
                      (receivers survey) segs).
Proof.
  intros s survey Hs Hf Hne.
  destruct (T_blocks_operator survey Hne) as [Tm [E H]].
  rewrite (T_build s survey Hs Hf), E.
  exists Tm. eexists. split; [reflexivity|]. split; [reflexivity|].
  split; [reflexivity | exact H].
Qed.

(** The theorem at the paired problem on the unit mesh: one receiver with
    one location and one time channel. *)
Lemma T_operator_witness :
  exists Tm s1,
    LinearVRM.T paired_problem = (Ok Tm, s1)
    /\ ncol Tm = 1%nat /\ nrow Tm = 1%nat
    /\ apply_matrix Tm [5] = [1 * 5].
Proof.
  destruct (T_operator paired_problem one_source_survey eq_refl eq_refl)
    as [Tm [s1 [E [_ [_ [_ [Hc [Hr Happ]]]]]]]]; [discriminate|].
  exists Tm, s1. split; [exact E|]. split; [exact Hc|]. split; [exact Hr|].
  apply (Happ [[5]]). repeat constructor.
Defined.

(** ** The shape of the geometric operator *)

Lemma pp_loop_spec (refFact : Z) (refRadius : radii) (xyzc xyzh : matrix) :
  forall (srcs : list Src) (blocks : list matrix),
    pp_loop refFact refRadius xyzc xyzh srcs = Ok blocks ->
    Forall2 (fun src B => wf B /\ nrow B = nRx src /\ ncol B = nrow xyzc) srcs blocks.
Proof.
  induction srcs as [|src srcs IH]; intros blocks H; cbn [pp_loop] in H.
  - inversion H. constructor.
  - destruct (A_block refFact refRadius xyzc xyzh src) as [Ap|e] eqn:EA; cbn [bind] in H;
      [|discriminate].
    destruct (pp_loop refFact refRadius xyzc xyzh srcs) as [rest|e] eqn:ER;
      cbn [bind] in H; [|discriminate].
    inversion H; subst. constructor; [now apply A_block_wf in EA | now apply IH].
Qed.

Lemma flat_rows_wf (c : nat) (Ms : list matrix) :
  Forall (fun M => wf M /\ ncol M = c) Ms ->
  length (flat_map rows Ms) = list_sum (map nrow Ms)
  /\ Forall (fun r => length r = c) (flat_map rows Ms).
Proof.
  induction 1 as [|M Ms [[Hr Hc] Hcc] _ [I1 I2]]; [split; [reflexivity | constructor]|].
  cbn [flat_map]. change (list_sum (map nrow (M :: Ms)))
    with (nrow M + list_sum (map nrow Ms))%nat.
  split.
  - now rewrite length_app, Hr, I1.
  - apply Forall_app. split; [now rewrite <- Hcc | exact I2].
Qed.

Lemma vstack_blocks (c : nat) (Ms : list matrix) :
  Ms <> [] -> Forall (fun M => wf M /\ ncol M = c) Ms ->
  vstack Ms = Ok (Mat (list_sum (map nrow Ms)) c (flat_map rows Ms))
  /\ wf (Mat (list_sum (map nrow Ms)) c (flat_map rows Ms)).
Proof.
  intros Hne HF. split; [|exact (flat_rows_wf c Ms HF)].
  destruct Ms as [|M Ms]; [congruence|]. clear Hne.
  assert (HM : ncol M = c) by (inversion HF as [|? ? [_ ?] _]; assumption).
  unfold vstack.
  assert (Hall : forallb (fun M' => Nat.eqb (ncol M') (ncol M)) Ms = true).
  { apply forallb_forall. intros M' Hin. rewrite Forall_forall in HF.
    destruct (HF M' (or_intror Hin)) as [_ Hc]. apply Nat.eqb_eq. congruence. }
  rewrite Hall, HM. reflexivity.
Qed.

Lemma A_build (s : LinearVRM.t) (survey : SurveyVRM) :
  _survey s = Some survey -> _AisSet s = false ->
  LinearVRM.A s
  = match (blocks <- _getAMatricies s survey ;; vstack blocks) with
    | Ok a => (Ok a, upd_AisSet (upd_A (print "CREATING A MATRIX" (drop_A s)) (Some a)) true)
    | Raise e => (Raise e, print "CREATING A MATRIX" (drop_A s))
    end.
Proof.
  intros Hs Hf. unfold LinearVRM.A. rewrite Hf. cbn [negb].
  unfold bindM, assert_paired. rewrite Hs. unfold modify, ret.
  rewrite getAMatricies_drop_print.
  destruct (blocks <- _getAMatricies s survey ;; vstack blocks) as [a|e]; reflexivity.
Qed.

Lemma count_true_map (l : list pyval) : count_true (map py_eq_True l) = count_True l.
Proof.
  unfold count_true, count_True. induction l as [|x l IH]; [reflexivity|].
  cbn [map filter]. destruct (py_eq_True x); cbn [length]; now rewrite IH.
Qed.

Lemma getAMatricies_stack {AT : Type} (s : ProblemVRM AT) (survey : SurveyVRM)
  (blocks : list matrix) (Am : matrix) :
  _getAMatricies s survey = Ok blocks -> vstack blocks = Ok Am ->
  exists xyzc,
    index_rows (_indActive s) (gridCC (mesh s)) = Ok xyzc
    /\ Forall2 (fun src B => wf B /\ nrow B = nRx src /\ ncol B = nrow xyzc)
         (srcList survey) blocks
    /\ rows Am = flat_map rows blocks
    /\ wf Am
    /\ nrow Am = list_sum (map nRx (srcList survey))
    /\ ncol Am = nrow xyzc.
Proof.
  intros EB EV. unfold _getAMatricies in EB.
  destruct (index_rows (_indActive s) (gridCC (mesh s))) as [xyzc|e] eqn:Ec;
    cbn [bind] in EB; [|discriminate].
  destruct (index_rows (_indActive s) (gridH (mesh s))) as [xyzh|e] eqn:Eh;
    cbn [bind] in EB; [|discriminate].
  pose proof (pp_loop_spec _ _ _ _ _ _ EB) as HF2.
  assert (Hne : blocks <> []) by (intros ->; discriminate).
  assert (HF : Forall (fun M => wf M /\ ncol M = nrow xyzc) blocks).
  { clear -HF2. induction HF2 as [|src B srcs bs [Hw [_ Hc]] _ IH]; constructor; auto. }
  destruct (vstack_blocks (nrow xyzc) blocks Hne HF) as [EV' Hw].
  rewrite EV in EV'. inversion EV'; subst Am; clear EV'.
  exists xyzc. cbn [rows nrow ncol].
  split; [reflexivity|]. split; [exact HF2|]. split; [reflexivity|]. split; [exact Hw|].
  split; [|reflexivity].
  clear -HF2. induction HF2 as [|src B srcs bs [_ [Hn _]] _ IH]; [reflexivity|].
  cbn [map list_sum fold_right]. f_equal; assumption.
Qed.

(** The operator [A] that a read builds: the blocks of the sources stacked
    in the order of the sources, one row per datum of each source and one
    column per active cell (with a mask of booleans, per entry that is
    true). *)
Theorem A_operator_shape :
  forall (s s1 : LinearVRM.t) (survey : SurveyVRM) (Am : matrix),
    _survey s = Some survey -> _AisSet s = false ->
    LinearVRM.A s = (Ok Am, s1) ->
    exists xyzc blocks,
      index_rows (_indActive s) (gridCC (mesh s)) = Ok xyzc
      /\ _getAMatricies s survey = Ok blocks
      /\ Forall2 (fun src B => wf B /\ nrow B = nRx src /\ ncol B = nrow xyzc)
           (srcList survey) blocks
      /\ rows Am = flat_map rows blocks
      /\ wf Am
      /\ nrow Am = list_sum (map nRx (srcList survey))
      /\ ncol Am = nrow xyzc
      /\ (forallb is_VBool (_indActive s) = true ->
          ncol Am = count_True (_indActive s)).
Proof.
  intros s s1 survey Am Hs Hf HA. rewrite (A_build s survey Hs Hf) in HA.
  destruct (_getAMatricies s survey) as [blocks|e] eqn:EB; cbn [bind] in HA;
    [|discriminate].
  destruct (vstack blocks) as [a|e] eqn:EV; inversion HA; subst a s1; clear HA.
  destruct (getAMatricies_stack s survey blocks Am EB EV)
    as [xyzc [Ec [HF2 [Hr [Hw [Hn Hc]]]]]].
  exists xyzc, blocks.
  split; [exact Ec|]. split; [reflexivity|]. split; [exact HF2|]. split; [exact Hr|].
  split; [exact Hw|]. split; [exact Hn|]. split; [exact Hc|].
  intros Hb. rewrite Hc. unfold index_rows in Ec. rewrite Hb in Ec.
  unfold mask_rows in Ec. destruct (Nat.eqb _ _); inversion Ec. cbn [nrow].
  apply count_true_map.
Qed.

(** On the unit mesh, without refinement and paired with the survey of
    one source, a read builds [A], with one column. *)
Lemma unit_problem_A_returns (s : LinearVRM.t) :
  mesh s = unit_mesh -> _indActive s = [VBool true] -> _refFact s = 0%Z ->
  _survey s = Some one_source_survey -> _AisSet s = false ->
  exists Am s1, LinearVRM.A s = (Ok Am, s1) /\ ncol Am = 1%nat.
Proof.
  intros Hm Hi Hr Hs Hf.
  assert (EB : exists Ap, _getAMatricies s one_source_survey = Ok [Ap]).
  { unfold _getAMatricies. rewrite Hm, Hi, Hr.
    cbn [unit_mesh gridCC gridH index_rows forallb is_VBool andb map py_eq_True
           one_source_survey srcList pp_loop].
    unfold mask_rows. cbn [length nrow Nat.eqb bind count_true filter ncol select rows].
    destruct (geometry_matrix_returns far_source (Mat 1 3 [[0.5; 0.5; 0.5]])
                (Mat 1 3 [[1; 1; 1]])) as [G EG];
      [discriminate | unfold receivers_fit; cbn; lia |].
    unfold A_block. rewrite EG. cbn [bind].
    destruct (H0_matrix_returns far_source (Mat 1 3 [[0.5; 0.5; 0.5]])) as [H0 [EH [Hn Hc]]].
    rewrite EH. cbn [bind].
    destruct (geometry_matrix_shape _ _ _ _ EG) as [_ [_ HGc]].
    unfold matmul. rewrite HGc, Hn.
    cbn [far_source getH0 rows map length nrow Nat.mul Nat.add Nat.eqb bind].
    change (0 <? 0)%Z with false. cbn iota. eexists. reflexivity. }
  destruct EB as [Ap EB].
  assert (EV : exists Am, vstack [Ap] = Ok Am) by (eexists; reflexivity).
  destruct EV as [Am EV].
  destruct (getAMatricies_stack s one_source_survey [Ap] Am EB EV)
    as [xyzc [Ec [_ [_ [_ [_ Hc]]]]]].
  rewrite (A_build s one_source_survey Hs Hf), EB. cbn [bind]. rewrite EV.
  exists Am. eexists. split; [reflexivity|]. rewrite Hc.
  rewrite Hm, Hi in Ec. inversion Ec. reflexivity.
Qed.

(** The theorem at the paired problem on the unit mesh. *)
Lemma A_operator_shape_witness :
  exists Am s1,
    LinearVRM.A paired_problem = (Ok Am, s1)
    /\ wf Am /\ nrow Am = 1%nat /\ ncol Am = 1%nat.
Proof.
  destruct (unit_problem_A_returns paired_problem eq_refl eq_refl eq_refl eq_refl eq_refl)
    as [Am [s1 [E _]]].
  exists Am, s1. split; [exact E|].
  destruct (A_operator_shape paired_problem s1 one_source_survey Am eq_refl eq_refl E)
    as [xyzc [blocks [_ [_ [_ [_ [Hw [Hn [_ Hc]]]]]]]]].
  split; [exact Hw|]. split; [exact Hn|]. exact (Hc eq_refl).
Defined.

(** ** A survey without sources *)

Lemma drop_T_None (s : LinearVRM.t) : _T (drop_T s) = None.
Proof. unfold drop_T. destruct (_T s) eqn:E; [reflexivity | exact E]. Qed.

Lemma drop_A_None {AT : Type} (s : ProblemVRM AT) : _A (drop_A s) = None.
Proof. unfold drop_A. destruct (_A s) eqn:E; [reflexivity | exact E]. Qed.

Lemma drop_T_flag (s : LinearVRM.t) : _TisSet (drop_T s) = _TisSet s.
Proof. unfold drop_T. now destruct (_T s). Qed.

Lemma drop_A_flag {AT : Type} (s : ProblemVRM AT) : _AisSet (drop_A s) = _AisSet s.
Proof. unfold drop_A. now destruct (_A s). Qed.

(** With a survey that has no source, the operators [A] and [T] of a
    linear problem cannot be built: stacking no block raises a ValueError,
    after the message is printed and what was stored is dropped; the forward
    operation fails with it.  The log-uniform problem builds the empty list
    of blocks without an error, and its forward operation raises a
    ValueError when it joins no prediction. *)
Theorem survey_without_sources :
  forall survey : SurveyVRM,
    srcList survey = [] ->
    (forall s : LinearVRM.t,
        _survey s = Some survey ->
        (_TisSet s = false ->
         exists msg s1,
           LinearVRM.T s = (Raise (ValueError msg), s1)
           /\ _T s1 = None /\ _TisSet s1 = false
           /\ stdout s1 = (stdout s ++ ["CREATING T MATRIX"%string])%list)
        /\ (_AisSet s = false ->
            (exists xyzc, index_rows (_indActive s) (gridCC (mesh s)) = Ok xyzc) ->
            (exists xyzh, index_rows (_indActive s) (gridH (mesh s)) = Ok xyzh) ->
            exists msg s1,
              LinearVRM.A s = (Raise (ValueError msg), s1)
              /\ _A s1 = None /\ _AisSet s1 = false
              /\ stdout s1 = (stdout s ++ ["CREATING A MATRIX"%string])%list)
        /\ (_TisSet s = false ->
            forall m, exists msg, fst (LinearVRM.fields m s) = Raise (ValueError msg)))
    /\ (forall s : LogUniformVRM.t,
           _survey s = Some survey ->
           (_AisSet s = false ->
            (exists xyzc, index_rows (_indActive s) (gridCC (mesh s)) = Ok xyzc) ->
            (exists xyzh, index_rows (_indActive s) (gridH (mesh s)) = Ok xyzh) ->
            exists s1, LogUniformVRM.A s = (Ok [], s1))
           /\ (forall c0 dc t1 t2,
                  exists msg,
                    LogUniformVRM.fields c0 dc t1 t2 s = (Raise (ValueError msg), s))).
Proof.
  intros survey Hsrc. split.
  - intros s Hs.
    assert (HT : _TisSet s = false ->
                 exists msg s1,
                   LinearVRM.T s = (Raise (ValueError msg), s1)
                   /\ _T s1 = None /\ _TisSet s1 = false
                   /\ stdout s1 = (stdout s ++ ["CREATING T MATRIX"%string])%list).
    { intros Hf. rewrite (T_build s survey Hs Hf), Hsrc. cbn [LinearVRM.T_blocks flat_map block_diag].
      do 2 eexists. split; [reflexivity|].
      split; [exact (drop_T_None s)|]. split; [change (_TisSet (drop_T s) = false); now rewrite drop_T_flag|].
      unfold drop_T. now destruct (_T s). }
    split; [exact HT|]. split.
    + intros Hf [xyzc Ec] [xyzh Eh]. rewrite (A_build s survey Hs Hf).
      unfold _getAMatricies. rewrite Ec, Eh, Hsrc. cbn [bind pp_loop vstack].
      do 2 eexists. split; [reflexivity|].
      split; [exact (drop_A_None s)|]. split; [change (_AisSet (drop_A s) = false); now rewrite drop_A_flag|].
      unfold drop_A. now destruct (_A s).
    + intros Hf m. destruct (HT Hf) as [msg [s1 [E _]]]. exists msg.
      unfold LinearVRM.fields, bindM, assert_paired. rewrite Hs, E. reflexivity.
  - intros s Hs. split.
    + intros Hf [xyzc Ec] [xyzh Eh]. unfold LogUniformVRM.A. rewrite Hf. cbn [negb].
      unfold bindM, assert_paired. rewrite Hs. unfold modify, ret.
      rewrite getAMatricies_drop_print. unfold _getAMatricies.
      rewrite Ec, Eh, Hsrc. cbn [bind pp_loop]. eexists. reflexivity.
    + intros c0 dc t1 t2. unfold LogUniformVRM.fields, bindM, assert_paired.
      rewrite Hs, Hsrc. cbn [LogUniformVRM.fields_pp_loop ret lift LogUniformVRM.hstack].
      eexists. reflexivity.
Qed.

(** The theorem at the survey without sources. *)
Lemma survey_without_sources_witness :
  srcList empty_survey = []
  /\ (exists msg s1,
         LinearVRM.T (pair empty_survey unpaired_problem) = (Raise (ValueError msg), s1))
  /\ (exists msg,
         LogUniformVRM.fields [0] [0] [0] [0] (pair empty_survey unpaired_log_problem)
         = (Raise (ValueError msg), pair empty_survey unpaired_log_problem)).
Proof.
  split; [reflexivity|].
  destruct (survey_without_sources empty_survey eq_refl) as [HL HU].
  split.
  - destruct (proj1 (HL (pair empty_survey unpaired_problem) eq_refl) eq_refl)
      as [msg [s1 [E _]]].
    exists msg, s1. exact E.
  - exact (proj2 (HU (pair empty_survey unpaired_log_problem) eq_refl) [0] [0] [0] [0]).
Defined.

(** ** The Jacobian product and the forward operation *)

Lemma select_map {X Y : Type} (f : X -> Y) (mask : list bool) :
  forall l : list X, select mask (map f l) = map f (select mask l).
Proof.
  induction mask as [|b mask IH]; intros [|x l]; cbn [select map]; try reflexivity.
  destruct b; cbn [map]; now rewrite IH.
Qed.

(** On a linear problem whose operators are stored, with a parameter map
    that acts as its matrix [P], the Jacobian product [Jvec(m, v)] is, for
    every model [m], the rows of the forward prediction [fields(v)] at the
    active times. *)
Theorem jvec_is_active_part_of_fields :
  forall (s : LinearVRM.t) (survey : SurveyVRM) (Am Tm : matrix) (m v : vec),
    _survey s = Some survey ->
    _AisSet s = true -> _A s = Some Am -> _TisSet s = true -> _T s = Some Tm ->
    let P := map_P (_xiMap s) in
    length (rows P) = nrow P -> length (rows Am) = nrow Am ->
    length (rows Tm) = nrow Tm ->
    ncol P = length v -> ncol Am = nrow P -> ncol Tm = nrow Am ->
    length (tActive survey) = nrow Tm ->
    map_mul (_xiMap s) v = apply_matrix P v ->
    exists d,
      LinearVRM.fields v s = (Ok (column d), s)
      /\ LinearVRM.Jvec m v s = (Ok (column (select (tActive survey) d)), s)
      /\ d = apply_matrix Tm (apply_matrix Am (apply_matrix P v)).
Proof.
  intros s survey Am Tm m v Hs HAf HA HTf HT P HPr HAr HTr HPc HAc HTc Hact Hlin.
  exists (apply_matrix Tm (apply_matrix Am (apply_matrix P v))).
  split; [|split; [|reflexivity]].
  - unfold LinearVRM.fields, bindM, assert_paired. rewrite Hs.
    rewrite (T_read_stored s Tm HTf HT), (A_read_stored s Am HAf HA). unfold lift.
    rewrite Hlin. fold P.
    rewrite (matmul_column Am) by (rewrite ?apply_matrix_length; congruence).
    rewrite (matmul_column Tm) by (rewrite ?apply_matrix_length; congruence).
    reflexivity.
  - unfold LinearVRM.Jvec, bindM, assert_paired. rewrite Hs. unfold lift. fold P.
    rewrite (matmul_column P) by congruence.
    rewrite (A_read_stored s Am HAf HA).
    rewrite (matmul_column Am) by (rewrite ?apply_matrix_length; congruence).
    rewrite (T_read_stored s Tm HTf HT).
    rewrite (mask_rows_ok _ Tm Hact).
    rewrite matmul_column.
    + unfold apply_matrix at 1. cbn [rows]. now rewrite <- select_map.
    + cbn [rows nrow]. apply select_length. congruence.
    + cbn [ncol]. rewrite apply_matrix_length. congruence.
Qed.

(** The theorem at the problem whose stored operators are [[2]] and
    [[3]], with the identity map and one active time. *)
Lemma jvec_is_active_part_of_fields_witness :
  exists d,
    LinearVRM.fields [5] built_problem = (Ok (column d), built_problem)
    /\ LinearVRM.Jvec [0] [5] built_problem
       = (Ok (column (select [true] d)), built_problem)
    /\ d = apply_matrix (Mat 1 1 [[3]]) (apply_matrix (Mat 1 1 [[2]])
             (apply_matrix (diags [1]) [5])).
Proof.
  apply (jvec_is_active_part_of_fields built_problem one_source_survey
           (Mat 1 1 [[2]]) (Mat 1 1 [[3]]) [0] [5]); try reflexivity.
  unfold apply_matrix, dot, vsum. cbn. f_equal. ring.
Defined.

(** ** What the accessors leave unchecked *)

(** The [indActive] setter checks the mask that is stored, not the one it
    is given: on a stored mask of booleans any value is accepted, and once a
    value that is not a mask of booleans is stored every later write is
    refused, whatever it brings. *)
Theorem indActive_setter_checks_stored_mask :
  forall (AT : Type) (s : ProblemVRM AT) (Vec : list pyval),
    (boolean_array (_indActive s) = true ->
     exists s1,
       indActive_setter Vec s = (Ok tt, s1) /\ _indActive s1 = Vec
       /\ (boolean_array Vec = false ->
           forall Vec',
             indActive_setter Vec' s1
             = (Raise (AssertionError "indActive must be a boolean array"), s1)))
    /\ (boolean_array (_indActive s) = false ->
        indActive_setter Vec s
        = (Raise (AssertionError "indActive must be a boolean array"), s)).
Proof.
  intros AT s Vec. split; intros H; unfold indActive_setter; rewrite H; cbn [negb].
  - eexists. split; [reflexivity|]. split; [reflexivity|].
    intros Hv Vec'. cbn [upd_indActive _indActive]. rewrite Hv. reflexivity.
  - reflexivity.
Qed.

(** A write of [refFact] or of [refRadius] leaves the flag of [A] set: the
    next read of [A] hands over the matrix that was built with the former
    refinement. *)
Theorem refinement_setters_keep_stored_A :
  forall (s : LinearVRM.t) (a : matrix),
    _AisSet s = true -> _A s = Some a ->
    (forall Val s1, refFact_setter Val s = (Ok tt, s1) ->
                    _refFact s1 = int_value Val /\ LinearVRM.A s1 = (Ok a, s1))
    /\ (forall Array s1, refRadius_setter Array s = (Ok tt, s1) ->
                         _refRadius s1 = Array /\ LinearVRM.A s1 = (Ok a, s1)).
Proof.
  intros s a Hf Ha. split.
  - intros Val s1 H. unfold refFact_setter in H.
    destruct (negb _); [discriminate|].
    destruct (py_len (_refRadius s)) as [n | e]; [|discriminate].
    inversion H; subst s1; clear H.
    split; [reflexivity|]. apply A_read_stored.
    + destruct (negb _); destruct (4 <? int_value Val)%Z; exact Hf.
    + destruct (negb _); destruct (4 <? int_value Val)%Z; exact Ha.
  - intros Array s1 H. unfold refRadius_setter in H.
    destruct (negb (is_ndarray Array)); [discriminate|].
    destruct (py_len Array) as [n | e]; [|discriminate].
    inversion H; subst s1; clear H.
    split; [reflexivity|]. apply A_read_stored.
    + destruct (negb _); exact Hf.
    + destruct (negb _); exact Ha.
Qed.

(** The theorem at the problem whose stored [A] is [[2]], built without
    refinement: after [refFact = 1] the read still gives [[2]]. *)
Lemma refinement_setters_keep_stored_A_witness :
  exists s1,
    refFact_setter (VInt 1) built_problem = (Ok tt, s1)
    /\ _refFact s1 = 1%Z
    /\ LinearVRM.A s1 = (Ok (Mat 1 1 [[2]]), s1).
Proof.
  eexists. split; [reflexivity|].
  exact (proj1 (refinement_setters_keep_stored_A built_problem (Mat 1 1 [[2]])
                  eq_refl eq_refl) (VInt 1) _ eq_refl).
Defined.

Lemma take_rows_small (M : matrix) :
  forall zs : list Z,
    Forall (fun z => (0 <= z < Z.of_nat (nrow M))%Z) zs ->
    take_rows M (map VInt zs) = Ok (map (fun z => nth (Z.to_nat z) (rows M) []) zs).
Proof.
  induction 1 as [|z zs Hz _ IH]; [reflexivity|].
  cbn [map take_rows int_value].
  assert (H0 : (z <? 0)%Z = false) by (apply Z.ltb_ge; lia).
  assert (H1 : (0 <=? z)%Z = true) by (apply Z.leb_le; lia).
  assert (H2 : (z <? Z.of_nat (nrow M))%Z = true) by (apply Z.ltb_lt; lia).
  rewrite H0, H1, H2, IH. reflexivity.
Qed.

(** A mask written with the integers 0 and 1 passes the check of the
    constructor and of the setter, but indexes the rows of the grid by
    number: the selection has one row per entry of the mask, the row 0 for
    each 0 and the row 1 for each 1. *)
Theorem integer_mask_indexes_rows :
  forall (zs : list Z) (M : matrix),
    zs <> [] -> Forall (fun z => z = 0%Z \/ z = 1%Z) zs -> (2 <= nrow M)%nat ->
    boolean_array (map VInt zs) = true
    /\ index_rows (map VInt zs) M
       = Ok (Mat (length zs) (ncol M) (map (fun z => nth (Z.to_nat z) (rows M) []) zs)).
Proof.
  intros zs M Hne Hz HM. split.
  - unfold boolean_array. apply Nat.eqb_eq. unfold count_True, count_False.
    clear Hne. induction Hz as [|z zs [-> | ->] _ IH]; [reflexivity | |];
      cbn [map filter py_eq_True py_eq_False Z.eqb Pos.eqb length] in *; lia.
  - unfold index_rows.
    destruct zs as [|z zs]; [congruence|]. cbn [map forallb is_VBool andb isinstance_int].
    assert (Hint : forallb isinstance_int (map VInt zs) = true).
    { apply forallb_forall. intros x Hx. apply in_map_iff in Hx.
      destruct Hx as [z' [<- _]]. reflexivity. }
    rewrite Hint.
    change (VInt z :: map VInt zs) with (map VInt (z :: zs)).
    rewrite take_rows_small.
    + cbn [bind]. now rewrite length_map.
    + eapply Forall_impl; [|exact Hz]. cbn beta. intros a [-> | ->]; lia.
Qed.

(** The theorem at a grid of two rows and the mask [1, 0, 1]: three rows
    are selected, the second row twice. *)
Lemma integer_mask_indexes_rows_witness :
  boolean_array [VInt 1; VInt 0; VInt 1] = true
  /\ index_rows [VInt 1; VInt 0; VInt 1] (Mat 2 1 [[10]; [20]])
     = Ok (Mat 3 1 [[20]; [10]; [20]]).
Proof.
  apply (integer_mask_indexes_rows [1; 0; 1]%Z (Mat 2 1 [[10]; [20]])).
  - discriminate.
  - repeat (apply Forall_cons; [lia|]). apply Forall_nil.
  - cbn. lia.
Defined.

(** ** The defaults of the constructor *)

Lemma count_True_repeat (n : nat) : count_True (repeat (VBool true) n) = n.
Proof.
  unfold count_True. induction n as [|n IH]; [reflexivity|].
  cbn [repeat filter py_eq_True length]. now rewrite IH.
Qed.

Lemma boolean_array_repeat (n : nat) : boolean_array (repeat (VBool true) n) = true.
Proof.
  unfold boolean_array. apply Nat.eqb_eq. rewrite count_True_repeat, repeat_length.
  assert (H : count_False (repeat (VBool true) n) = 0%nat).
  { unfold count_False. induction n as [|n IH]; [reflexivity|].
    cbn [repeat filter py_eq_False negb]. exact IH. }
  rewrite H. lia.
Qed.

(** Without keyword arguments, on a mesh of three axes that each have a
    cell, and with a base class that accepts: the refinement factor is 3,
    the radii are 1.25 times the mean of the least widths of the three axes
    times 1, 2 and 3, every cell of the mesh is active, the parameter map is
    the identity on the cells, nothing is stored, paired or printed. *)
Theorem init_defaults :
  forall (super_init : Mesh -> kwargs -> result unit) (mesh : Mesh) (h0 h1 h2 : vec),
    mesh_h mesh = [h0; h1; h2] -> h0 <> [] -> h1 <> [] -> h2 <> [] ->
    super_init mesh no_kwargs = Ok tt ->
    exists m0 m1 m2,
      is_minimum m0 h0 /\ is_minimum m1 h1 /\ is_minimum m2 h2
      /\ LinearVRM.__init__ super_init mesh no_kwargs
         = Ok (mkProblem mesh 3
                 (NdArray (map (fun k => 1.25 * ((m0 + m1 + m2) / 3) * INR k) [1; 2; 3]%nat))
                 (repeat (VBool true) (mesh_nC mesh))
                 false None None false (IdentityMap (mesh_nC mesh)) None []).
Proof.
  intros super_init mesh h0 h1 h2 Hh H0 H1 H2 Hsup.
  destruct (np_min_spec h0 H0) as [m0 [E0 M0]].
  destruct (np_min_spec h1 H1) as [m1 [E1 M1]].
  destruct (np_min_spec h2 H2) as [m2 [E2 M2]].
  exists m0, m1, m2. split; [exact M0|]. split; [exact M1|]. split; [exact M2|].
  unfold LinearVRM.__init__, new_problem, BaseProblemVRM_init, default_refRadius,
    mesh_h_item.
  rewrite Hh. cbn [nth_error bind no_kwargs kw_refFact kw_refRadius kw_indActive
                     kw_xiMap kwargs_get]. rewrite E0, E1, E2.
  cbn [bind arange_1 int_value Z.to_nat].
  change (Pos.to_nat 3) with 3%nat.
  cbn [length Nat.eqb assert bind isinstance_int py_len int_value seq map].
  change (3 <=? Z.of_nat 3)%Z with true. cbn [assert bind].
  rewrite boolean_array_repeat. cbn [assert bind]. rewrite Hsup.
  cbn [bind b_refFact b_refRadius b_indActive b_stdout int_value].
  change (4 <? 3)%Z with false. cbn iota.
  rewrite count_True_repeat. reflexivity.
Qed.

(** The theorem at the mesh of one unit cell. *)
Lemma init_defaults_witness :
  exists m0 m1 m2,
    is_minimum m0 [1] /\ is_minimum m1 [1] /\ is_minimum m2 [1]
    /\ LinearVRM.__init__ (fun _ _ => Ok tt) unit_mesh no_kwargs
       = Ok (mkProblem unit_mesh 3
               (NdArray (map (fun k => 1.25 * ((m0 + m1 + m2) / 3) * INR k) [1; 2; 3]%nat))
               [VBool true] false None None false (IdentityMap 1) None []).
Proof.
  apply (init_defaults (fun _ _ => Ok tt) unit_mesh [1] [1] [1]);
    try reflexivity; discriminate.
Defined.

Lemma min_of_nonempty (h : vec) : h <> [] -> exists m, np_min h = Ok m.
Proof. intros H. destruct (np_min_spec h H) as [m [E _]]. now exists m. Qed.

(** The default radii are computed before any assertion, whether or not
    radii are given.  So a mesh of fewer than three axes fails with the
    IndexError of the missing axis, an axis without cells among the first
    three with the ValueError of its least width, and a refinement factor
    that is [None] or a string with a TypeError: none of them reaches the
    assertions on the mesh and on the factor. *)
Theorem init_default_radii_come_first :
  forall (super_init : Mesh -> kwargs -> result unit) (mesh : Mesh) (kw : kwargs),
    ((length (mesh_h mesh) < 3)%nat -> Forall (fun h => h <> []) (mesh_h mesh) ->
     exists msg, BaseProblemVRM_init super_init mesh kw = Raise (IndexError msg))
    /\ (forall h0 h1 h2 rest,
           mesh_h mesh = h0 :: h1 :: h2 :: rest ->
           (h0 = [] \/ h1 = [] \/ h2 = [] ->
            exists msg, BaseProblemVRM_init super_init mesh kw = Raise (ValueError msg))
           /\ (h0 <> [] -> h1 <> [] -> h2 <> [] ->
               kw_refFact kw = Some VNone \/ (exists str, kw_refFact kw = Some (VStr str)) ->
               exists msg, BaseProblemVRM_init super_init mesh kw = Raise (TypeError msg))).
Proof.
  intros super_init mesh kw. split.
  - intros Hl HF. unfold BaseProblemVRM_init, default_refRadius, mesh_h_item.
    destruct (mesh_h mesh) as [|h0 [|h1 [|h2 rest]]]; cbn [length] in Hl; try lia;
      cbn [nth_error bind].
    + eexists. reflexivity.
    + inversion HF as [|? ? N0 _]; subst.
      destruct (min_of_nonempty h0 N0) as [m0 E0]. rewrite E0. cbn [bind].
      eexists. reflexivity.
    + inversion HF as [|? ? N0 HF']; subst. inversion HF' as [|? ? N1 _]; subst.
      destruct (min_of_nonempty h0 N0) as [m0 E0].
      destruct (min_of_nonempty h1 N1) as [m1 E1]. rewrite E0, E1. cbn [bind].
      eexists. reflexivity.
  - intros h0 h1 h2 rest Hh.
    unfold BaseProblemVRM_init, default_refRadius, mesh_h_item. rewrite Hh.
    cbn [nth_error bind]. split.
    + intros Hempty.
      destruct h0 as [|x0 h0]; [eexists; reflexivity|].
      cbn [np_min bind].
      destruct h1 as [|x1 h1]; [eexists; reflexivity|].
      cbn [np_min bind].
      destruct h2 as [|x2 h2]; [eexists; reflexivity|].
      destruct Hempty as [H | [H | H]]; discriminate.
    + intros N0 N1 N2 Hrf.
      destruct (min_of_nonempty h0 N0) as [m0 E0].
      destruct (min_of_nonempty h1 N1) as [m1 E1].
      destruct (min_of_nonempty h2 N2) as [m2 E2].
      rewrite E0, E1, E2. cbn [bind].
      destruct Hrf as [H | [str H]]; rewrite H; cbn [kwargs_get arange_1 bind];
        eexists; reflexivity.
Qed.

(** ** The kernel in binary64 *)















(** C10 in binary64: for the receiver at (0.5, 0.5, 2) over the unit cell,
    with the arctangents rounded to the nearest, the chain of sixteen terms
    that is [Gzz] and the negated sum of the two chains of eight terms
    [Gxx] and [Gyy] differ in the last place. *)
Lemma Gzz_is_not_the_negated_sum_in_binary64 :
  Binary64.diffs_above
  = {| Binary64.cd_u1 := 0.5; Binary64.cd_u2 := -0.5;
       Binary64.cd_v1 := 0.5; Binary64.cd_v2 := -0.5;
       Binary64.cd_w1 := 2; Binary64.cd_w2 := 1 |}
  /\ (forall np_arctan : float -> float,
         Binary64.arctan_above np_arctan ->
         let Gxx := Binary64.over_cell (Binary64.Gxx np_arctan) Binary64.diffs_above in
         let Gyy := Binary64.over_cell (Binary64.Gyy np_arctan) Binary64.diffs_above in
         let Gzz := Binary64.over_cell (Binary64.Gzz np_arctan) Binary64.diffs_above in
         Gzz = (-0.5700016593729987)%float
         /\ (- (Gxx + Gyy))%float = (-0.5700016593729988)%float
         /\ (- Gxx - Gyy)%float = (-0.5700016593729988)%float
         /\ (Gzz =? - (Gxx + Gyy))%float = false)
  /\ (exists np_arctan : float -> float, Binary64.arctan_above np_arctan).
Proof.
  split; [vm_compute; reflexivity|]. split.
  - intros np_arctan [H1 [H2 [H3 [H4 [H5 [H6 [H7 H8]]]]]]] Gxx Gyy Gzz.
    assert (Exx : Gxx = 0.2850008296864994%float).
    { subst Gxx. vm_compute. rewrite H1, H2, H3, H4, H5, H6, H7, H8. reflexivity. }
    assert (Eyy : Gyy = 0.2850008296864994%float).
    { subst Gyy. vm_compute. rewrite H1, H2, H3, H4, H5, H6, H7, H8. reflexivity. }
    assert (Ezz : Gzz = (-0.5700016593729987)%float).
    { subst Gzz. vm_compute. rewrite H1, H2, H3, H4, H5, H6, H7, H8. reflexivity. }
    rewrite Exx, Eyy, Ezz. repeat split.
  - exists (fun x =>
              if x =? 0.9428090414931746 then 0.755969410376849
              else if x =? -0.9428090414931746 then -0.755969410376849
              else if x =? 0.9428090416709524 then 0.7559694104709666
              else if x =? -0.9428090416709524 then -0.7559694104709666
              else if x =? 0.8164965807943928 then 0.6847192029222829
              else if x =? -0.8164965807943928 then -0.6847192029222829
              else if x =? 0.8164965810610595 then 0.684719203082283
              else if x =? -0.8164965810610595 then -0.684719203082283
              else 0)%float.
    repeat split.
Qed.

(** ** The blocks that the log-uniform forward operation reads *)

Lemma log_A_stored (s : LogUniformVRM.t) (As : list matrix) :
  _AisSet s = true -> _A s = Some As -> LogUniformVRM.A s = (Ok As, s).
Proof. intros H1 H2. unfold LogUniformVRM.A. rewrite H1, H2. reflexivity. Qed.

Lemma getitem_firstn {X : Type} (l l' : list X) (k i : nat) :
  firstn k l = firstn k l' -> (i < k)%nat ->
  LogUniformVRM.getitem l i = LogUniformVRM.getitem l' i.
Proof.
  intros H Hi. unfold LogUniformVRM.getitem.
  pose proof (nth_error_firstn k l i) as E. pose proof (nth_error_firstn k l' i) as E'.
  apply Nat.ltb_lt in Hi. rewrite Hi in E, E'. now rewrite <- E, <- E', H.
Qed.

Lemma fields_qq_loop_blocks (s s' : LogUniformVRM.t) (As As' : list matrix) (k : nat)
  (waveObj : Waveform) (chi0 dchi tau1 tau2 : vec) :
  _AisSet s = true -> _A s = Some As -> _AisSet s' = true -> _A s' = Some As' ->
  firstn k As = firstn k As' ->
  forall (rxs : list Rx) (qq : nat) (f : list vec),
    (qq + length rxs <= k)%nat ->
    exists r,
      LogUniformVRM.fields_qq_loop waveObj chi0 dchi tau1 tau2 rxs qq f s = (r, s)
      /\ LogUniformVRM.fields_qq_loop waveObj chi0 dchi tau1 tau2 rxs qq f s' = (r, s').
Proof.
  intros H1 H2 H1' H2' Hk. induction rxs as [|rx rxs IH]; intros qq f Hq;
    cbn [LogUniformVRM.fields_qq_loop].
  - exists (Ok f). split; reflexivity.
  - unfold bindM. rewrite (log_A_stored s As H1 H2), (log_A_stored s' As' H1' H2').
    unfold lift. cbn [length] in Hq.
    rewrite (getitem_firstn As As' k qq Hk) by lia.
    destruct (LogUniformVRM.getitem As' qq) as [Aqq|e].
    + destruct (matmul Aqq _) as [d|e].
      * apply IH. lia.
      * exists (Raise e). split; reflexivity.
    + exists (Raise e). split; reflexivity.
Qed.

Lemma fields_pp_loop_blocks (s s' : LogUniformVRM.t) (As As' : list matrix) (k : nat)
  (chi0 dchi tau1 tau2 : vec) :
  _AisSet s = true -> _A s = Some As -> _AisSet s' = true -> _A s' = Some As' ->
  firstn k As = firstn k As' ->
  forall (srcs : list Src) (f : list vec),
    (forall src, In src srcs -> (length (rxList src) <= k)%nat) ->
    exists r,
      LogUniformVRM.fields_pp_loop chi0 dchi tau1 tau2 srcs f s = (r, s)
      /\ LogUniformVRM.fields_pp_loop chi0 dchi tau1 tau2 srcs f s' = (r, s').
Proof.
  intros H1 H2 H1' H2' Hk. induction srcs as [|src srcs IH]; intros f Hs;
    cbn [LogUniformVRM.fields_pp_loop].
  - exists (Ok f). split; reflexivity.
  - unfold bindM.
    destruct (fields_qq_loop_blocks s s' As As' k (waveform src) chi0 dchi tau1 tau2
                H1 H2 H1' H2' Hk (rxList src) 0 f) as [r [E E']].
    { cbn. apply Hs. now left. }
    rewrite E, E'. destruct r as [f'|e].
    + apply IH. intros src' Hin. apply Hs. now right.
    + exists (Raise e). split; reflexivity.
Qed.

(** The forward operation of a log-uniform problem whose blocks are stored
    reads only the blocks in front of the list, as many as a source has
    receivers at most: what the other blocks hold does not change the
    outcome.  With one receiver per source only the first block is read,
    for every source. *)
Theorem log_fields_reads_leading_blocks :
  forall (s : LogUniformVRM.t) (survey : SurveyVRM) (As As' : list matrix) (k : nat),
    _survey s = Some survey -> _AisSet s = true ->
    (forall src, In src (srcList survey) -> (length (rxList src) <= k)%nat) ->
    firstn k As = firstn k As' ->
    forall c0 dc t1 t2,
      fst (LogUniformVRM.fields c0 dc t1 t2 (upd_A s (Some As)))
      = fst (LogUniformVRM.fields c0 dc t1 t2 (upd_A s (Some As'))).
Proof.
  intros s survey As As' k Hs Hf Hrx Hk c0 dc t1 t2.
  assert (Hfields : forall s1 : LogUniformVRM.t,
             _survey s1 = Some survey ->
             forall r, LogUniformVRM.fields_pp_loop (map_mul (_xiMap s1) c0)
                         (map_mul (_xiMap s1) dc) (map_mul (_xiMap s1) t1)
                         (map_mul (_xiMap s1) t2) (srcList survey) [] s1 = (r, s1) ->
             fst (LogUniformVRM.fields c0 dc t1 t2 s1)
             = (f <- r ;; LogUniformVRM.hstack f)).
  { intros s1 Hs1 r Er. unfold LogUniformVRM.fields, bindM, assert_paired.
    rewrite Hs1, Er. destruct r; reflexivity. }
  destruct (fields_pp_loop_blocks (upd_A s (Some As)) (upd_A s (Some As')) As As' k
              (map_mul (_xiMap s) c0) (map_mul (_xiMap s) dc)
              (map_mul (_xiMap s) t1) (map_mul (_xiMap s) t2)
              Hf eq_refl Hf eq_refl Hk (srcList survey) [] Hrx) as [r [E E']].
  rewrite (Hfields (upd_A s (Some As)) Hs r E).
  rewrite (Hfields (upd_A s (Some As')) Hs r E'). reflexivity.
Qed.

(** The theorem at the problem of two sources with one receiver each:
    the block of the second source can hold anything. *)
Lemma log_fields_reads_leading_blocks_witness :
  fst (LogUniformVRM.fields [0] [0] [0] [0]
         (upd_A log_problem (Some [Mat 1 1 [[1]]; Mat 1 1 [[2]]])))
  = fst (LogUniformVRM.fields [0] [0] [0] [0]
           (upd_A log_problem (Some [Mat 1 1 [[1]]; Mat 1 1 [[99]]]))).
Proof.
  apply (log_fields_reads_leading_blocks log_problem two_source_survey
           [Mat 1 1 [[1]]; Mat 1 1 [[2]]] [Mat 1 1 [[1]]; Mat 1 1 [[99]]] 1);
    try reflexivity.
  intros src [<- | [<- | []]]; cbn; lia.
Defined.

(** ** The forward prediction, datum by datum *)

Lemma split_segments :
  forall (ns : list nat) (y : vec),
    length y = list_sum ns ->
    exists segs, concat segs = y /\ Forall2 (fun n seg => length seg = n) ns segs.
Proof.
  induction ns as [|n ns IH]; intros y Hy.
  - destruct y; [|discriminate]. exists []. split; [reflexivity | constructor].
  - change (list_sum (n :: ns)) with (n + list_sum ns)%nat in Hy.
    destruct (IH (skipn n y)) as [segs [Hc HF]]; [rewrite length_skipn; lia|].
    exists (firstn n y :: segs). split.
    + cbn [concat]. rewrite Hc. apply firstn_skipn.
    + constructor; [apply firstn_length_le; lia | exact HF].
Qed.

Lemma receivers_locations (survey : SurveyVRM) :
  Forall locations_counted (srcList survey) ->
  list_sum (map nRx (srcList survey))
  = list_sum (map (fun p => nrow (locs (snd p))) (receivers survey)).
Proof.
  unfold receivers. induction 1 as [|src srcs Hsrc _ IH]; [reflexivity|].
  cbn [map flat_map]. rewrite map_app, list_sum_app, map_map. cbn [snd].
  change (list_sum (nRx src :: map nRx srcs)) with (nRx src + list_sum (map nRx srcs))%nat.
  rewrite IH, Hsrc. reflexivity.
Qed.

(** The forward operation of a linear problem that builds its operators,
    on a survey whose sources count one datum per receiver location: the
    geometric response [A] applied to the mapped model has one value per
    receiver location, and the prediction lists, receiver by receiver and
    location by location, that value times the characteristic decay of the
    receiver at each of its times. *)
Theorem linear_forward_prediction :
  forall (s s1 s2 : LinearVRM.t) (survey : SurveyVRM) (m : vec) (Tm Am : matrix),
    _survey s = Some survey -> _TisSet s = false -> _AisSet s = false ->
    LinearVRM.T s = (Ok Tm, s1) -> LinearVRM.A s1 = (Ok Am, s2) ->
    Forall locations_counted (srcList survey) ->
    length (map_mul (_xiMap s) m) = ncol Am ->
    exists segs,
      concat segs = apply_matrix Am (map_mul (_xiMap s) m)
      /\ Forall2 (fun p seg => length seg = nrow (locs (snd p))) (receivers survey) segs
      /\ LinearVRM.fields m s
         = (Ok (column (concat (zip_with (fun p seg => decay_times (char_decay p) seg)
                                  (receivers survey) segs))), s2).
Proof.
  intros s s1 s2 survey m Tm Am Hs HTf HAf HT HA Hcnt Hm.
  destruct (T_read_ok s s1 Tm HT) as [_ [_ [Hs1 [_ [_ HAf1]]]]].
  rewrite Hs in Hs1. rewrite HAf in HAf1.
  (* the decay operator *)
  pose proof HT as HT'. rewrite (T_build s survey Hs HTf) in HT'.
  assert (Hne : receivers survey <> []).
  { intros Hnil. rewrite T_blocks_receivers, Hnil in HT'. discriminate. }
  destruct (T_blocks_operator survey Hne) as [Tm' [ET [HwT [HTc [_ Happ]]]]].
  rewrite ET in HT'. inversion HT'; subst Tm'. clear HT'.
  (* the geometric operator *)
  pose proof HA as HA'. rewrite (A_build s1 survey Hs1 HAf1) in HA'.
  destruct (_getAMatricies s1 survey) as [blocks|e] eqn:EB; cbn [bind] in HA';
    [|discriminate].
  destruct (vstack blocks) as [a|e] eqn:EV; inversion HA'; subst a; subst s2; clear HA'.
  destruct (getAMatricies_stack s1 survey blocks Am EB EV)
    as [xyzc [_ [_ [_ [[HAr _] [HAn _]]]]]].
  (* the segments of the response *)
  set (y := apply_matrix Am (map_mul (_xiMap s) m)).
  assert (Hy : length y = list_sum (map (fun p => nrow (locs (snd p))) (receivers survey))).
  { unfold y. rewrite apply_matrix_length, HAr, HAn. now apply receivers_locations. }
  destruct (split_segments _ y Hy) as [segs [Hc HF]].
  assert (HF' : Forall2 (fun p seg => length seg = nrow (locs (snd p)))
                  (receivers survey) segs).
  { clear -HF. remember (map _ (receivers survey)) as ns eqn:Ens.
    revert Ens. generalize (receivers survey).
    induction HF as [|n seg ns segs Hl _ IH]; intros [|p ps] Ens; try discriminate;
      constructor.
    - cbn [map] in Ens. inversion Ens. congruence.
    - apply IH. cbn [map] in Ens. now inversion Ens. }
  exists segs. split; [exact Hc|]. split; [exact HF'|].
  unfold LinearVRM.fields, bindM, assert_paired. rewrite Hs, HT, HA. unfold lift.
  rewrite (matmul_column Am) by (symmetry in Hm; assumption).
  fold y. destruct HwT as [HTr _].
  rewrite (matmul_column Tm) by (try assumption; rewrite HTc; symmetry; exact Hy).
  rewrite <- Hc, (Happ segs HF'). reflexivity.
Qed.

(** The theorem at the paired problem on the unit mesh, for the model 0. *)
Lemma linear_forward_prediction_witness :
  exists Tm s1 Am s2 segs,
    LinearVRM.T paired_problem = (Ok Tm, s1)
    /\ LinearVRM.A s1 = (Ok Am, s2)
    /\ concat segs = apply_matrix Am [0]
    /\ LinearVRM.fields [0] paired_problem
       = (Ok (column (concat (zip_with (fun p seg => decay_times (char_decay p) seg)
                                (receivers one_source_survey) segs))), s2).
Proof.
  destruct (T_blocks_operator one_source_survey) as [Tm [ET _]]; [discriminate|].
  pose proof (T_build paired_problem one_source_survey eq_refl eq_refl) as HT.
  rewrite ET in HT.
  destruct (unit_problem_A_returns
              (upd_TisSet (upd_T (print "CREATING T MATRIX" (drop_T paired_problem))
                             (Some Tm)) true)
              eq_refl eq_refl eq_refl eq_refl eq_refl)
    as [Am [s2 [HA Hc]]].
  assert (Hcnt : Forall locations_counted (srcList one_source_survey))
    by (repeat constructor).
  destruct (linear_forward_prediction paired_problem _ s2 one_source_survey [0] Tm Am
              eq_refl eq_refl eq_refl HT HA Hcnt (eq_sym Hc))
    as [segs [H1 [_ H3]]].
  exists Tm. eexists. exists Am, s2, segs.
  split; [exact HT|]. split; [exact HA|]. split; [exact H1 | exact H3].
Defined.

(** ** More receivers than sources *)

Lemma log_A_build (s : LogUniformVRM.t) (survey : SurveyVRM) :
  _survey s = Some survey -> _AisSet s = false ->
  LogUniformVRM.A s
  = match _getAMatricies s survey with
    | Ok a => (Ok a, upd_AisSet (upd_A (print "CREATING A MATRIX" (drop_A s)) (Some a)) true)
    | Raise e => (Raise e, print "CREATING A MATRIX" (drop_A s))
    end.
Proof.
  intros Hs Hf. unfold LogUniformVRM.A. rewrite Hf. cbn [negb].
  unfold bindM, assert_paired. rewrite Hs. unfold modify, ret.
  rewrite getAMatricies_drop_print.
  destruct (_getAMatricies s survey) as [a|e]; reflexivity.
Qed.

Lemma getAMatricies_length {AT : Type} (s : ProblemVRM AT) (survey : SurveyVRM)
  (blocks : list matrix) :
  _getAMatricies s survey = Ok blocks -> length blocks = nSrc survey.
Proof.
  unfold _getAMatricies. intros H.
  destruct (index_rows _ (gridCC _)) as [xyzc|e]; cbn [bind] in H; [|discriminate].
  destruct (index_rows _ (gridH _)) as [xyzh|e]; cbn [bind] in H; [|discriminate].
  apply pp_loop_spec in H. symmetry. exact (Forall2_length H).
Qed.

(** A read of the blocks keeps the state paired, with its blocks either
    not built or one per source; when it returns, they are built. *)
Lemma log_A_read (survey : SurveyVRM) (s : LogUniformVRM.t) :
  blocks_per_source survey s ->
  (exists e s1, LogUniformVRM.A s = (Raise e, s1) /\ blocks_per_source survey s1)
  \/ (exists As s1,
         LogUniformVRM.A s = (Ok As, s1) /\ length As = nSrc survey
         /\ blocks_per_source survey s1).
Proof.
  intros [Hs [Hf | [As [Hf [HA Hl]]]]].
  - rewrite (log_A_build s survey Hs Hf).
    assert (Hd : _survey (drop_A s) = Some survey)
      by (unfold drop_A; destruct (_A s); exact Hs).
    assert (Hdf : _AisSet (drop_A s) = false) by (now rewrite drop_A_flag).
    destruct (_getAMatricies s survey) as [a|e] eqn:E.
    + right. exists a. eexists. split; [reflexivity|].
      pose proof (getAMatricies_length s survey a E) as Hl.
      split; [exact Hl|]. split; [exact Hd|]. right. exists a. repeat split. exact Hl.
    + left. exists e. eexists. split; [reflexivity|].
      split; [exact Hd | left; exact Hdf].
  - right. exists As, s. split; [now apply log_A_stored|]. split; [exact Hl|].
    split; [exact Hs|]. right. exists As. repeat split; assumption.
Qed.

Lemma fields_qq_loop_state (survey : SurveyVRM) (waveObj : Waveform)
  (chi0 dchi tau1 tau2 : vec) :
  forall (rxs : list Rx) (qq : nat) (f : list vec) (s : LogUniformVRM.t),
    blocks_per_source survey s ->
    exists r s1,
      LogUniformVRM.fields_qq_loop waveObj chi0 dchi tau1 tau2 rxs qq f s = (r, s1)
      /\ blocks_per_source survey s1.
Proof.
  induction rxs as [|rx rxs IH]; intros qq f s Hg; cbn [LogUniformVRM.fields_qq_loop].
  - exists (Ok f), s. split; [reflexivity | exact Hg].
  - unfold bindM.
    destruct (log_A_read survey s Hg) as [[e [s1 [E Hg1]]] | [As [s1 [E [_ Hg1]]]]];
      rewrite E.
    + exists (Raise e), s1. split; [reflexivity | exact Hg1].
    + unfold lift. destruct (LogUniformVRM.getitem As qq) as [Aqq|e].
      * destruct (matmul Aqq _) as [d|e].
        -- apply IH. exact Hg1.
        -- exists (Raise e), s1. split; [reflexivity | exact Hg1].
      * exists (Raise e), s1. split; [reflexivity | exact Hg1].
Qed.

Lemma fields_qq_loop_too_many (survey : SurveyVRM) (waveObj : Waveform)
  (chi0 dchi tau1 tau2 : vec) :
  forall (rxs : list Rx) (qq : nat) (f : list vec) (s : LogUniformVRM.t),
    blocks_per_source survey s ->
    (qq <= nSrc survey)%nat -> (nSrc survey < qq + length rxs)%nat ->
    exists e s1,
      LogUniformVRM.fields_qq_loop waveObj chi0 dchi tau1 tau2 rxs qq f s = (Raise e, s1).
Proof.
  induction rxs as [|rx rxs IH]; intros qq f s Hg Hq Hl; cbn [length] in Hl; [lia|].
  cbn [LogUniformVRM.fields_qq_loop]. unfold bindM.
  destruct (log_A_read survey s Hg) as [[e [s1 [E Hg1]]] | [As [s1 [E [HAs Hg1]]]]];
    rewrite E.
  - exists e, s1. reflexivity.
  - unfold lift, LogUniformVRM.getitem.
    destruct (nth_error As qq) as [Aqq|] eqn:En.
    + assert (Hlt : (qq < length As)%nat) by (apply nth_error_Some; congruence).
      destruct (matmul Aqq _) as [d|e].
      * apply IH; [exact Hg1 | lia | lia].
      * exists e, s1. reflexivity.
    + eexists. exists s1. reflexivity.
Qed.

Lemma fields_pp_loop_too_many (survey : SurveyVRM) (chi0 dchi tau1 tau2 : vec) :
  forall (srcs : list Src) (f : list vec) (s : LogUniformVRM.t),
    blocks_per_source survey s ->
    (exists src, In src srcs /\ (nSrc survey < length (rxList src))%nat) ->
    exists e s1,
      LogUniformVRM.fields_pp_loop chi0 dchi tau1 tau2 srcs f s = (Raise e, s1).
Proof.
  induction srcs as [|src srcs IH]; intros f s Hg [bad [Hin Hbad]]; [contradiction|].
  cbn [LogUniformVRM.fields_pp_loop]. unfold bindM.
  destruct Hin as [<- | Hin].
  - destruct (fields_qq_loop_too_many survey (waveform src) chi0 dchi tau1 tau2
                (rxList src) 0 f s Hg) as [e [s1 E]]; [lia | cbn; lia |].
    rewrite E. exists e, s1. reflexivity.
  - destruct (fields_qq_loop_state survey (waveform src) chi0 dchi tau1 tau2
                (rxList src) 0 f s Hg) as [r [s1 [E Hg1]]].
    rewrite E. destruct r as [f'|e].
    + apply IH; [exact Hg1 | exists bad; split; assumption].
    + exists e, s1. reflexivity.
Qed.

(** The forward operation of a log-uniform problem looks the block of a
    receiver up by the number of the receiver within its source.  On a
    problem that builds its blocks (one per source), a survey in which some
    source has more receivers than the survey has sources cannot be
    predicted: the operation raises, whatever the model. *)
Theorem log_fields_more_receivers_than_sources :
  forall (s : LogUniformVRM.t) (survey : SurveyVRM),
    _survey s = Some survey -> _AisSet s = false ->
    (exists src, In src (srcList survey) /\ (nSrc survey < length (rxList src))%nat) ->
    forall c0 dc t1 t2,
      exists e, fst (LogUniformVRM.fields c0 dc t1 t2 s) = Raise e.
Proof.
  intros s survey Hs Hf Hbad c0 dc t1 t2.
  unfold LogUniformVRM.fields, bindM, assert_paired. rewrite Hs.
  destruct (fields_pp_loop_too_many survey
              (map_mul (_xiMap s) c0) (map_mul (_xiMap s) dc)
              (map_mul (_xiMap s) t1) (map_mul (_xiMap s) t2)
              (srcList survey) [] s (conj Hs (or_introl Hf)) Hbad) as [e [s1 E]].
  rewrite E. exists e. reflexivity.
Qed.

(** The theorem at the survey of one source with two receivers. *)
Lemma log_fields_more_receivers_than_sources_witness :
  exists e,
    fst (LogUniformVRM.fields [0] [0] [0] [0] fresh_log_problem_two_receivers) = Raise e.
Proof.
  apply (log_fields_more_receivers_than_sources fresh_log_problem_two_receivers
           {| srcList := [two_receiver_source]; tActive := [true; true] |}
           eq_refl eq_refl).
  exists two_receiver_source. split; [now left | cbn; lia].
Defined.
